(** * bigbigint: a shallow embedding of BigBigInt.cpp

    The class [bigbigint] (BigBigInt.h) is a sign-magnitude integer: a
    heap buffer of bytes in big-endian order, its size in bytes and in
    32-bit words, and a flag byte whose bit 0 is the sign.

    The embedding follows the default build of the sources:
    [MEM_ARCH_USES_BIG_ENDIAN] is not defined (the host is little-endian,
    so [REVERSE_BYTE_ORDER] really swaps), and [D_LONG] is the 64-bit
    integer of the WIN32 branch, the only branch in which
    [unsigned D_LONG] is a type.  There [int] and [long] are 32 bits wide.

    Memory is a [list Z] of bytes.  Operators that can leave the buffer,
    shift by an undefined amount, call [exit] or loop without bound return
    an [outcome] and take a budget [fuel] of loop passes and nested calls;
    the others are plain functions.  The operators are the ones on
    bigbigint operands and the ones the operator macros generate for the
    integral types, where [sz] is the size of the type in bytes; the two
    division routines of div_play.cpp come with them. *)

From Stdlib Require Import ZArith List Lia Bool.
Import ListNotations.
Open Scope Z_scope.

(** ** Results of calls that may not return *)

Inductive outcome (A : Type) : Type :=
| Ret (a : A)          (* the call returned [a] *)
| Exit (code : Z)      (* the process ended through [exit(code)] *)
| Fault                (* an access outside a buffer, or an undefined shift *)
| OutOfFuel.           (* the iteration or call budget ran out *)

Arguments Ret {A} a.
Arguments Exit {A} code.
Arguments Fault {A}.
Arguments OutOfFuel {A}.

Definition bind {A B : Type} (m : outcome A) (k : A -> outcome B) : outcome B :=
  match m with
  | Ret a => k a
  | Exit c => Exit c
  | Fault => Fault
  | OutOfFuel => OutOfFuel
  end.

Notation "x <- m ;; k" := (bind m (fun x => k))
  (at level 61, m at next level, right associativity).
Notation "' p <- m ;; k" := (bind m (fun x => let p := x in k))
  (at level 61, p pattern, m at next level, right associativity).

(** [returned m] holds when the call came back to its caller. *)
Definition returned {A : Type} (m : outcome A) : bool :=
  match m with Ret _ => true | _ => false end.

(** ** Constants of BigBigInt.h and of the platform *)

Definition sizeof_BBI_BASE_TYPE : Z := 4.      (* unsigned int *)
Definition BBI_BASE_MAX : Z := 0xFFFFFFFF.
Definition BBI_MIN_SIZE : Z := 2.
Definition BBI_NEGATIVE : Z := 1.
Definition UCHAR_MAX : Z := 255.
Definition INT_BITS : Z := 32.
Definition ULONG_BITS : Z := 32.
Definition D_LONG_BITS : Z := 64.

Definition IS_NEGATIVE (flags : Z) : bool :=
  negb (Z.land flags BBI_NEGATIVE =? 0).

Definition MAX (val1 val2 : Z) : Z := if val1 >? val2 then val1 else val2.

(** Conversion of an integer to a [bits]-wide unsigned or signed type. *)
Definition to_unsigned (bits x : Z) : Z := x mod 2 ^ bits.

Definition to_signed (bits x : Z) : Z :=
  let u := x mod 2 ^ bits in
  if u <? 2 ^ (bits - 1) then u else u - 2 ^ bits.

(** ** Bytes in memory *)

Definition zeros (n : Z) : list Z := repeat 0 (Z.to_nat n).

(** [memcpy dst doff src soff n]: the buffer [dst] after
    [memcpy(dst + doff, src + soff, n)]. *)
Definition memcpy (dst : list Z) (doff : Z) (src : list Z) (soff n : Z) : list Z :=
  firstn (Z.to_nat doff) dst
    ++ firstn (Z.to_nat n) (skipn (Z.to_nat soff) src)
    ++ skipn (Z.to_nat (doff + n)) dst.

(** [memset0 dst n]: the buffer [dst] after [memset(dst, 0, n)]. *)
Definition memset0 (dst : list Z) (n : Z) : list Z :=
  zeros n ++ skipn (Z.to_nat n) dst.

(** [memcmp a b n], as the sign of the first difference among [n] bytes. *)
Fixpoint memcmp (a b : list Z) (n : nat) {struct n} : Z :=
  match n with
  | O => 0
  | S n' =>
      match a, b with
      | x :: a', y :: b' =>
          if x <? y then -1 else if y <? x then 1 else memcmp a' b' n'
      | _, _ => 0
      end
  end.

(** The native (little-endian) bytes of a [n]-byte integer, and back. *)
Fixpoint le_bytes (n : nat) (v : Z) : list Z :=
  match n with
  | O => []
  | S n' => v mod 256 :: le_bytes n' (v / 256)
  end.

Fixpoint le_combine (bs : list Z) : Z :=
  match bs with
  | [] => 0
  | b :: bs' => b + 256 * le_combine bs'
  end.

(** [REVERSE_BYTE_ORDER]: the variable of [sz] bytes holding [v] after its
    bytes were swapped end for end. *)
Definition REVERSE_BYTE_ORDER (sz : Z) (v : Z) : Z :=
  le_combine (rev (le_bytes (Z.to_nat sz) v)).

(** The number a buffer denotes: its bytes read most significant first. *)
Definition be_value (bs : list Z) : Z :=
  fold_left (fun acc b => acc * 256 + b) bs 0.

(** ** The class *)

Record bigbigint : Type := mk_bigbigint {
  _first_byte : list Z;   (* the bytes [_first_byte] points to *)
  _num_bytes : Z;
  _length : Z;
  _flags : Z
}.

Definition magnitude (v : bigbigint) : Z := be_value (_first_byte v).

Definition is_negative (v : bigbigint) : bool := IS_NEGATIVE (_flags v).

Definition set_bytes (v : bigbigint) (bs : list Z) : bigbigint :=
  mk_bigbigint bs (_num_bytes v) (_length v) (_flags v).

Definition set_flags (v : bigbigint) (fl : Z) : bigbigint :=
  mk_bigbigint (_first_byte v) (_num_bytes v) (_length v) fl.

Definition is_byte (b : Z) : Prop := 0 <= b < 256.

(** The class invariant every constructor and operator keeps: the buffer has
    [_num_bytes] bytes, that is [_length] words, at least [BBI_MIN_SIZE]. *)
Definition wf (v : bigbigint) : Prop :=
  BBI_MIN_SIZE <= _length v
  /\ _num_bytes v = _length v * sizeof_BBI_BASE_TYPE
  /\ Z.of_nat (length (_first_byte v)) = _num_bytes v
  /\ Forall is_byte (_first_byte v).

(** [_constructor].  [malloc] leaves the bytes and [_flags] indeterminate;
    every operator below assigns the object before reading it, and the model
    starts from zeros. *)
Definition _constructor (size : Z) : bigbigint :=
  let size := if size <? BBI_MIN_SIZE then BBI_MIN_SIZE else size in
  mk_bigbigint (zeros (size * sizeof_BBI_BASE_TYPE))
               (size * sizeof_BBI_BASE_TYPE) size 0.

(** [_upsize]. *)
Definition _upsize (this : bigbigint) (new_length : Z) : bigbigint :=
  let save_ptr := _first_byte this in
  let save_num_bytes := _num_bytes this in
  let num_bytes := new_length * sizeof_BBI_BASE_TYPE in
  let offset := num_bytes - save_num_bytes in
  let buf := memset0 (zeros num_bytes) offset in
  mk_bigbigint (memcpy buf offset save_ptr 0 save_num_bytes)
               num_bytes new_length (_flags this).

(** [zero_fill(n)] and [zero_fill()]. *)
Definition zero_fill_n (this : bigbigint) (num_byts_to_fill : Z) : bigbigint :=
  if num_byts_to_fill =? 0 then this
  else set_bytes this (memset0 (_first_byte this) num_byts_to_fill).

Definition zero_fill (this : bigbigint) : bigbigint :=
  set_bytes this (memset0 (_first_byte this) (_num_bytes this)).

(** [copy]. *)
Definition copy (item : bigbigint) : bigbigint :=
  mk_bigbigint
    (memcpy (zeros (_num_bytes item)) 0 (_first_byte item) 0 (_num_bytes item))
    (_num_bytes item) (_length item) (_flags item).

(** [operator =(const bigbigint &)].  The test [this == &NewVal] guards a
    self-assignment, which the first branch leaves unchanged as well. *)
Definition operator_assign (this NewVal : bigbigint) : bigbigint :=
  let this1 :=
    if _num_bytes this =? _num_bytes NewVal then
      set_bytes this
        (memcpy (_first_byte this) 0 (_first_byte NewVal) 0 (_num_bytes this))
    else if _num_bytes this <? _num_bytes NewVal then
      copy NewVal
    else
      let offset := _num_bytes this - _num_bytes NewVal in
      zero_fill_n
        (set_bytes this
           (memcpy (_first_byte this) offset
                   (_first_byte NewVal) 0 (_num_bytes NewVal)))
        offset in
  set_flags this1 (_flags NewVal).

(** [ASSIGN_OP_BODY_INT_TYPES], the body of [operator =] for an integral
    type of [sz] bytes. *)
Definition ASSIGN_OP_BODY_INT_TYPES
    (sz : Z) (is_signed : bool) (this : bigbigint) (NewVal : Z) : bigbigint :=
  let wrap := if is_signed then to_signed (8 * sz) else to_unsigned (8 * sz) in
  let NewVal := wrap NewVal in            (* the argument, of the type *)
  let flags := 0 in
  let '(flags, NewVal) :=
    if NewVal <? 0 then (Z.lor flags BBI_NEGATIVE, wrap (0 - NewVal))
    else (flags, NewVal) in
  let this := zero_fill (set_flags this flags) in
  let NewVal := REVERSE_BYTE_ORDER sz (to_unsigned (8 * sz) NewVal) in
  let offset := _num_bytes this - sz in
  set_bytes this
    (memcpy (_first_byte this) offset (le_bytes (Z.to_nat sz) NewVal) 0 sz).

Definition operator_assign_int := ASSIGN_OP_BODY_INT_TYPES 4 true.
Definition operator_assign_uint := ASSIGN_OP_BODY_INT_TYPES 4 false.

(** [CAST_OPERATOR_FUNCTION(__type)] for a type of [sz] bytes.  The macro
    converts the pointer [_first_byte + (_num_bytes - sizeof(__type))]
    itself to [__type]; [addr] is the address [_first_byte] holds. *)
Definition CAST_OPERATOR_FUNCTION
    (sz : Z) (is_signed : bool) (addr : Z) (this : bigbigint) : Z :=
  let wrap := if is_signed then to_signed (8 * sz) else to_unsigned (8 * sz) in
  let tmp_var := wrap (addr + (_num_bytes this - sz)) in
  if IS_NEGATIVE (_flags this) then wrap (0 - tmp_var) else tmp_var.


(** ** Single bytes and words of a buffer *)

Definition load_byte (bs : list Z) (i : Z) : option Z :=
  if i <? 0 then None else nth_error bs (Z.to_nat i).

Definition store_byte (bs : list Z) (i v : Z) : option (list Z) :=
  if (0 <=? i) && (i <? Z.of_nat (length bs)) then
    Some (firstn (Z.to_nat i) bs ++ v :: skipn (Z.to_nat (i + 1)) bs)
  else None.

(** A [BBI_BASE_TYPE] read from and written to word [k] of a buffer, in the
    byte order of the host. *)
Definition load_word (bs : list Z) (k : Z) : Z :=
  le_combine (firstn 4 (skipn (Z.to_nat (4 * k)) bs)).

Definition store_word (bs : list Z) (k v : Z) : list Z :=
  memcpy bs (4 * k) (le_bytes 4 v) 0 4.

(** [ONES_COMPLEMENT]: every word of the value is replaced by its bitwise
    complement, that is every byte of the first [_length] words. *)
Definition ONES_COMPLEMENT (v : bigbigint) : bigbigint :=
  let n := Z.to_nat (_length v * sizeof_BBI_BASE_TYPE) in
  set_bytes v
    (map (fun b => Z.lxor b UCHAR_MAX) (firstn n (_first_byte v))
       ++ skipn n (_first_byte v)).

(** ** Addition and subtraction *)

(** The byte loop shared by [operator +] and [operator -]: two pointers walk
    from the last byte of each operand towards the first, as long as both
    are inside their buffers.  [xs] and [ys] are the operands' bytes, last
    byte first; the result is the bytes written, last byte first, and the
    value of [result] when the loop ends. *)
Fixpoint add_bytes (xs ys : list Z) (result : Z) : list Z * Z :=
  match xs, ys with
  | x :: xs', y :: ys' =>
      let result := result + (x + y) in
      let out := Z.land result UCHAR_MAX in
      let result := if result >? UCHAR_MAX then Z.shiftr result 8 else 0 in
      let '(outs, result) := add_bytes xs' ys' result in
      (out :: outs, result)
  | _, _ => ([], result)
  end.

(** The bytes [outs] (last byte first) written through a pointer that starts
    at the last byte of [buf] and walks towards the first. *)
Definition store_tail (buf outs : list Z) : list Z :=
  firstn (length buf - length outs) buf ++ rev outs.

(** The second loop of [operator -]: the end-around carry is added to the
    result, from the last byte, until a byte absorbs it. *)
Fixpoint add_carry (xs : list Z) (result : Z) : list Z :=
  match xs with
  | [] => []
  | x :: xs' =>
      let result := result + x in
      let out := Z.land result UCHAR_MAX in
      if result <=? UCHAR_MAX then out :: xs'
      else out :: add_carry xs' (Z.shiftr result 8)
  end.

(** Unary [operator -()]. *)
Definition operator_neg (this : bigbigint) : bigbigint :=
  let tVal := _constructor (_length this) in
  let tVal := operator_assign tVal this in
  set_flags tVal (Z.lxor (_flags tVal) BBI_NEGATIVE).

(** [operator +(bigbigint)] once both operands have the same sign. *)
Definition add_same_sign (this PlusVal : bigbigint) : bigbigint :=
  let tVal := _constructor (MAX (_length this) (_length PlusVal)) in
  let tVal := operator_assign_int tVal 0 in
  let tVal := set_flags tVal (_flags this) in
  let '(outs, result) :=
    add_bytes (rev (_first_byte this)) (rev (_first_byte PlusVal)) 0 in
  let tVal := set_bytes tVal (store_tail (_first_byte tVal) outs) in
  if result >? 0 then
    let tVal := _upsize tVal (_length tVal + 1) in
    match store_byte (_first_byte tVal) (sizeof_BBI_BASE_TYPE - 1)
                     (Z.land result UCHAR_MAX) with
    | Some bs => set_bytes tVal bs
    | None => tVal
    end
  else tVal.

(** [operator -(bigbigint)] once both operands are non-negative. *)
Definition sub_positive (this Subtrahend : bigbigint) : bigbigint :=
  let tVal := _constructor (MAX (_length this) (_length Subtrahend)) in
  let tVal := operator_assign tVal Subtrahend in
  let tVal := set_flags tVal (_flags this) in
  let tVal := ONES_COMPLEMENT tVal in
  let '(outs, result) :=
    add_bytes (rev (_first_byte this)) (rev (_first_byte tVal)) 0 in
  let tVal := set_bytes tVal (store_tail (_first_byte tVal) outs) in
  if result <=? 0 then
    let tVal := ONES_COMPLEMENT tVal in
    if IS_NEGATIVE (_flags tVal)
    then set_flags tVal (Z.land (_flags tVal) (Z.lnot BBI_NEGATIVE))
    else set_flags tVal (Z.lor (_flags tVal) BBI_NEGATIVE)
  else
    set_bytes tVal (rev (add_carry (rev (_first_byte tVal)) result)).

(** [operator +(bigbigint)] and [operator -(bigbigint)] call each other;
    [fuel] bounds the depth of the calls.  Both are member functions: the
    pair returned is the object [*this] after the call and the value
    returned.  Arguments and results passed by value go through the copy
    constructor, which changes nothing of a value that satisfies [wf]. *)
Fixpoint operator_plus (fuel : nat) (this PlusVal : bigbigint)
    : outcome (bigbigint * bigbigint) :=
  match fuel with
  | O => OutOfFuel
  | S fuel' =>
      if IS_NEGATIVE (_flags this) && negb (IS_NEGATIVE (_flags PlusVal)) then
        (* *this = PlusVal - (-*this); return *this; *)
        '(_, d) <- operator_minus fuel' PlusVal (operator_neg this) ;;
        let this := operator_assign this d in
        Ret (this, this)
      else if negb (IS_NEGATIVE (_flags this)) && IS_NEGATIVE (_flags PlusVal) then
        (* *this = *this - (-PlusVal); return *this; *)
        '(this, d) <- operator_minus fuel' this (operator_neg PlusVal) ;;
        let this := operator_assign this d in
        Ret (this, this)
      else
        Ret (this, add_same_sign this PlusVal)
  end
with operator_minus (fuel : nat) (this Subtrahend : bigbigint)
    : outcome (bigbigint * bigbigint) :=
  match fuel with
  | O => OutOfFuel
  | S fuel' =>
      let tVal := _constructor (MAX (_length this) (_length Subtrahend)) in
      if negb (IS_NEGATIVE (_flags this)) && IS_NEGATIVE (_flags Subtrahend) then
        (* tVal = *this + (-Subtrahend); *)
        '(this, s) <- operator_plus fuel' this (operator_neg Subtrahend) ;;
        Ret (this, operator_assign tVal s)
      else if IS_NEGATIVE (_flags this) && IS_NEGATIVE (_flags Subtrahend) then
        (* tVal = (-Subtrahend) - (-*this); *)
        '(_, d) <- operator_minus fuel' (operator_neg Subtrahend) (operator_neg this) ;;
        Ret (this, operator_assign tVal d)
      else if IS_NEGATIVE (_flags this) && negb (IS_NEGATIVE (_flags Subtrahend)) then
        (* tVal = *this + (-Subtrahend); *)
        '(this, s) <- operator_plus fuel' this (operator_neg Subtrahend) ;;
        Ret (this, operator_assign tVal s)
      else
        Ret (this, sub_positive this Subtrahend)
  end.

(** [PLUS_EQ_OPERATOR_MEMBER_FUNCTION(bigbigint)]: [operator +=]. *)
Definition operator_plus_assign (fuel : nat) (this PlusVal : bigbigint)
    : outcome bigbigint :=
  '(this, s) <- operator_plus fuel this PlusVal ;;
  Ret (operator_assign this s).

(** ** Multiplication *)

(** The inner loop of [operator *]: word [*p_mult] against the words of the
    longer operand [src], from its last word ([n] words are left), adding
    into the result from word [p_tval] downwards. *)
Fixpoint mul_inner (n : nat) (src : list Z) (w_mult : Z)
    (tv : list Z) (p_tval : Z) (result : Z) : list Z :=
  match n with
  | O => tv
  | S n' =>
      let byte_1 := REVERSE_BYTE_ORDER 4 w_mult in
      let byte_2 := REVERSE_BYTE_ORDER 4 (load_word src (Z.of_nat n')) in
      let result := to_unsigned D_LONG_BITS (result + byte_1 * byte_2) in
      let result := to_unsigned D_LONG_BITS (result + load_word tv p_tval) in
      let tv := store_word tv p_tval (Z.land result BBI_BASE_MAX) in
      let result := Z.shiftr result (8 * sizeof_BBI_BASE_TYPE) in
      mul_inner n' src w_mult tv (p_tval - 1) result
  end.

(** The outer loop: the words of the shorter operand [mult], from its last
    word ([m] words are left); [i] counts the passes from 1. *)
Fixpoint mul_outer (m : nat) (mult src : list Z) (this_length : Z)
    (tv : list Z) (tv_length : Z) (i : Z) : list Z :=
  match m with
  | O => tv
  | S m' =>
      let p_tval := tv_length - i in
      let tv := mul_inner (Z.to_nat this_length) src
                  (load_word mult (Z.of_nat m')) tv p_tval 0 in
      mul_outer m' mult src this_length tv tv_length (i + 1)
  end.

(** [operator *(const bigbigint &)]. *)
Definition operator_mul (this multiplier : bigbigint) : bigbigint :=
  let tVal := _constructor (_length this + _length multiplier) in
  let tVal := operator_assign_int tVal 0 in
  let '(src, this_length, mult, mult_length) :=
    if _length this >=? _length multiplier
    then (_first_byte this, _length this,
          _first_byte multiplier, _length multiplier)
    else (_first_byte multiplier, _length multiplier,
          _first_byte this, _length this) in
  let tVal :=
    set_bytes tVal
      (mul_outer (Z.to_nat mult_length) mult src this_length
                 (_first_byte tVal) (_length tVal) 1) in
  if (IS_NEGATIVE (_flags this) && negb (IS_NEGATIVE (_flags multiplier)))
     || (negb (IS_NEGATIVE (_flags this)) && IS_NEGATIVE (_flags multiplier))
  then set_flags tVal (Z.lor (_flags tVal) BBI_NEGATIVE)
  else tVal.

(** [MULTIPLY_EQ_OPERATOR_MEMBER_FUNCTION(bigbigint)]: [operator *=], whose
    body is [*this = *this + PlusVal; return *this;]. *)
Definition operator_mul_assign (fuel : nat) (this PlusVal : bigbigint)
    : outcome bigbigint :=
  '(this, s) <- operator_plus fuel this PlusVal ;;
  Ret (operator_assign this s).

(** ** Comparison *)

(** The value of [comp_result] the bigbigint comparisons share: the shorter
    operand is assigned to a temporary of the longer one's length, and the
    buffers are handed to [memcmp]. *)
Definition comp_result (this CompVal : bigbigint) : Z :=
  if _length CompVal >? _length this then
    let tVal := _constructor (_length CompVal) in
    let tVal := operator_assign tVal this in
    memcmp (_first_byte tVal) (_first_byte CompVal) (Z.to_nat (_num_bytes CompVal))
  else if _length this >? _length CompVal then
    let tVal := _constructor (_length this) in
    let tVal := operator_assign tVal CompVal in
    memcmp (_first_byte this) (_first_byte tVal) (Z.to_nat (_num_bytes tVal))
  else
    memcmp (_first_byte this) (_first_byte CompVal) (Z.to_nat (_num_bytes CompVal)).

(** [operator >(bigbigint)], [operator <(bigbigint)], [operator ==(bigbigint)]. *)
Definition operator_gt (this CompVal : bigbigint) : bool :=
  comp_result this CompVal >? 0.

Definition operator_lt (this CompVal : bigbigint) : bool :=
  comp_result this CompVal <? 0.

Definition operator_eq (this CompVal : bigbigint) : bool :=
  comp_result this CompVal =? 0.

(** [EQUALITY_OPERATOR_MEMBER_FUNCTION(int)]: [operator ==(int)]. *)
Definition operator_eq_int (this : bigbigint) (CompVal : Z) : bool :=
  let tVal := _constructor (_length this) in
  let tVal := operator_assign_int tVal CompVal in
  memcmp (_first_byte this) (_first_byte tVal) (Z.to_nat (_num_bytes tVal)) =? 0.

(** [LESS_THAN_OPERATOR_MEMBER_FUNCTION(int)]: [operator <(int)]. *)
Definition operator_lt_int (this : bigbigint) (CompVal : Z) : bool :=
  if CompVal =? 0 then IS_NEGATIVE (_flags this)
  else
    let tVal := _constructor (_length this) in
    let tVal := operator_assign_int tVal CompVal in
    memcmp (_first_byte this) (_first_byte tVal) (Z.to_nat (_num_bytes tVal)) <? 0.

(** ** Shifts *)

(** [shift_value = Shift-1 % 8;]: [%] binds tighter than [-], so this is
    [Shift - (1 % 8)], computed in [unsigned long] and stored in an [int]. *)
Definition shift_value_of (Shift : Z) : Z :=
  to_signed INT_BITS (to_unsigned ULONG_BITS (Shift - 1 mod 8)).

(** The loop of [operator <<]: [p_load] and [p_store] are offsets of the
    two pointers from the first byte of their buffers. *)
Fixpoint shl_loop (fuel : nat) (src : list Z) (p_last_byte shift_value : Z)
    (tv : list Z) (p_store p_load : Z) : outcome (list Z) :=
  match fuel with
  | O => OutOfFuel
  | S fuel' =>
      if p_load <=? p_last_byte then
        match load_byte src p_load with
        | None => Fault
        | Some b =>
            let curr_byte := to_unsigned ULONG_BITS (Z.shiftl b 8) in
            match (if p_load <? p_last_byte
                   then option_map (Z.lor curr_byte) (load_byte src (p_load + 1))
                   else Some curr_byte) with
            | None => Fault
            | Some curr_byte =>
                if (shift_value <? 0) || (ULONG_BITS <=? shift_value) then Fault
                else
                  let curr_byte :=
                    to_unsigned ULONG_BITS (Z.shiftl curr_byte shift_value) in
                  let curr_byte := Z.shiftr curr_byte 8 in
                  match store_byte tv p_store (Z.land curr_byte 0xFF) with
                  | None => Fault
                  | Some tv =>
                      shl_loop fuel' src p_last_byte shift_value tv
                               (p_store + 1) (p_load + 1)
                  end
            end
        end
      else Ret tv
  end.

(** [operator <<(unsigned long)]. *)
Definition operator_shl (fuel : nat) (this : bigbigint) (Shift : Z)
    : outcome bigbigint :=
  let tVal := _constructor (_length this) in
  let tVal := operator_assign_int tVal 0 in
  let offset := Shift / 8 in
  let shift_value := shift_value_of Shift in
  if shift_value =? 0 then
    if offset <=? _num_bytes this then
      Ret (set_bytes tVal
             (memcpy (_first_byte tVal) 0 (_first_byte this) offset
                     (_num_bytes this - offset)))
    else Fault
  else
    let p_last_byte := _num_bytes this - 1 in
    bs <- shl_loop fuel (_first_byte this) p_last_byte shift_value
                   (_first_byte tVal) 0 offset ;;
    Ret (set_bytes tVal bs).

(** The loop of [operator >>]; [curr_byte] lives across the iterations. *)
Fixpoint shr_loop (fuel : nat) (src : list Z) (p_last_byte shift_value : Z)
    (tv : list Z) (p_store p_load curr_byte : Z) : outcome (list Z) :=
  match fuel with
  | O => OutOfFuel
  | S fuel' =>
      if p_load <=? p_last_byte then
        match (if p_load =? 0 then Some 0
               else option_map
                      (fun b => to_unsigned ULONG_BITS
                                  (Z.shiftl (Z.lor curr_byte b) 8))
                      (load_byte src (p_load - 1))),
              load_byte src p_load with
        | Some curr_byte, Some b =>
            let curr_byte := Z.lor curr_byte b in
            if (shift_value <? 0) || (ULONG_BITS <=? shift_value) then Fault
            else
              let curr_byte := Z.shiftr curr_byte shift_value in
              match store_byte tv p_store (Z.land curr_byte 0xFF) with
              | None => Fault
              | Some tv =>
                  shr_loop fuel' src p_last_byte shift_value tv
                           (p_store + 1) (p_load + 1) curr_byte
              end
        | _, _ => Fault
        end
      else Ret tv
  end.

(** [operator >>(unsigned long)]. *)
Definition operator_shr (fuel : nat) (this : bigbigint) (Shift : Z)
    : outcome bigbigint :=
  let tVal := _constructor (_length this) in
  let tVal := operator_assign_int tVal 0 in
  let offset := Shift / 8 in
  let shift_value := shift_value_of Shift in
  if shift_value =? 0 then
    if offset <=? _num_bytes this then
      Ret (set_bytes tVal
             (memcpy (_first_byte tVal) offset (_first_byte this) 0
                     (_num_bytes this - offset)))
    else Fault
  else
    let p_last_byte := (_num_bytes this - offset) - 1 in
    bs <- shr_loop fuel (_first_byte this) p_last_byte shift_value
                   (_first_byte tVal) offset 0 0 ;;
    Ret (set_bytes tVal bs).

(** [LEFT_SHIFT_OPERATOR_MEMBER_FUNCTION(int)]: [operator <<(int)]. *)
Definition operator_shl_int (fuel : nat) (this : bigbigint) (Shift : Z)
    : outcome bigbigint :=
  if Shift <? 0 then operator_shr fuel this (to_unsigned ULONG_BITS (0 - Shift))
  else operator_shl fuel this (to_unsigned ULONG_BITS Shift).

(** [LEFT_SHIFT_EQUAL_OPERATOR_MEMBER_FUNCTION(int)]: [operator <<=(int)]. *)
Definition operator_shl_assign_int (fuel : nat) (this : bigbigint) (Shift : Z)
    : outcome bigbigint :=
  s <- operator_shl_int fuel this Shift ;;
  Ret (operator_assign this s).

(** ** Bitwise or *)

(** The loop of [operator |]: [for(i = 0; tVal._num_bytes; i++)].  Its test
    is the byte count of [tVal], not a bound on [i]. *)
Fixpoint or_loop (fuel : nat) (this OrVal : list Z) (tVal : bigbigint) (i : Z)
    : outcome bigbigint :=
  match fuel with
  | O => OutOfFuel
  | S fuel' =>
      if negb (_num_bytes tVal =? 0) then
        match load_byte this i, load_byte OrVal i with
        | Some x, Some y =>
            match store_byte (_first_byte tVal) i (Z.lor x y) with
            | Some bs => or_loop fuel' this OrVal (set_bytes tVal bs) (i + 1)
            | None => Fault
            end
        | _, _ => Fault
        end
      else Ret tVal
  end.

(** [operator |(bigbigint)]. *)
Definition operator_or (fuel : nat) (this OrVal : bigbigint) : outcome bigbigint :=
  let tVal := _constructor (_length this) in
  let tVal := operator_assign_int tVal 0 in
  or_loop fuel (_first_byte this) (_first_byte OrVal) tVal 0.

(** [BIT_OR_OPERATOR_MEMBER_FUNCTION]: [operator |(int)] and
    [operator |(unsigned int)]. *)
Definition operator_or_prim (is_signed : bool) (fuel : nat)
    (this : bigbigint) (OrVal : Z) : outcome bigbigint :=
  let tVal := _constructor (_length this) in
  let tVal := ASSIGN_OP_BODY_INT_TYPES 4 is_signed tVal OrVal in
  operator_or fuel this tVal.

(** [BIT_OR_EQ_OPERATOR_MEMBER_FUNCTION]: [operator |=(int)] and
    [operator |=(unsigned int)]. *)
Definition operator_or_assign_prim (is_signed : bool) (fuel : nat)
    (this : bigbigint) (OrVal : Z) : outcome bigbigint :=
  r <- operator_or_prim is_signed fuel this OrVal ;;
  Ret (operator_assign this r).

(** ** Division *)

(** The first loop of [_perform_integral_division]: the dividend is shifted
    left until the top bit of its first byte is set. *)
Fixpoint skip_zero_bits (fuel : nat) (dividend : bigbigint)
    (next_bit num_bits num_bytes : Z) : outcome (bigbigint * Z * Z) :=
  match fuel with
  | O => OutOfFuel
  | S fuel' =>
      if next_bit =? 0 then
        s <- operator_shl_int fuel' dividend 1 ;;
        let dividend := operator_assign dividend s in
        match load_byte (_first_byte dividend) 0 with
        | None => Fault
        | Some b =>
            let next_bit := Z.land b 0x80 in
            let num_bits := num_bits + 1 in
            let '(num_bits, num_bytes) :=
              if num_bits =? 8 then (0, num_bytes + 1)
              else (num_bits, num_bytes) in
            skip_zero_bits fuel' dividend next_bit num_bits num_bytes
        end
      else Ret (dividend, num_bits, num_bytes)
  end.

(** The second loop: one bit of the dividend per pass. *)
Fixpoint div_loop (fuel : nat)
    (dividend divisor quotient remainder sub_val : bigbigint)
    (num_bits num_bytes : Z) : outcome (bigbigint * bigbigint) :=
  match fuel with
  | O => OutOfFuel
  | S fuel' =>
      if num_bytes <? _num_bytes dividend then
        match load_byte (_first_byte dividend) 0 with
        | None => Fault
        | Some b =>
            let next_bit := Z.shiftr (Z.land b 0x80) 8 in
            remainder <- operator_shl_assign_int fuel' remainder 1 ;;
            remainder <- operator_or_assign_prim false fuel' remainder next_bit ;;
            '(remainder, d) <- operator_minus fuel' remainder divisor ;;
            let sub_val := operator_assign sub_val d in
            dividend <- operator_shl_assign_int fuel' dividend 1 ;;
            quotient <- operator_shl_assign_int fuel' quotient 1 ;;
            '(quotient, remainder) <-
              (if operator_lt_int sub_val 0 then
                 quotient <- operator_or_assign_prim true fuel' quotient 1 ;;
                 Ret (quotient, operator_assign remainder sub_val)
               else Ret (quotient, remainder)) ;;
            match load_byte (_first_byte quotient) 0 with
            | None => Fault
            | Some q0 =>
                let quotient :=
                  if negb (Z.land q0 0x80 =? 0)
                  then _upsize quotient (_length quotient + 1)
                  else quotient in
                let num_bits := num_bits + 1 in
                let '(num_bits, num_bytes) :=
                  if num_bits =? 8 then (0, num_bytes + 1)
                  else (num_bits, num_bytes) in
                div_loop fuel' dividend divisor quotient remainder sub_val
                         num_bits num_bytes
            end
        end
      else Ret (quotient, remainder)
  end.

(** [_perform_integral_division]: the pair returned is the objects behind
    the pointers [quotient] and [remainder] when the function returns. *)
Definition _perform_integral_division (fuel : nat)
    (dividend divisor quotient remainder : bigbigint)
    : outcome (bigbigint * bigbigint) :=
  let sub_val := _constructor 0 in
  let remainder := operator_assign_int remainder 0 in
  let quotient := operator_assign_int quotient 0 in
  if operator_eq_int divisor 0 then Exit 199
  else if operator_gt divisor dividend then
    Ret (quotient, operator_assign remainder dividend)
  else if operator_eq divisor dividend then
    Ret (operator_assign_int quotient 1, remainder)
  else if operator_eq_int dividend 1 then
    Ret (operator_assign quotient dividend, remainder)
  else if operator_eq_int dividend 0 then
    Ret (quotient, remainder)
  else
    match load_byte (_first_byte dividend) 0 with
    | None => Fault
    | Some b =>
        '(dividend, num_bits, num_bytes) <-
          skip_zero_bits fuel dividend (Z.land b 0x80) 0 0 ;;
        div_loop fuel dividend divisor quotient remainder sub_val
                 num_bits num_bytes
    end.

(** [operator /(bigbigint)]. *)
Definition operator_div (fuel : nat) (this divisor : bigbigint)
    : outcome bigbigint :=
  let tQuot := _constructor 0 in
  let tRem := _constructor 0 in
  '(tQuot, _) <- _perform_integral_division fuel this divisor tQuot tRem ;;
  Ret tQuot.

(** ** div_play.cpp: division of machine integers *)

Definition UINT_BITS : Z := 32.

(** The top bit of an [unsigned int], as [(x & 0x80000000) >> 31]. *)
Definition top_bit (x : Z) : Z := Z.shiftr (Z.land x 0x80000000) 31.

(** The first loop of [unsigned_divide]: bits of the dividend are shifted
    into [*remainder] until it reaches the divisor.  [d] is not initialised
    before the loop. *)
Fixpoint align_loop (fuel : nat) (dividend divisor remainder : Z)
    (d : option Z) (num_bits : Z) : outcome (Z * Z * option Z * Z) :=
  match fuel with
  | O => OutOfFuel
  | S fuel' =>
      if remainder <? divisor then
        let bit := top_bit dividend in
        let remainder :=
          Z.lor (to_unsigned UINT_BITS (Z.shiftl remainder 1)) bit in
        let bit := if bit =? 1 then 1 else bit in
        let d := Some dividend in
        let dividend := to_unsigned UINT_BITS (Z.shiftl dividend 1) in
        let num_bits := to_unsigned UINT_BITS (num_bits - 1) in
        align_loop fuel' dividend divisor remainder d num_bits
      else Ret (dividend, remainder, d, num_bits)
  end.

(** The [for] loop of [unsigned_divide], [n] passes. *)
Fixpoint subtract_loop (n : nat) (dividend divisor quotient remainder : Z)
    : Z * Z :=
  match n with
  | O => (quotient, remainder)
  | S n' =>
      let bit := top_bit dividend in
      let remainder :=
        Z.lor (to_unsigned UINT_BITS (Z.shiftl remainder 1)) bit in
      let t := to_unsigned UINT_BITS (remainder - divisor) in
      let q := if top_bit t =? 0 then 1 else 0 in
      let dividend := to_unsigned UINT_BITS (Z.shiftl dividend 1) in
      let quotient :=
        Z.lor (to_unsigned UINT_BITS (Z.shiftl quotient 1)) q in
      let remainder := if negb (q =? 0) then t else remainder in
      subtract_loop n' dividend divisor quotient remainder
  end.

(** [unsigned_divide]: the pair returned is [*quotient] and [*remainder]
    when the function returns. *)
Definition unsigned_divide (fuel : nat) (dividend divisor : Z)
    : outcome (Z * Z) :=
  let remainder := 0 in
  let quotient := 0 in
  if divisor =? 0 then Ret (quotient, remainder)
  else if divisor >? dividend then Ret (quotient, dividend)
  else if divisor =? dividend then Ret (1, remainder)
  else
    let num_bits := 32 in
    '(dividend, remainder, d, num_bits) <-
      align_loop fuel dividend divisor remainder None num_bits ;;
    match d with
    | None => Fault
    | Some d =>
        let dividend := d in
        let remainder := Z.shiftr remainder 1 in
        let num_bits := to_unsigned UINT_BITS (num_bits + 1) in
        Ret (subtract_loop (Z.to_nat num_bits) dividend divisor
                           quotient remainder)
    end.

(** [ABS] on an [int]. *)
Definition ABS (x : Z) : Z := if x <? 0 then to_signed INT_BITS (- x) else x.

(** [signed_divide]. *)
Definition signed_divide (fuel : nat) (dividend divisor : Z)
    : outcome (Z * Z) :=
  let dend := to_unsigned UINT_BITS (ABS dividend) in
  let dor := to_unsigned UINT_BITS (ABS divisor) in
  '(q, r) <- unsigned_divide fuel dend dor ;;
  let quotient := to_signed INT_BITS q in
  if dividend <? 0 then
    let remainder := to_signed INT_BITS (- to_signed INT_BITS r) in
    let quotient :=
      if divisor >? 0 then to_signed INT_BITS (- to_signed INT_BITS q)
      else quotient in
    Ret (quotient, remainder)
  else
    let remainder := to_signed INT_BITS r in
    let quotient :=
      if divisor <? 0 then to_signed INT_BITS (- to_signed INT_BITS q)
      else quotient in
    Ret (quotient, remainder).

(** ** Comparison with the other relations and with primitive operands *)

(** [operator >=(bigbigint)], [operator <=(bigbigint)],
    [operator !=(bigbigint)]. *)
Definition operator_ge (this CompVal : bigbigint) : bool :=
  comp_result this CompVal >=? 0.

Definition operator_le (this CompVal : bigbigint) : bool :=
  comp_result this CompVal <=? 0.

Definition operator_ne (this CompVal : bigbigint) : bool :=
  negb (comp_result this CompVal =? 0).

(** The conversion of an argument to the integral type of [sz] bytes. *)
Definition wrap_to (sz : Z) (is_signed : bool) : Z -> Z :=
  if is_signed then to_signed (8 * sz) else to_unsigned (8 * sz).

(** The block the member comparisons with a primitive operand share:
    [bigbigint tVal(this->_length); tVal = CompVal;] and the [memcmp]. *)
Definition comp_result_prim (sz : Z) (is_signed : bool)
    (this : bigbigint) (CompVal : Z) : Z :=
  let tVal := _constructor (_length this) in
  let tVal := ASSIGN_OP_BODY_INT_TYPES sz is_signed tVal CompVal in
  memcmp (_first_byte this) (_first_byte tVal) (Z.to_nat (_num_bytes tVal)).

(** The member comparison macros, for an integral type of [sz] bytes. *)
Definition GREATER_THAN_OPERATOR_MEMBER_FUNCTION (sz : Z) (is_signed : bool)
    (this : bigbigint) (CompVal : Z) : bool :=
  let CompVal := wrap_to sz is_signed CompVal in
  if (CompVal <? 0) && negb (IS_NEGATIVE (_flags this)) then true
  else comp_result_prim sz is_signed this CompVal >? 0.

Definition GREATER_THAN_EQ_OPERATOR_MEMBER_FUNCTION (sz : Z) (is_signed : bool)
    (this : bigbigint) (CompVal : Z) : bool :=
  let CompVal := wrap_to sz is_signed CompVal in
  if (CompVal =? 0) && negb (IS_NEGATIVE (_flags this)) then true
  else comp_result_prim sz is_signed this CompVal >=? 0.

Definition LESS_THAN_OPERATOR_MEMBER_FUNCTION (sz : Z) (is_signed : bool)
    (this : bigbigint) (CompVal : Z) : bool :=
  let CompVal := wrap_to sz is_signed CompVal in
  if CompVal =? 0 then IS_NEGATIVE (_flags this)
  else comp_result_prim sz is_signed this CompVal <? 0.

Definition LESS_THAN_EQ_OPERATOR_MEMBER_FUNCTION (sz : Z) (is_signed : bool)
    (this : bigbigint) (CompVal : Z) : bool :=
  let CompVal := wrap_to sz is_signed CompVal in
  if (CompVal =? 0) && IS_NEGATIVE (_flags this) then true
  else comp_result_prim sz is_signed this CompVal <=? 0.

Definition EQUALITY_OPERATOR_MEMBER_FUNCTION (sz : Z) (is_signed : bool)
    (this : bigbigint) (CompVal : Z) : bool :=
  let CompVal := wrap_to sz is_signed CompVal in
  comp_result_prim sz is_signed this CompVal =? 0.

Definition NON_EQUALITY_OPERATOR_MEMBER_FUNCTION (sz : Z) (is_signed : bool)
    (this : bigbigint) (CompVal : Z) : bool :=
  let CompVal := wrap_to sz is_signed CompVal in
  negb (comp_result_prim sz is_signed this CompVal =? 0).

(** The non-member comparisons, [CompVal] on the left:
    [operator >(const T &CompVal, bigbigint &this_value)] returns
    [this_value <= CompVal], and so on. *)
Definition GREATER_THAN_OPERATOR_NON_MEMBER_FUNCTION (sz : Z) (is_signed : bool)
    (CompVal : Z) (this_value : bigbigint) : bool :=
  LESS_THAN_EQ_OPERATOR_MEMBER_FUNCTION sz is_signed this_value CompVal.

Definition GREATER_THAN_EQ_OPERATOR_NON_MEMBER_FUNCTION (sz : Z)
    (is_signed : bool) (CompVal : Z) (this_value : bigbigint) : bool :=
  LESS_THAN_OPERATOR_MEMBER_FUNCTION sz is_signed this_value CompVal.

Definition LESS_THAN_OPERATOR_NON_MEMBER_FUNCTION (sz : Z) (is_signed : bool)
    (CompVal : Z) (this_value : bigbigint) : bool :=
  GREATER_THAN_EQ_OPERATOR_MEMBER_FUNCTION sz is_signed this_value CompVal.

Definition LESS_THAN_EQ_OPERATOR_NON_MEMBER_FUNCTION (sz : Z) (is_signed : bool)
    (CompVal : Z) (this_value : bigbigint) : bool :=
  GREATER_THAN_OPERATOR_MEMBER_FUNCTION sz is_signed this_value CompVal.

Definition EQUALITY_OPERATOR_NON_MEMBER_FUNCTION (sz : Z) (is_signed : bool)
    (CompVal : Z) (this_value : bigbigint) : bool :=
  EQUALITY_OPERATOR_MEMBER_FUNCTION sz is_signed this_value CompVal.

Definition NON_EQUALITY_OPERATOR_NON_MEMBER_FUNCTION (sz : Z) (is_signed : bool)
    (CompVal : Z) (this_value : bigbigint) : bool :=
  NON_EQUALITY_OPERATOR_MEMBER_FUNCTION sz is_signed this_value CompVal.

(** ** Right shift and division by a primitive operand *)

(** [RIGHT_SHIFT_OPERATOR_MEMBER_FUNCTION(int)]: [operator >>(int)]. *)
Definition operator_shr_int (fuel : nat) (this : bigbigint) (Shift : Z)
    : outcome bigbigint :=
  if Shift <? 0 then operator_shl fuel this (to_unsigned ULONG_BITS (0 - Shift))
  else operator_shr fuel this (to_unsigned ULONG_BITS Shift).

(** [RIGHT_SHIFT_EQ_OPERATOR_MEMBER_FUNCTION(int)]: [operator >>=(int)]. *)
Definition operator_shr_assign_int (fuel : nat) (this : bigbigint) (Shift : Z)
    : outcome bigbigint :=
  s <- operator_shr_int fuel this Shift ;;
  Ret (operator_assign this s).

(** [BBI_DIVISION_SHIFT_SHORTCUT]: the count of the shift the [switch]
    returns for the divisor [var], or [None] in the [default] case. *)
Definition BBI_DIVISION_SHIFT_SHORTCUT (var : Z) : option Z :=
  match var with
  | 2 => Some 1
  | 4 => Some 2
  | 8 => Some 3
  | 16 => Some 4
  | 32 => Some 5
  | 64 => Some 6
  | 128 => Some 7
  | 256 => Some 8
  | 512 => Some 9
  | 1024 => Some 10
  | 2048 => Some 11
  | 4096 => Some 12
  | _ => None
  end.

(** [DIVIDE_OPERATOR_MEMBER_FUNCTION], for an integral type of [sz] bytes:
    [operator /(int)] and the like. *)
Definition DIVIDE_OPERATOR_MEMBER_FUNCTION (sz : Z) (is_signed : bool)
    (fuel : nat) (this : bigbigint) (divisor : Z) : outcome bigbigint :=
  let divisor := wrap_to sz is_signed divisor in
  match BBI_DIVISION_SHIFT_SHORTCUT divisor with
  | Some k => operator_shr_int fuel this k
  | None =>
      let tVal := _constructor (_length this) in
      let tVal := ASSIGN_OP_BODY_INT_TYPES sz is_signed tVal divisor in
      operator_div fuel this tVal
  end.

(** [DIVIDE_EQ_OPERATOR_MEMBER_FUNCTION]: [operator /=(int)] and the like. *)
Definition DIVIDE_EQ_OPERATOR_MEMBER_FUNCTION (sz : Z) (is_signed : bool)
    (fuel : nat) (this : bigbigint) (divisor : Z) : outcome bigbigint :=
  q <- DIVIDE_OPERATOR_MEMBER_FUNCTION sz is_signed fuel this divisor ;;
  Ret (operator_assign this q).

(** ** Arithmetic with a primitive operand *)

(** The native bytes of a value of a type of [sz] bytes: what the pointer
    [(void* )&PlusVal] of the operator macros points to. *)
Definition prim_bytes (sz : Z) (v : Z) : list Z :=
  le_bytes (Z.to_nat sz) (to_unsigned (8 * sz) v).

(** The test [*((char* )var + (size-1)) >= 0]; [char] is signed. *)
Definition top_char_nonneg (var : list Z) (size : Z) : option bool :=
  option_map (fun b => 0 <=? to_signed 8 b) (load_byte var (size - 1)).

(** A signed variable of [width] bytes set to [init], after
    [memcpy(&variable, src, size)].  A copy longer than the variable or
    than the source leaves the buffers. *)
Definition memcpy_into (width init : Z) (src : list Z) (size : Z) : option Z :=
  if (size <=? width) && (size <=? Z.of_nat (length src)) then
    Some (to_signed (8 * width)
            (le_combine
               (memcpy (le_bytes (Z.to_nat width) (to_unsigned (8 * width) init))
                       0 src 0 size)))
  else None.

(** The head the three [_perform_integral_] functions share: the operand
    behind [var] is copied into a variable of [width] bytes, over 0 when its
    top byte is not negative or the type is unsigned, over -1 otherwise.
    The result is the branch taken (the first one or not) and the variable. *)
Definition widen (width : Z) (var : list Z) (size : Z) (is_signed : bool)
    : option (bool * Z) :=
  match top_char_nonneg var size with
  | None => None
  | Some nonneg =>
      let first := nonneg || negb is_signed in
      option_map (pair first)
        (memcpy_into width (if first then 0 else -1) var size)
  end.

(** The loop of [_perform_integral_adding].  [xs] are the bytes of the
    bigbigint and [ys] the bytes of [add_value], last byte first.  Once
    [p_plus_val] has left [add_value], a carry that is not zero makes the
    loop read through that pointer; the carry is moved by
    [result >>= sizeof(char)]. *)
Fixpoint add_prim_bytes (xs ys : list Z) (result : Z) : outcome (list Z * Z) :=
  match xs with
  | [] => Ret ([], result)
  | x :: xs' =>
      match ys with
      | y :: ys' =>
          let result := result + (x + y) in
          let out := Z.land result UCHAR_MAX in
          let result := if result >? UCHAR_MAX then Z.shiftr result 1 else 0 in
          '(outs, result) <- add_prim_bytes xs' ys' result ;;
          Ret (out :: outs, result)
      | [] =>
          if result =? 0 then Ret ([], result)
          else Fault
      end
  end.

(** [_perform_integral_adding]. *)
Definition _perform_integral_adding (menuend : bigbigint)
    (plus_var : list Z) (plus_size : Z) (is_signed : bool)
    : outcome bigbigint :=
  let tVal := _constructor (_length menuend) in
  let tVal := operator_assign tVal menuend in
  match widen 8 plus_var plus_size is_signed with
  | None => Fault
  | Some (first, add_value) =>
      let add_value :=
        if first then add_value else to_signed D_LONG_BITS (0 - add_value) in
      let add_value :=
        REVERSE_BYTE_ORDER 8 (to_unsigned D_LONG_BITS add_value) in
      '(outs, result) <-
        add_prim_bytes (rev (_first_byte menuend))
                       (rev (le_bytes 8 add_value)) 0 ;;
      let tVal := set_bytes tVal (store_tail (_first_byte tVal) outs) in
      if result >? 0 then
        let tVal := _upsize tVal (_length tVal + 1) in
        match store_byte (_first_byte tVal) (sizeof_BBI_BASE_TYPE - 1)
                         (Z.land result UCHAR_MAX) with
        | Some bs => Ret (set_bytes tVal bs)
        | None => Fault
        end
      else Ret tVal
  end.

(** [ADD_OPERATOR_MEMBER_FUNCTION]: [operator +(int)] and the like, for an
    integral type of [sz] bytes. *)
Definition ADD_OPERATOR_MEMBER_FUNCTION (sz : Z) (is_signed : bool)
    (this : bigbigint) (PlusVal : Z) : outcome bigbigint :=
  _perform_integral_adding this (prim_bytes sz PlusVal) sz is_signed.

(** [ADD_OPERATOR_NON_MEMBER_FUNCTION]: [T + bigbigint]. *)
Definition ADD_OPERATOR_NON_MEMBER_FUNCTION (sz : Z) (is_signed : bool)
    (PlusVal : Z) (ValB : bigbigint) : outcome bigbigint :=
  _perform_integral_adding ValB (prim_bytes sz PlusVal) sz is_signed.

(** [PLUS_EQ_OPERATOR_MEMBER_FUNCTION] for a primitive type:
    [operator +=(int)] and the like. *)
Definition PLUS_EQ_OPERATOR_MEMBER_FUNCTION (sz : Z) (is_signed : bool)
    (this : bigbigint) (PlusVal : Z) : outcome bigbigint :=
  s <- ADD_OPERATOR_MEMBER_FUNCTION sz is_signed this PlusVal ;;
  Ret (operator_assign this s).

(** [operator ++()] and [operator ++(int)]: both are
    [*this = *this + 1; return *this;]. *)
Definition operator_inc (this : bigbigint) : outcome bigbigint :=
  s <- ADD_OPERATOR_MEMBER_FUNCTION 4 true this 1 ;;
  Ret (operator_assign this s).

(** A [BBI_BASE_TYPE] read from or written to word [k] of a buffer that
    may not have such a word. *)
Definition load_word_opt (bs : list Z) (k : Z) : option Z :=
  if (0 <=? k) && (4 * k + 4 <=? Z.of_nat (length bs))
  then Some (load_word bs k) else None.

Definition store_word_opt (bs : list Z) (k v : Z) : option (list Z) :=
  if (0 <=? k) && (4 * k + 4 <=? Z.of_nat (length bs))
  then Some (store_word bs k v) else None.

(** The inner loop of [_perform_integral_multiplication]: word [p_mult] of
    [mul_value] against the words of the multiplicand [src]. *)
Fixpoint mul_prim_inner (n : nat) (src mul_value : list Z) (p_mult : Z)
    (tv : list Z) (p_tval : Z) (result : Z) : outcome (list Z) :=
  match n with
  | O => Ret tv
  | S n' =>
      match load_word_opt mul_value p_mult,
            load_word_opt src (Z.of_nat n'),
            load_word_opt tv p_tval with
      | Some w_mult, Some w_this, Some w_tval =>
          let byte_1 := REVERSE_BYTE_ORDER 4 w_mult in
          let byte_2 := REVERSE_BYTE_ORDER 4 w_this in
          let result := to_unsigned D_LONG_BITS (result + byte_1 * byte_2) in
          let result := to_unsigned D_LONG_BITS (result + w_tval) in
          match store_word_opt tv p_tval (Z.land result BBI_BASE_MAX) with
          | Some tv =>
              let result := Z.shiftr result (8 * sizeof_BBI_BASE_TYPE) in
              mul_prim_inner n' src mul_value p_mult tv (p_tval - 1) result
          | None => Fault
          end
      | _, _, _ => Fault
      end
  end.

(** The outer loop: [p_mult] starts at
    [((BBI_BASE_TYPE* )&mul_value) + (sizeof(mul_value) - 1)], word 7, and
    walks down to word 0; [m] words are left. *)
Fixpoint mul_prim_outer (m : nat) (mul_value src : list Z) (this_length : Z)
    (tv : list Z) (tv_length : Z) (i : Z) : outcome (list Z) :=
  match m with
  | O => Ret tv
  | S m' =>
      let p_tval := tv_length - i in
      tv <- mul_prim_inner (Z.to_nat this_length) src mul_value (Z.of_nat m')
                           tv p_tval 0 ;;
      mul_prim_outer m' mul_value src this_length tv tv_length (i + 1)
  end.

(** [_perform_integral_multiplication]. *)
Definition _perform_integral_multiplication (multiplicand : bigbigint)
    (multiplier : list Z) (mult_size : Z) (is_signed : bool)
    : outcome bigbigint :=
  let tVal := _constructor (_length multiplicand + 1) in
  let tVal := operator_assign_int tVal 0 in
  match widen 8 multiplier mult_size is_signed with
  | None => Fault
  | Some (first, mul_value) =>
      let tVal :=
        if first then
          if IS_NEGATIVE (_flags multiplicand)
          then set_flags tVal (Z.lor (_flags tVal) BBI_NEGATIVE) else tVal
        else
          if negb (IS_NEGATIVE (_flags multiplicand))
          then set_flags tVal (Z.lor (_flags tVal) BBI_NEGATIVE) else tVal in
      let mul_value :=
        if first then mul_value else to_signed D_LONG_BITS (0 - mul_value) in
      if mul_value =? 1 then
        let save_flags := _flags tVal in
        let tVal := operator_assign tVal multiplicand in
        Ret (set_flags tVal save_flags)
      else if mul_value =? 0 then Ret tVal
      else
        bs <- mul_prim_outer 8 (le_bytes 8 (to_unsigned D_LONG_BITS mul_value))
                (_first_byte multiplicand) (_length multiplicand)
                (_first_byte tVal) (_length tVal) 1 ;;
        Ret (set_bytes tVal bs)
  end.

(** [MULTIPLY_OPERATOR_MEMBER_FUNCTION]: [operator *(int)] and the like. *)
Definition MULTIPLY_OPERATOR_MEMBER_FUNCTION (sz : Z) (is_signed : bool)
    (this : bigbigint) (Multiplier : Z) : outcome bigbigint :=
  _perform_integral_multiplication this (prim_bytes sz Multiplier) sz is_signed.

(** ** Subtraction of a primitive operand *)

(** Steps 1 to 3 of a subtraction, the same text in [operator -(bigbigint)]
    and in [_perform_integral_subtraction]: [tVal] holds the subtrahend and
    the flags of the minuend; its complement is added to the minuend byte by
    byte, as long as both pointers are inside their buffers; a carry is
    added back, and without one the result is complemented and its sign
    flipped. *)
Definition sub_steps (this tVal : bigbigint) : bigbigint :=
  let tVal := ONES_COMPLEMENT tVal in
  let '(outs, result) :=
    add_bytes (rev (_first_byte this)) (rev (_first_byte tVal)) 0 in
  let tVal := set_bytes tVal (store_tail (_first_byte tVal) outs) in
  if result <=? 0 then
    let tVal := ONES_COMPLEMENT tVal in
    if IS_NEGATIVE (_flags tVal)
    then set_flags tVal (Z.land (_flags tVal) (Z.lnot BBI_NEGATIVE))
    else set_flags tVal (Z.lor (_flags tVal) BBI_NEGATIVE)
  else
    set_bytes tVal (rev (add_carry (rev (_first_byte tVal)) result)).

(** [_perform_integral_subtraction].  The operand is widened into the
    [long sub_value]; the result object is constructed with
    [MAX(this_val->_num_bytes, sub_size)] words.  The sums go through
    [operator +(long)], and [(-sub_value) - (-*this_val)] through the
    non-member [operator -(const long &, bigbigint &)], which calls this
    function again; [fuel] bounds the depth of these calls. *)
Fixpoint _perform_integral_subtraction (fuel : nat) (this_val : bigbigint)
    (Subtrahend : list Z) (sub_size : Z) (is_signed : bool)
    : outcome bigbigint :=
  match fuel with
  | O => OutOfFuel
  | S fuel' =>
      let tVal := _constructor (MAX (_num_bytes this_val) sub_size) in
      match widen 4 Subtrahend sub_size is_signed with
      | None => Fault
      | Some (_, sub_value) =>
          let minus_sub_value := to_signed ULONG_BITS (0 - sub_value) in
          if negb (IS_NEGATIVE (_flags this_val)) && (sub_value <? 0) then
            (* tVal = *this_val + (-sub_value); *)
            s <- ADD_OPERATOR_MEMBER_FUNCTION 4 true this_val minus_sub_value ;;
            Ret (operator_assign tVal s)
          else if IS_NEGATIVE (_flags this_val) && (sub_value <? 0) then
            (* tVal = (-sub_value) - ( -*this_val); *)
            d <- _perform_integral_subtraction fuel' (operator_neg this_val)
                   (prim_bytes 4 minus_sub_value) 4 true ;;
            Ret (operator_assign tVal d)
          else if IS_NEGATIVE (_flags this_val) && (sub_value >? 0) then
            (* tVal = *this_val + (-sub_value); *)
            s <- ADD_OPERATOR_MEMBER_FUNCTION 4 true this_val minus_sub_value ;;
            Ret (operator_assign tVal s)
          else
            let tVal := ASSIGN_OP_BODY_INT_TYPES 4 true tVal sub_value in
            let tVal := set_flags tVal (_flags this_val) in
            Ret (sub_steps this_val tVal)
      end
  end.

(** [SUBTRACT_OPERATOR_MEMBER_FUNCTION]: [operator -(int)] and the like, for
    an integral type of [sz] bytes. *)
Definition SUBTRACT_OPERATOR_MEMBER_FUNCTION (sz : Z) (is_signed : bool)
    (fuel : nat) (this : bigbigint) (Subtrahend : Z) : outcome bigbigint :=
  _perform_integral_subtraction fuel this (prim_bytes sz Subtrahend) sz is_signed.


(** [MINUS_EQUAL_OPERATOR_MEMBER_FUNCTION] for a primitive type:
    [operator -=(int)] and the like. *)
Definition MINUS_EQUAL_OPERATOR_MEMBER_FUNCTION (sz : Z) (is_signed : bool)
    (fuel : nat) (this : bigbigint) (SubVal : Z) : outcome bigbigint :=
  d <- SUBTRACT_OPERATOR_MEMBER_FUNCTION sz is_signed fuel this SubVal ;;
  Ret (operator_assign this d).


(** ** Vocabulary of the statements *)

(** The values of an integral type of [sz] bytes. *)
Definition in_type (sz : Z) (is_signed : bool) (v : Z) : Prop :=
  if is_signed then - 2 ^ (8 * sz - 1) <= v < 2 ^ (8 * sz - 1)
  else 0 <= v < 2 ^ (8 * sz).

(** The buffer without its leading zero words, and the number of words that
    are left: the significant words of the value. *)
Fixpoint strip_zero_words (bs : list Z) : list Z :=
  match bs with
  | 0 :: 0 :: 0 :: 0 :: rest => strip_zero_words rest
  | _ => bs
  end.

Definition significant_words (v : bigbigint) : Z :=
  Z.of_nat (length (strip_zero_words (_first_byte v))) / sizeof_BBI_BASE_TYPE.

(** A bigbigint holding the [int] value [v] in the default capacity, as
    [bigbigint x; x = v;] builds it. *)
Definition of_int (v : Z) : bigbigint := operator_assign_int (_constructor 0) v.

(** The same for an [unsigned D_LONG] of 8 bytes, and a chosen capacity. *)
Definition of_u64 (size v : Z) : bigbigint :=
  ASSIGN_OP_BODY_INT_TYPES 8 false (_constructor size) v.

(** The value of [result] when the byte loop of [a + b] ends: the carry that
    is left past the most significant byte the loop reached. *)
Definition carry_out (a b : bigbigint) : Z :=
  snd (add_bytes (rev (_first_byte a)) (rev (_first_byte b)) 0).

(** A buffer of zero bytes. *)
Definition all_zero (bs : list Z) : Prop := Forall (fun b => b = 0) bs.

(** The three-way result of comparing two numbers, as [memcmp] reports it. *)
Definition three_way (x y : Z) : Z :=
  match x ?= y with Lt => -1 | Eq => 0 | Gt => 1 end.

(** The bytes a left shift by [s] bits, [s] below 8, makes of the bytes
    [bs]: each byte with the bits that come up from its right neighbour. *)
Fixpoint shl_bytes (s : Z) (bs : list Z) : list Z :=
  match bs with
  | [] => []
  | b :: rest =>
      (((b * 256 + hd 0 rest) * 2 ^ s) / 256) mod 256 :: shl_bytes s rest
  end.

(** No two bytes at one place of the two numbers sum to more than a byte
    holds; the lists are the bytes last byte first. *)
Fixpoint no_byte_carry (xs ys : list Z) : bool :=
  match xs, ys with
  | x :: xs', y :: ys' => (x + y <=? UCHAR_MAX) && no_byte_carry xs' ys'
  | _, _ => true
  end.

(** The invariant of a value given by its bytes is settled by evaluation. *)
Ltac wf_by_computation :=
  unfold wf; vm_compute; repeat split; try discriminate;
  repeat constructor; discriminate.

(** * Properties *)

(** ** Lists of bytes *)

Lemma Forall_firstn_list {A : Type} (P : A -> Prop) (n : nat) (xs : list A) :
  Forall P xs -> Forall P (firstn n xs).
Proof.
  revert xs. induction n as [| n IH]; intros xs H; cbn [firstn].
  - constructor.
  - destruct H as [| x xs Hx Hxs]; constructor; auto.
Qed.

Lemma Forall_skipn_list {A : Type} (P : A -> Prop) (n : nat) (xs : list A) :
  Forall P xs -> Forall P (skipn n xs).
Proof.
  revert xs. induction n as [| n IH]; intros xs H; cbn [skipn].
  - assumption.
  - destruct H as [| x xs Hx Hxs]; [constructor | auto].
Qed.

Lemma firstn_app_exact {A : Type} (l1 l2 : list A) :
  firstn (length l1) (l1 ++ l2) = l1.
Proof.
  induction l1 as [| x l1 IH]; cbn [length app firstn].
  - destruct l2; reflexivity.
  - rewrite IH. reflexivity.
Qed.

Lemma skipn_app_exact {A : Type} (l1 l2 : list A) :
  skipn (length l1) (l1 ++ l2) = l2.
Proof. induction l1 as [| x l1 IH]; cbn [length app skipn]; auto. Qed.

Lemma all_zero_zeros (n : Z) : all_zero (zeros n).
Proof.
  unfold all_zero, zeros. induction (Z.to_nat n); simpl; constructor; auto.
Qed.

Lemma all_zero_app (xs ys : list Z) :
  all_zero xs -> all_zero ys -> all_zero (xs ++ ys).
Proof. intros Hx Hy. apply Forall_app. split; assumption. Qed.

Lemma all_zero_firstn (n : nat) (xs : list Z) :
  all_zero xs -> all_zero (firstn n xs).
Proof.
  revert xs. induction n as [| n IH]; intros xs H; simpl.
  - constructor.
  - destruct xs as [| x xs]; [constructor |].
    inversion H; subst. constructor; auto. apply IH; assumption.
Qed.

Lemma all_zero_skipn (n : nat) (xs : list Z) :
  all_zero xs -> all_zero (skipn n xs).
Proof.
  revert xs. induction n as [| n IH]; intros xs H; simpl.
  - assumption.
  - destruct xs as [| x xs]; [constructor |].
    inversion H; subst. apply IH; assumption.
Qed.

Lemma all_zero_memcpy (dst : list Z) (doff : Z) (src : list Z) (soff n : Z) :
  all_zero dst -> all_zero src -> all_zero (memcpy dst doff src soff n).
Proof.
  intros Hd Hs. unfold memcpy.
  apply all_zero_app; [apply all_zero_firstn; assumption |].
  apply all_zero_app; [| apply all_zero_skipn; assumption].
  apply all_zero_firstn, all_zero_skipn; assumption.
Qed.

Lemma all_zero_memset0 (dst : list Z) (n : Z) :
  Z.of_nat (length dst) <= n -> all_zero (memset0 dst n).
Proof.
  intros Hn. unfold memset0.
  rewrite skipn_all2 by lia. rewrite app_nil_r. apply all_zero_zeros.
Qed.

Lemma all_zero_eq_zeros (bs : list Z) :
  all_zero bs -> bs = zeros (Z.of_nat (length bs)).
Proof.
  unfold zeros. rewrite Nat2Z.id.
  induction 1 as [| b bs Hb _ IH]; cbn [length repeat]; [reflexivity |].
  cbv beta in Hb. subst b. f_equal. exact IH.
Qed.

Lemma memcmp_all_zero (a b : list Z) (n : nat) :
  all_zero a -> all_zero b -> memcmp a b n = 0.
Proof.
  revert a b. induction n as [| n IH]; intros a b Ha Hb; simpl.
  - reflexivity.
  - destruct a as [| x a]; [reflexivity |].
    destruct b as [| y b]; [reflexivity |].
    inversion Ha; inversion Hb; subst. simpl. apply IH; assumption.
Qed.

Lemma Forall_byte_zeros (n : Z) : Forall is_byte (zeros n).
Proof.
  unfold zeros. induction (Z.to_nat n); simpl; constructor; auto.
  unfold is_byte. lia.
Qed.

Lemma length_zeros (n : Z) : 0 <= n -> Z.of_nat (length (zeros n)) = n.
Proof. intros Hn. unfold zeros. rewrite repeat_length. lia. Qed.

Lemma length_memcpy (dst : list Z) (doff : Z) (src : list Z) (soff n : Z) :
  0 <= doff -> 0 <= soff -> 0 <= n ->
  doff + n <= Z.of_nat (length dst) -> soff + n <= Z.of_nat (length src) ->
  length (memcpy dst doff src soff n) = length dst.
Proof.
  intros. unfold memcpy.
  rewrite !length_app, !length_firstn, !length_skipn. lia.
Qed.

Lemma memcpy_whole (dst src : list Z) (n : Z) :
  Z.of_nat (length src) = n -> Z.of_nat (length dst) = n ->
  memcpy dst 0 src 0 n = src.
Proof.
  intros Hs Hd. unfold memcpy. cbn [Z.to_nat firstn skipn app].
  rewrite firstn_all2 by lia.
  rewrite skipn_all2 by lia. apply app_nil_r.
Qed.

Lemma length_store_tail (buf outs : list Z) :
  (length outs <= length buf)%nat ->
  length (store_tail buf outs) = length buf.
Proof.
  intros H. unfold store_tail.
  rewrite length_app, length_firstn, length_rev. lia.
Qed.

(** ** The number a buffer denotes *)

Lemma le_combine_app (xs ys : list Z) :
  le_combine (xs ++ ys)
  = le_combine xs + 256 ^ Z.of_nat (length xs) * le_combine ys.
Proof.
  induction xs as [| x xs IH]; cbn [app le_combine length].
  - rewrite Z.pow_0_r. lia.
  - rewrite IH, Nat2Z.inj_succ, Z.pow_succ_r by lia. ring.
Qed.

Lemma le_combine_bound (bs : list Z) :
  Forall is_byte bs -> 0 <= le_combine bs < 256 ^ Z.of_nat (length bs).
Proof.
  induction 1 as [| b bs Hb _ IH]; cbn [le_combine length].
  - rewrite Z.pow_0_r. lia.
  - rewrite Nat2Z.inj_succ, Z.pow_succ_r by lia. unfold is_byte in Hb. lia.
Qed.

Lemma le_combine_all_zero (bs : list Z) : all_zero bs -> le_combine bs = 0.
Proof.
  induction 1 as [| b bs Hb _ IH]; cbn [le_combine]; [reflexivity |].
  cbv beta in Hb. lia.
Qed.

Lemma be_value_snoc (bs : list Z) (b : Z) :
  be_value (bs ++ [b]) = be_value bs * 256 + b.
Proof. unfold be_value. rewrite fold_left_app. reflexivity. Qed.

Lemma be_value_rev (bs : list Z) : be_value (rev bs) = le_combine bs.
Proof.
  induction bs as [| b bs IH]; [reflexivity |].
  cbn [rev le_combine]. rewrite be_value_snoc, IH. ring.
Qed.

Lemma be_value_le_combine (bs : list Z) : be_value bs = le_combine (rev bs).
Proof. rewrite <- be_value_rev, rev_involutive. reflexivity. Qed.

Lemma be_value_app (xs ys : list Z) :
  be_value (xs ++ ys)
  = be_value xs * 256 ^ Z.of_nat (length ys) + be_value ys.
Proof.
  rewrite !be_value_le_combine, rev_app_distr, le_combine_app, length_rev.
  ring.
Qed.

Lemma be_value_all_zero (bs : list Z) : all_zero bs -> be_value bs = 0.
Proof.
  unfold be_value. induction 1 as [| b bs Hb _ IH]; simpl; [reflexivity |].
  cbv beta in Hb. subst b. exact IH.
Qed.

Lemma be_value_zeros_app (n : Z) (bs : list Z) :
  be_value (zeros n ++ bs) = be_value bs.
Proof.
  rewrite be_value_app, (be_value_all_zero (zeros n)) by apply all_zero_zeros.
  lia.
Qed.

Lemma be_value_acc_zero (bs : list Z) (acc : Z) :
  0 <= acc -> Forall is_byte bs ->
  fold_left (fun a b => a * 256 + b) bs acc = 0 -> acc = 0 /\ all_zero bs.
Proof.
  revert acc. induction bs as [| b bs IH]; intros acc Hacc Hr H; simpl in H.
  - split; [assumption | constructor].
  - inversion Hr as [| ? ? Hb Hbs]; subst. unfold is_byte in Hb.
    destruct (IH (acc * 256 + b) ltac:(lia) Hbs H) as [H0 Hz].
    assert (acc = 0 /\ b = 0) as [-> ->] by lia.
    split; [reflexivity | constructor; auto].
Qed.

Lemma magnitude_zero_all_zero (v : bigbigint) :
  wf v -> magnitude v = 0 -> all_zero (_first_byte v).
Proof.
  intros (_ & _ & _ & Hr) Hm.
  exact (proj2 (be_value_acc_zero _ 0 ltac:(lia) Hr Hm)).
Qed.

Lemma load_word_all_zero (bs : list Z) (k : Z) :
  all_zero bs -> load_word bs k = 0.
Proof.
  intros Hz. unfold load_word.
  apply le_combine_all_zero, all_zero_firstn, all_zero_skipn, Hz.
Qed.

Lemma store_word_zero (tv : list Z) (k : Z) :
  all_zero tv -> all_zero (store_word tv k 0).
Proof.
  intros Hz. unfold store_word. apply all_zero_memcpy; [assumption |].
  repeat constructor.
Qed.

Lemma lxor_byte (b : Z) : is_byte b -> Z.lxor b UCHAR_MAX = 255 - b.
Proof.
  intros Hb. unfold is_byte in Hb.
  assert (H : forallb (fun n => Z.lxor (Z.of_nat n) UCHAR_MAX =? 255 - Z.of_nat n)
                      (seq 0 256) = true) by (vm_compute; reflexivity).
  rewrite forallb_forall in H.
  specialize (H (Z.to_nat b)). rewrite Z2Nat.id in H by lia.
  apply Z.eqb_eq, H, in_seq. lia.
Qed.

Lemma le_combine_complement (bs : list Z) :
  Forall is_byte bs ->
  le_combine (map (fun b => Z.lxor b UCHAR_MAX) bs)
  = 256 ^ Z.of_nat (length bs) - 1 - le_combine bs.
Proof.
  induction 1 as [| b bs Hb _ IH]; cbn [map le_combine length].
  - reflexivity.
  - rewrite IH, (lxor_byte b Hb), Nat2Z.inj_succ, Z.pow_succ_r by lia. ring.
Qed.

Lemma Forall_is_byte_complement (bs : list Z) :
  Forall is_byte bs -> Forall is_byte (map (fun b => Z.lxor b UCHAR_MAX) bs).
Proof.
  induction 1 as [| b bs Hb _ IH]; cbn [map]; constructor; [| exact IH].
  rewrite (lxor_byte b Hb). unfold is_byte in *. lia.
Qed.

(** ** Conversion to and from the fixed-width types *)

Lemma to_signed_in_range (bits x : Z) :
  0 < bits -> - 2 ^ (bits - 1) <= x < 2 ^ (bits - 1) -> to_signed bits x = x.
Proof.
  intros Hb Hx. unfold to_signed.
  assert (Hp : 2 ^ bits = 2 * 2 ^ (bits - 1)).
  { rewrite <- Z.pow_succ_r by lia. f_equal. lia. }
  destruct (Z_lt_le_dec x 0) as [Hneg | Hpos].
  - replace (x mod 2 ^ bits) with (x + 2 ^ bits).
    + destruct (Z.ltb_spec (x + 2 ^ bits) (2 ^ (bits - 1))); lia.
    + symmetry. rewrite <- (Z.mod_add x 1 (2 ^ bits)) by lia.
      rewrite Z.mul_1_l. apply Z.mod_small. lia.
  - rewrite Z.mod_small by lia.
    destruct (Z.ltb_spec x (2 ^ (bits - 1))); lia.
Qed.

Lemma wrap_nonneg (sz : Z) (is_signed : bool) (v : Z) :
  0 < sz -> 0 <= v -> in_type sz is_signed v ->
  (if is_signed then to_signed (8 * sz) else to_unsigned (8 * sz)) v = v.
Proof.
  intros Hsz Hv Hin. unfold in_type in Hin. destruct is_signed.
  - apply to_signed_in_range; lia.
  - unfold to_unsigned. apply Z.mod_small. lia.
Qed.

Lemma assign_int_types_fields (sz : Z) (is_signed : bool) (this : bigbigint) (v : Z) :
  0 < sz -> 0 <= v -> in_type sz is_signed v ->
  _flags (ASSIGN_OP_BODY_INT_TYPES sz is_signed this v) = 0
  /\ _num_bytes (ASSIGN_OP_BODY_INT_TYPES sz is_signed this v) = _num_bytes this
  /\ _length (ASSIGN_OP_BODY_INT_TYPES sz is_signed this v) = _length this.
Proof.
  intros Hsz Hv Hin. unfold ASSIGN_OP_BODY_INT_TYPES.
  rewrite (wrap_nonneg sz is_signed v Hsz Hv Hin).
  destruct (Z.ltb_spec v 0) as [Hlt | _]; [lia |].
  cbn. auto.
Qed.

(** C1 (the code's behaviour): after a non-negative value [v] of a type of
    [sz] bytes was assigned, the cast operator to that type returns the
    address of the low-order [sz] bytes of the buffer, converted to the
    type.  The value [v] does not occur in the result. *)
Theorem cast_after_assign_is_address
    (sz : Z) (is_signed : bool) (addr : Z) (this : bigbigint) (v : Z) :
  0 < sz -> 0 <= v -> in_type sz is_signed v ->
  CAST_OPERATOR_FUNCTION sz is_signed addr
      (ASSIGN_OP_BODY_INT_TYPES sz is_signed this v)
  = (if is_signed then to_signed (8 * sz) else to_unsigned (8 * sz))
      (addr + (_num_bytes this - sz)).
Proof.
  intros Hsz Hv Hin.
  destruct (assign_int_types_fields sz is_signed this v Hsz Hv Hin)
    as (Hfl & Hnb & _).
  unfold CAST_OPERATOR_FUNCTION. rewrite Hfl, Hnb. reflexivity.
Qed.

(** C1 at a concrete input: the 64-bit value 5 is assigned to a default
    bigbigint whose buffer lies at address 0x1000, and the cast returns
    0x1000. *)
Lemma cast_after_assign_is_address_example :
  0 < 8 /\ 0 <= 5 /\ in_type 8 false 5
  /\ CAST_OPERATOR_FUNCTION 8 false 0x1000
       (ASSIGN_OP_BODY_INT_TYPES 8 false (_constructor 0) 5) = 0x1000.
Proof.
  assert (H8 : 0 < 8) by lia.
  assert (H5 : 0 <= 5) by lia.
  assert (Hin : in_type 8 false 5) by (unfold in_type; simpl; lia).
  refine (conj H8 (conj H5 (conj Hin _))).
  exact (cast_after_assign_is_address 8 false 0x1000 (_constructor 0) 5 H8 H5 Hin).
Defined.

(** ** The storage manager and the invariant *)

Lemma MAX_max (x y : Z) : MAX x y = Z.max x y.
Proof. unfold MAX. destruct (Z.gtb_spec x y); lia. Qed.

Lemma constructor_fields (size : Z) :
  BBI_MIN_SIZE <= _length (_constructor size)
  /\ _num_bytes (_constructor size)
     = _length (_constructor size) * sizeof_BBI_BASE_TYPE
  /\ _first_byte (_constructor size) = zeros (_num_bytes (_constructor size))
  /\ _flags (_constructor size) = 0.
Proof.
  unfold _constructor, BBI_MIN_SIZE.
  destruct (Z.ltb_spec size 2); cbn; repeat split; lia.
Qed.

Lemma wf_constructor (size : Z) : wf (_constructor size).
Proof.
  destruct (constructor_fields size) as (Hl & Hn & Hb & _).
  unfold wf. repeat split; try assumption.
  - rewrite Hb. apply length_zeros. unfold BBI_MIN_SIZE, sizeof_BBI_BASE_TYPE in *. lia.
  - rewrite Hb. apply Forall_byte_zeros.
Qed.

Lemma constructor_of_wf_length (v : bigbigint) :
  wf v ->
  _constructor (_length v)
  = mk_bigbigint (zeros (_num_bytes v)) (_num_bytes v) (_length v) 0.
Proof.
  intros (Hl & Hn & _). unfold _constructor.
  unfold BBI_MIN_SIZE in *. destruct (Z.ltb_spec (_length v) 2); [lia |].
  rewrite <- Hn. reflexivity.
Qed.

Lemma constructor_ge_min (size : Z) :
  BBI_MIN_SIZE <= size ->
  _constructor size
  = mk_bigbigint (zeros (size * sizeof_BBI_BASE_TYPE))
                 (size * sizeof_BBI_BASE_TYPE) size 0.
Proof.
  intros H. unfold _constructor.
  destruct (Z.ltb_spec size BBI_MIN_SIZE); [lia | reflexivity].
Qed.

(** [tVal = 0;]: the buffer is cleared, the sizes stay, the sign is cleared. *)
Lemma assign_int_zero (t : bigbigint) :
  Z.of_nat (length (_first_byte t)) <= _num_bytes t ->
  all_zero (_first_byte (operator_assign_int t 0))
  /\ _num_bytes (operator_assign_int t 0) = _num_bytes t
  /\ _length (operator_assign_int t 0) = _length t
  /\ _flags (operator_assign_int t 0) = 0.
Proof.
  intros Hlen. unfold operator_assign_int.
  destruct (assign_int_types_fields 4 true t 0) as (Hf & Hn & Hl);
    [lia | lia | unfold in_type; simpl; lia |].
  repeat split; try assumption.
  unfold ASSIGN_OP_BODY_INT_TYPES.
  change (to_signed (8 * 4) 0) with 0. cbn [Z.ltb Z.compare].
  change (REVERSE_BYTE_ORDER 4 (to_unsigned (8 * 4) 0)) with 0.
  cbn [_first_byte set_bytes zero_fill set_flags _num_bytes].
  apply all_zero_memcpy.
  - apply all_zero_memset0. assumption.
  - repeat constructor.
Qed.

(** [tVal = 0;] on an object that satisfies the invariant. *)
Lemma assign_int_zero_wf (t : bigbigint) :
  wf t ->
  operator_assign_int t 0
  = mk_bigbigint (zeros (_num_bytes t)) (_num_bytes t) (_length t) 0.
Proof.
  intros (Hl & Hnb & Hlen & _).
  destruct (assign_int_zero t) as (Hz & Hn & Hlg & Hfl); [lia |].
  assert (Hlen' : length (_first_byte (operator_assign_int t 0))
                  = length (_first_byte t)).
  { unfold operator_assign_int, ASSIGN_OP_BODY_INT_TYPES.
    change (to_signed (8 * 4) 0) with 0. cbn [Z.ltb Z.compare].
    change (REVERSE_BYTE_ORDER 4 (to_unsigned (8 * 4) 0)) with 0.
    cbn [_first_byte set_bytes zero_fill set_flags _num_bytes].
    unfold BBI_MIN_SIZE, sizeof_BBI_BASE_TYPE in *.
    assert (Hm : length (memset0 (_first_byte t) (_num_bytes t))
                 = length (_first_byte t)).
    { unfold memset0, zeros. rewrite length_app, repeat_length, length_skipn. lia. }
    rewrite length_memcpy; [exact Hm | lia | lia | lia | rewrite Hm; lia |].
    change (Z.of_nat (length (le_bytes (Z.to_nat 4) 0))) with 4. lia. }
  apply all_zero_eq_zeros in Hz. rewrite Hlen', Hlen in Hz.
  destruct (operator_assign_int t 0) as [bs nb lg fl].
  cbn [_first_byte _num_bytes _length _flags] in *. subst. reflexivity.
Qed.

Lemma operator_assign_same_size (this NewVal : bigbigint) :
  wf this -> wf NewVal -> _num_bytes this = _num_bytes NewVal ->
  operator_assign this NewVal
  = mk_bigbigint (_first_byte NewVal) (_num_bytes this) (_length this)
                 (_flags NewVal).
Proof.
  intros (_ & _ & Ht & _) (_ & _ & Hn & _) Heq. unfold operator_assign.
  rewrite Heq, Z.eqb_refl. rewrite <- Heq.
  rewrite memcpy_whole by lia. reflexivity.
Qed.

Lemma copy_of_wf (v : bigbigint) : wf v -> copy v = v.
Proof.
  intros (Hl & Hnb & Hlen & _). unfold copy.
  rewrite memcpy_whole; [destruct v; reflexivity | assumption |].
  apply length_zeros. unfold BBI_MIN_SIZE, sizeof_BBI_BASE_TYPE in *. lia.
Qed.

Lemma wf_of_int_0 : wf (of_int 0).
Proof. wf_by_computation. Qed.

Lemma wf_of_int_1 : wf (of_int 1).
Proof. wf_by_computation. Qed.

Lemma wf_of_int_3 : wf (of_int 3).
Proof. wf_by_computation. Qed.

Lemma wf_of_int_5 : wf (of_int 5).
Proof. wf_by_computation. Qed.

Lemma wf_of_int_7 : wf (of_int 7).
Proof. wf_by_computation. Qed.

Lemma wf_of_int_12 : wf (of_int 12).
Proof. wf_by_computation. Qed.

Lemma wf_of_int_100 : wf (of_int 100).
Proof. wf_by_computation. Qed.

Lemma wf_of_int_minus_3 : wf (of_int (-3)).
Proof. wf_by_computation. Qed.

Lemma wf_u64_max : wf (of_u64 0 0xFFFFFFFFFFFFFFFF).
Proof. wf_by_computation. Qed.

Lemma wf_u64_top_bit : wf (of_u64 0 0x8000000000000000).
Proof. wf_by_computation. Qed.

(** [_upsize] by one word puts a zero word in front of the buffer. *)
Lemma upsize_one_word (t : bigbigint) :
  Z.of_nat (length (_first_byte t)) = _num_bytes t ->
  _num_bytes t = _length t * sizeof_BBI_BASE_TYPE ->
  _upsize t (_length t + 1)
  = mk_bigbigint ([0; 0; 0; 0] ++ _first_byte t)
                 ((_length t + 1) * sizeof_BBI_BASE_TYPE)
                 (_length t + 1) (_flags t).
Proof.
  intros Hlen Hnb. unfold _upsize. f_equal.
  unfold sizeof_BBI_BASE_TYPE in *.
  replace ((_length t + 1) * 4 - _num_bytes t) with 4 by lia.
  unfold memcpy, memset0.
  change (zeros 4) with [0; 0; 0; 0].
  assert (Hrest : length (skipn (Z.to_nat 4) (zeros ((_length t + 1) * 4)))
                  = Z.to_nat (_num_bytes t)).
  { rewrite length_skipn. unfold zeros. rewrite repeat_length. lia. }
  set (rest := skipn (Z.to_nat 4) (zeros ((_length t + 1) * 4))) in *.
  change (Z.to_nat 4) with 4%nat. change (Z.to_nat 0) with 0%nat.
  cbn [firstn app]. cbn [skipn].
  rewrite firstn_all2 by lia.
  rewrite skipn_all2; [rewrite app_nil_r; reflexivity |].
  cbn [length]. lia.
Qed.

(** The buffer after [_upsize]: zero bytes in front of the old buffer. *)
Lemma upsize_bytes (t : bigbigint) (new_length : Z) :
  wf t -> _length t <= new_length ->
  _upsize t new_length
  = mk_bigbigint
      (zeros (new_length * sizeof_BBI_BASE_TYPE - _num_bytes t) ++ _first_byte t)
      (new_length * sizeof_BBI_BASE_TYPE) new_length (_flags t).
Proof.
  intros (Hl & Hnb & Hlen & _) Hn. unfold _upsize. f_equal.
  unfold BBI_MIN_SIZE, sizeof_BBI_BASE_TYPE in *.
  set (off := new_length * 4 - _num_bytes t).
  assert (Hoff : 0 <= off) by (subst off; lia).
  assert (Hz : length (zeros off) = Z.to_nat off)
    by (unfold zeros; apply repeat_length).
  unfold memcpy, memset0.
  rewrite <- Hz at 1. rewrite firstn_app_exact.
  change (Z.to_nat 0) with 0%nat. cbn [skipn].
  rewrite firstn_all2 by lia.
  rewrite skipn_all2; [rewrite app_nil_r; reflexivity |].
  rewrite length_app, length_skipn, Hz. unfold zeros. rewrite repeat_length.
  subst off. lia.
Qed.

(** Growing a value keeps its magnitude, its sign and the invariant. *)
Theorem upsize_keeps_value (t : bigbigint) (new_length : Z) :
  wf t -> _length t <= new_length ->
  wf (_upsize t new_length)
  /\ _length (_upsize t new_length) = new_length
  /\ magnitude (_upsize t new_length) = magnitude t
  /\ _flags (_upsize t new_length) = _flags t.
Proof.
  intros Hwf Hn. rewrite (upsize_bytes t new_length Hwf Hn).
  destruct Hwf as (Hl & Hnb & Hlen & Hr).
  unfold magnitude, wf. cbn [_first_byte _num_bytes _length _flags].
  repeat split; try lia.
  - rewrite length_app, Nat2Z.inj_add, length_zeros;
      unfold sizeof_BBI_BASE_TYPE in *; lia.
  - apply Forall_app. split; [apply Forall_byte_zeros | exact Hr].
  - apply be_value_zeros_app.
Qed.

(** [_upsize] of -3 from two words to five. *)
Lemma upsize_keeps_value_example :
  wf (of_int (-3)) /\ _length (of_int (-3)) <= 5
  /\ wf (_upsize (of_int (-3)) 5)
  /\ _length (_upsize (of_int (-3)) 5) = 5
  /\ magnitude (_upsize (of_int (-3)) 5) = magnitude (of_int (-3))
  /\ _flags (_upsize (of_int (-3)) 5) = _flags (of_int (-3)).
Proof.
  assert (Hn : _length (of_int (-3)) <= 5) by (vm_compute; discriminate).
  refine (conj wf_of_int_minus_3 (conj Hn _)).
  exact (upsize_keeps_value (of_int (-3)) 5 wf_of_int_minus_3 Hn).
Defined.

(** Assignment from another bigbigint keeps the greater capacity and takes
    the magnitude and the sign of the value assigned. *)
Theorem assign_never_shrinks (this NewVal : bigbigint) :
  wf this -> wf NewVal ->
  wf (operator_assign this NewVal)
  /\ _length (operator_assign this NewVal)
     = Z.max (_length this) (_length NewVal)
  /\ magnitude (operator_assign this NewVal) = magnitude NewVal
  /\ _flags (operator_assign this NewVal) = _flags NewVal.
Proof.
  intros Ht Hn.
  pose proof Ht as (Hlt & Hnt & Hlent & Hrt).
  pose proof Hn as (Hln & Hnn & Hlenn & Hrn).
  unfold sizeof_BBI_BASE_TYPE, BBI_MIN_SIZE in *.
  destruct (Z.eq_dec (_num_bytes this) (_num_bytes NewVal)) as [He | Hne].
  - rewrite (operator_assign_same_size this NewVal Ht Hn He).
    unfold wf, magnitude. cbn [_first_byte _num_bytes _length _flags].
    unfold sizeof_BBI_BASE_TYPE, BBI_MIN_SIZE. repeat split; try lia. exact Hrn.
  - unfold operator_assign.
    destruct (Z.eqb_spec (_num_bytes this) (_num_bytes NewVal)) as [| _];
      [contradiction |].
    destruct (Z.ltb_spec (_num_bytes this) (_num_bytes NewVal)) as [Hlt' | Hge].
    + rewrite (copy_of_wf NewVal Hn).
      unfold wf, magnitude, set_flags. cbn [_first_byte _num_bytes _length _flags].
      unfold sizeof_BBI_BASE_TYPE, BBI_MIN_SIZE. repeat split; try lia. exact Hrn.
    + set (off := _num_bytes this - _num_bytes NewVal).
      assert (Hoff : 0 < off) by (subst off; lia).
      unfold zero_fill_n. destruct (Z.eqb_spec off 0) as [| _]; [lia |].
      unfold set_bytes, set_flags. cbn [_first_byte _num_bytes _length _flags].
      assert (Hb : memset0 (memcpy (_first_byte this) off
                              (_first_byte NewVal) 0 (_num_bytes NewVal)) off
                   = zeros off ++ _first_byte NewVal).
      { unfold memset0, memcpy. f_equal.
        change (Z.to_nat 0) with 0%nat. cbn [skipn].
        rewrite (firstn_all2 (_first_byte NewVal)) by lia.
        rewrite (skipn_all2 (_first_byte this)) by (subst off; lia).
        rewrite app_nil_r.
        assert (Hf : length (firstn (Z.to_nat off) (_first_byte this))
                     = Z.to_nat off) by (rewrite length_firstn; subst off; lia).
        rewrite <- Hf at 1. apply skipn_app_exact. }
      rewrite Hb. unfold wf, magnitude.
      cbn [_first_byte _num_bytes _length _flags].
      unfold sizeof_BBI_BASE_TYPE, BBI_MIN_SIZE. repeat split; try lia.
      * rewrite length_app, Nat2Z.inj_add, length_zeros by lia. subst off. lia.
      * apply Forall_app. split; [apply Forall_byte_zeros | exact Hrn].
      * apply be_value_zeros_app.
Qed.

(** -3 in two words assigned to a five-word object. *)
Lemma assign_never_shrinks_example :
  wf (_constructor 5) /\ wf (of_int (-3))
  /\ wf (operator_assign (_constructor 5) (of_int (-3)))
  /\ _length (operator_assign (_constructor 5) (of_int (-3)))
     = Z.max (_length (_constructor 5)) (_length (of_int (-3)))
  /\ magnitude (operator_assign (_constructor 5) (of_int (-3)))
     = magnitude (of_int (-3))
  /\ _flags (operator_assign (_constructor 5) (of_int (-3)))
     = _flags (of_int (-3)).
Proof.
  refine (conj (wf_constructor 5) (conj wf_of_int_minus_3 _)).
  exact (assign_never_shrinks (_constructor 5) (of_int (-3))
           (wf_constructor 5) wf_of_int_minus_3).
Defined.

(** ** The sign flag, negation and products with zero *)

Lemma IS_NEGATIVE_odd (flags : Z) : IS_NEGATIVE flags = Z.odd flags.
Proof.
  unfold IS_NEGATIVE, BBI_NEGATIVE.
  change 1 with (Z.ones 1). rewrite Z.land_ones by lia.
  change (2 ^ 1) with 2. rewrite Zmod_odd.
  destruct (Z.odd flags); reflexivity.
Qed.

Lemma IS_NEGATIVE_toggle (flags : Z) :
  IS_NEGATIVE (Z.lxor flags BBI_NEGATIVE) = negb (IS_NEGATIVE flags).
Proof.
  rewrite !IS_NEGATIVE_odd. unfold BBI_NEGATIVE.
  rewrite <- !Z.bit0_odd, Z.lxor_spec. simpl.
  destruct (Z.testbit flags 0); reflexivity.
Qed.

Lemma IS_NEGATIVE_set (flags : Z) : IS_NEGATIVE (Z.lor flags BBI_NEGATIVE) = true.
Proof.
  rewrite IS_NEGATIVE_odd. unfold BBI_NEGATIVE.
  rewrite <- Z.bit0_odd, Z.lor_spec. apply orb_true_r.
Qed.

(** Unary minus keeps the buffer and the sizes and toggles the sign bit. *)
Lemma operator_neg_spec (this : bigbigint) :
  wf this ->
  operator_neg this = set_flags this (Z.lxor (_flags this) BBI_NEGATIVE).
Proof.
  intros Hwf. unfold operator_neg.
  rewrite operator_assign_same_size.
  - rewrite (constructor_of_wf_length this Hwf). reflexivity.
  - apply wf_constructor.
  - assumption.
  - rewrite (constructor_of_wf_length this Hwf). reflexivity.
Qed.

Lemma mul_inner_zero (n : nat) (src : list Z) (w_mult : Z) (tv : list Z) (p : Z) :
  all_zero tv -> w_mult = 0 \/ all_zero src ->
  all_zero (mul_inner n src w_mult tv p 0).
Proof.
  intros Htv Hz. revert tv p Htv.
  induction n as [| n IH]; intros tv p Htv; simpl; [assumption |].
  assert (Hprod : REVERSE_BYTE_ORDER 4 w_mult
                  * REVERSE_BYTE_ORDER 4 (load_word src (Z.of_nat n)) = 0).
  { destruct Hz as [-> | Hs].
    - reflexivity.
    - rewrite (load_word_all_zero src _ Hs).
      change (REVERSE_BYTE_ORDER 4 0) with 0. lia. }
  rewrite Hprod. rewrite (load_word_all_zero tv p Htv).
  change (to_unsigned D_LONG_BITS (to_unsigned D_LONG_BITS (0 + 0) + 0)) with 0.
  change (Z.land 0 BBI_BASE_MAX) with 0.
  change (Z.shiftr 0 (8 * sizeof_BBI_BASE_TYPE)) with 0.
  apply IH. apply store_word_zero. assumption.
Qed.

Lemma mul_outer_zero (m : nat) (mult src : list Z) (this_length : Z)
    (tv : list Z) (tv_length i : Z) :
  all_zero tv -> all_zero mult \/ all_zero src ->
  all_zero (mul_outer m mult src this_length tv tv_length i).
Proof.
  intros Htv Hz. revert tv i Htv.
  induction m as [| m IH]; intros tv i Htv; simpl; [assumption |].
  apply IH. apply mul_inner_zero; [assumption |].
  destruct Hz as [Hm | Hs]; [left | right; assumption].
  apply load_word_all_zero. assumption.
Qed.

Lemma operator_mul_zero (this multiplier : bigbigint) :
  all_zero (_first_byte multiplier) ->
  all_zero (_first_byte (operator_mul this multiplier))
  /\ is_negative (operator_mul this multiplier)
     = xorb (is_negative this) (is_negative multiplier).
Proof.
  intros Hz. unfold operator_mul, is_negative.
  destruct (assign_int_zero (_constructor (_length this + _length multiplier)))
    as (Ht & _ & _ & Hfl).
  { destruct (wf_constructor (_length this + _length multiplier))
      as (_ & _ & Hlen & _). lia. }
  set (tVal := operator_assign_int _ 0) in *.
  assert (Hbytes : forall src this_length mult mult_length,
             all_zero mult \/ all_zero src ->
             all_zero (mul_outer (Z.to_nat mult_length) mult src this_length
                         (_first_byte tVal) (_length tVal) 1)).
  { intros. apply mul_outer_zero; assumption. }
  destruct (_length this >=? _length multiplier);
    destruct (IS_NEGATIVE (_flags this)), (IS_NEGATIVE (_flags multiplier));
    cbn [andb orb negb xorb set_flags set_bytes _first_byte _flags];
    rewrite ?Hfl; (split; [apply Hbytes; auto | reflexivity]).
Qed.

(** C8, as the code has it: unary minus keeps the buffer and toggles the
    sign bit whatever the magnitude, and a product with a zero operand has
    magnitude zero and the exclusive or of the operands' sign bits.  A zero
    with the sign bit set is what both return for a suitable operand. *)
Theorem negation_and_zero_product_signs (a z : bigbigint) :
  wf a -> wf z -> magnitude z = 0 ->
  operator_neg a = set_flags a (Z.lxor (_flags a) BBI_NEGATIVE)
  /\ magnitude (operator_neg a) = magnitude a
  /\ is_negative (operator_neg a) = negb (is_negative a)
  /\ magnitude (operator_mul a z) = 0
  /\ is_negative (operator_mul a z) = xorb (is_negative a) (is_negative z).
Proof.
  intros Ha Hz Hm.
  pose proof (operator_neg_spec a Ha) as Hneg.
  destruct (operator_mul_zero a z (magnitude_zero_all_zero z Hz Hm))
    as (Hbytes & Hsign).
  repeat split.
  - exact Hneg.
  - rewrite Hneg. reflexivity.
  - rewrite Hneg. unfold is_negative. cbn [set_flags _flags].
    apply IS_NEGATIVE_toggle.
  - unfold magnitude. apply be_value_all_zero. exact Hbytes.
  - exact Hsign.
Qed.

(** C8 at a concrete input: [a] is -3 and [z] is 0. *)
Lemma negation_and_zero_product_signs_example :
  wf (of_int (-3)) /\ wf (of_int 0) /\ magnitude (of_int 0) = 0
  /\ magnitude (operator_neg (of_int (-3))) = magnitude (of_int (-3))
  /\ is_negative (operator_neg (of_int (-3))) = negb (is_negative (of_int (-3)))
  /\ magnitude (operator_mul (of_int (-3)) (of_int 0)) = 0
  /\ is_negative (operator_mul (of_int (-3)) (of_int 0))
     = xorb (is_negative (of_int (-3))) (is_negative (of_int 0)).
Proof.
  refine (conj wf_of_int_minus_3 (conj wf_of_int_0 (conj eq_refl _))).
  exact (proj2 (negation_and_zero_product_signs (of_int (-3)) (of_int 0)
                  wf_of_int_minus_3 wf_of_int_0 eq_refl)).
Defined.

(** C8 as stated fails: the negation of zero is a zero whose sign bit is
    set, and so is -3 times 0. *)
Lemma signed_zero_from_negation_and_product :
  magnitude (of_int 0) = 0
  /\ is_negative (of_int 0) = false
  /\ magnitude (operator_neg (of_int 0)) = 0
  /\ is_negative (operator_neg (of_int 0)) = true
  /\ magnitude (operator_mul (of_int (-3)) (of_int 0)) = 0
  /\ is_negative (operator_mul (of_int (-3)) (of_int 0)) = true.
Proof. repeat split; vm_compute; reflexivity. Qed.

(** ** Compound multiplication *)

(** C9 (the code's behaviour): [operator *=] runs the body of
    [operator +=].  With 3 and 4 it leaves 7 in the left operand, while
    [operator *] returns a four-word value. *)
Theorem mul_assign_adds :
  (forall fuel a v, operator_mul_assign fuel a v = operator_plus_assign fuel a v)
  /\ operator_mul_assign 2 (of_int 3) (of_int 4) = Ret (of_int 7)
  /\ operator_mul (of_int 3) (of_int 4)
     = mk_bigbigint [0; 0; 0; 0; 0; 0; 0; 0; 0; 0; 0; 0; 12; 0; 0; 0] 16 4 0
  /\ operator_assign (of_int 3) (operator_mul (of_int 3) (of_int 4))
     = mk_bigbigint [0; 0; 0; 0; 0; 0; 0; 0; 0; 0; 0; 0; 12; 0; 0; 0] 16 4 0.
Proof.
  split; [intros; reflexivity |].
  repeat split; vm_compute; reflexivity.
Qed.

(** ** Addition: the byte loop *)

(** One step of the loop: the byte stored and the carry kept. *)
Lemma add_step (result : Z) :
  0 <= result <= 511 ->
  Z.land result UCHAR_MAX = result mod 256
  /\ (if result >? UCHAR_MAX then Z.shiftr result 8 else 0) = result / 256.
Proof.
  intros H. unfold UCHAR_MAX. split.
  - change 255 with (Z.ones 8). rewrite Z.land_ones by lia. reflexivity.
  - destruct (Z.gtb_spec result 255).
    + rewrite Z.shiftr_div_pow2 by lia. reflexivity.
    + symmetry. apply Z.div_small. lia.
Qed.

(** What the loop computes: with [k] the length of the shorter operand, the
    [k] bytes written and the carry left are the sum of the low [k] bytes of
    both operands and the carry that came in. *)
Lemma add_bytes_spec (xs ys : list Z) (c : Z) :
  Forall is_byte xs -> Forall is_byte ys -> 0 <= c <= 1 ->
  let k := Nat.min (length xs) (length ys) in
  length (fst (add_bytes xs ys c)) = k
  /\ Forall is_byte (fst (add_bytes xs ys c))
  /\ 0 <= snd (add_bytes xs ys c) <= 1
  /\ le_combine (fst (add_bytes xs ys c))
     + snd (add_bytes xs ys c) * 256 ^ Z.of_nat k
     = le_combine (firstn k xs) + le_combine (firstn k ys) + c.
Proof.
  intros Hx. revert ys c.
  induction Hx as [| x xs Hbx Hxs IH]; intros ys c Hy Hc.
  - cbn. repeat split; try lia. constructor.
  - destruct Hy as [| y ys Hby Hys].
    + cbn. repeat split; try lia. constructor.
    + cbn [add_bytes length Nat.min firstn].
      unfold is_byte in Hbx, Hby.
      destruct (add_step (c + (x + y)) ltac:(lia)) as (Hout & Hcar).
      rewrite Hout, Hcar.
      assert (Hc' : 0 <= (c + (x + y)) / 256 <= 1).
      { split; [apply Z.div_pos; lia |].
        apply Z.lt_succ_r. apply Z.div_lt_upper_bound; lia. }
      specialize (IH ys ((c + (x + y)) / 256) Hys Hc').
      destruct (add_bytes xs ys ((c + (x + y)) / 256)) as [outs r].
      cbn [fst snd] in *. destruct IH as (Hlen & Hb & Hr & Hsum).
      cbn [length le_combine].
      repeat split; try lia.
      * constructor; [| assumption]. unfold is_byte.
        apply Z.mod_pos_bound. lia.
      * rewrite Nat2Z.inj_succ, Z.pow_succ_r by lia.
        pose proof (Z.div_mod (c + (x + y)) 256 ltac:(lia)).
        nia.
Qed.

Lemma add_bytes_comm (xs ys : list Z) (c : Z) :
  add_bytes xs ys c = add_bytes ys xs c.
Proof.
  revert ys c. induction xs as [| x xs IH]; intros ys c.
  - destruct ys; reflexivity.
  - destruct ys as [| y ys]; [reflexivity |].
    cbn [add_bytes]. rewrite (Z.add_comm x y), IH. reflexivity.
Qed.

(** When the sum of the operands does not fit the longer buffer, the loop
    ends with a carry of one. *)
Lemma add_bytes_overflow_le (xs ys : list Z) :
  Forall is_byte xs -> Forall is_byte ys ->
  (length xs <= length ys)%nat ->
  256 ^ Z.of_nat (length ys) <= le_combine xs + le_combine ys ->
  snd (add_bytes xs ys 0) = 1
  /\ length (fst (add_bytes xs ys 0)) = length xs.
Proof.
  intros Hx Hy Hlen Hov.
  destruct (add_bytes_spec xs ys 0 Hx Hy ltac:(lia)) as (Hk & Hb & Hr & Hsum).
  rewrite Nat.min_l in * by assumption.
  split; [| assumption].
  rewrite firstn_all in Hsum.
  pose proof (le_combine_bound _ Hb) as Hout. rewrite Hk in Hout.
  rewrite <- (firstn_skipn (length xs) ys) in Hov at 2.
  rewrite le_combine_app in Hov.
  assert (Hf : length (firstn (length xs) ys) = length xs).
  { rewrite length_firstn. lia. }
  rewrite Hf in Hov.
  assert (Hhi : 0 <= le_combine (skipn (length xs) ys)
                < 256 ^ Z.of_nat (length ys - length xs)).
  { rewrite <- length_skipn. apply le_combine_bound.
    apply Forall_skipn_list. assumption. }
  assert (Hpow : 256 ^ Z.of_nat (length ys)
                 = 256 ^ Z.of_nat (length xs)
                   * 256 ^ Z.of_nat (length ys - length xs)).
  { rewrite <- Z.pow_add_r by lia. f_equal. lia. }
  assert (Hp : 0 < 256 ^ Z.of_nat (length xs)) by (apply Z.pow_pos_nonneg; lia).
  set (P := 256 ^ Z.of_nat (length xs)) in *.
  set (Q := 256 ^ Z.of_nat (length ys - length xs)) in *.
  set (hi := le_combine (skipn (length xs) ys)) in *.
  assert (P * hi <= P * Q - P) by nia.
  nia.
Qed.

(** ** Addition of operands of one sign *)

(** With operands of one sign it returns a new object and leaves its own. *)
Lemma plus_same_sign (fuel : nat) (a b : bigbigint) :
  is_negative a = is_negative b ->
  operator_plus (S fuel) a b = Ret (a, add_same_sign a b).
Proof.
  unfold is_negative. intros Hs. cbn [operator_plus]. rewrite Hs.
  destruct (IS_NEGATIVE (_flags b)); reflexivity.
Qed.

Section SameSign.

Variables a b : bigbigint.
Hypothesis Ha : wf a.
Hypothesis Hb : wf b.

(** When the sum of the magnitudes does not fit the longer buffer, the loop
    ends with a carry of one. *)
Lemma add_bytes_overflow :
  256 ^ MAX (_num_bytes a) (_num_bytes b) <= magnitude a + magnitude b ->
  snd (add_bytes (rev (_first_byte a)) (rev (_first_byte b)) 0) = 1.
Proof.
  intros Hov.
  pose proof Ha as (Hla & Hna & Hlena & Hra).
  pose proof Hb as (Hlb & Hnb & Hlenb & Hrb).
  unfold magnitude in Hov. rewrite !be_value_le_combine in Hov.
  rewrite MAX_max in Hov.
  destruct (Nat.le_gt_cases (length (_first_byte a)) (length (_first_byte b)))
    as [Hle | Hgt].
  - apply add_bytes_overflow_le;
      [apply Forall_rev, Hra | apply Forall_rev, Hrb
       | rewrite !length_rev; exact Hle |].
    rewrite length_rev. rewrite Z.max_r in Hov by lia. rewrite Hlenb. exact Hov.
  - rewrite add_bytes_comm.
    apply add_bytes_overflow_le;
      [apply Forall_rev, Hrb | apply Forall_rev, Hra
       | rewrite !length_rev; lia |].
    rewrite length_rev. rewrite Z.max_l in Hov by lia. rewrite Hlena. lia.
Qed.

(** The result of [operator +] on operands of one sign when the byte loop
    ends with a carry. *)
Lemma add_same_sign_carry :
  snd (add_bytes (rev (_first_byte a)) (rev (_first_byte b)) 0) = 1 ->
  let L := MAX (_length a) (_length b) in
  let outs := fst (add_bytes (rev (_first_byte a)) (rev (_first_byte b)) 0) in
  add_same_sign a b
  = mk_bigbigint
      ([0; 0; 0; 1] ++ store_tail (zeros (L * sizeof_BBI_BASE_TYPE)) outs)
      ((L + 1) * sizeof_BBI_BASE_TYPE) (L + 1) (_flags a).
Proof.
  intros Hc L outs. subst outs.
  pose proof Ha as (Hla & Hna & Hlena & Hra).
  pose proof Hb as (Hlb & Hnb & Hlenb & Hrb).
  assert (HL : BBI_MIN_SIZE <= L) by (subst L; rewrite MAX_max; lia).
  destruct (add_bytes_spec (rev (_first_byte a)) (rev (_first_byte b)) 0)
    as (Hk & _); [apply Forall_rev, Hra | apply Forall_rev, Hrb | lia |].
  rewrite !length_rev in Hk.
  unfold add_same_sign. fold L.
  rewrite (constructor_ge_min L HL).
  rewrite assign_int_zero_wf.
  2:{ rewrite <- (constructor_ge_min L HL). apply wf_constructor. }
  cbn [_num_bytes _length _first_byte _flags set_flags set_bytes].
  destruct (add_bytes (rev (_first_byte a)) (rev (_first_byte b)) 0)
    as [outs r].
  cbn [fst snd] in *. subst r. cbn [Z.gtb Z.compare].
  set (N := L * sizeof_BBI_BASE_TYPE) in *.
  assert (HN : Z.of_nat (length (store_tail (zeros N) outs)) = N).
  { rewrite length_store_tail.
    - apply length_zeros. subst N. unfold BBI_MIN_SIZE, sizeof_BBI_BASE_TYPE in *. lia.
    - unfold zeros. rewrite repeat_length. subst N L. rewrite MAX_max.
      unfold sizeof_BBI_BASE_TYPE in *. lia. }
  rewrite upsize_one_word; cbn [_num_bytes _length _first_byte _flags];
    [| exact HN | reflexivity].
  unfold store_byte.
  change (sizeof_BBI_BASE_TYPE - 1) with 3.
  cbn [_num_bytes _length _first_byte _flags set_flags set_bytes].
  assert (Hin : ((0 <=? 3)
                 && (3 <? Z.of_nat (length ([0; 0; 0; 0] ++ store_tail (zeros N) outs))))
                = true).
  { cbn [length app]. apply andb_true_intro. split; [reflexivity |].
    apply Z.ltb_lt. lia. }
  rewrite Hin. reflexivity.
Qed.

(** The result when the byte loop ends without a carry. *)
Lemma add_same_sign_no_carry :
  snd (add_bytes (rev (_first_byte a)) (rev (_first_byte b)) 0) = 0 ->
  let L := MAX (_length a) (_length b) in
  let outs := fst (add_bytes (rev (_first_byte a)) (rev (_first_byte b)) 0) in
  add_same_sign a b
  = mk_bigbigint (store_tail (zeros (L * sizeof_BBI_BASE_TYPE)) outs)
                 (L * sizeof_BBI_BASE_TYPE) L (_flags a).
Proof.
  intros Hc L outs. subst outs.
  pose proof Ha as (Hla & _). pose proof Hb as (Hlb & _).
  assert (HL : BBI_MIN_SIZE <= L) by (subst L; rewrite MAX_max; lia).
  unfold add_same_sign. fold L.
  rewrite (constructor_ge_min L HL).
  rewrite assign_int_zero_wf.
  2:{ rewrite <- (constructor_ge_min L HL). apply wf_constructor. }
  cbn [_num_bytes _length _first_byte _flags set_flags set_bytes].
  destruct (add_bytes (rev (_first_byte a)) (rev (_first_byte b)) 0)
    as [outs r].
  cbn [fst snd] in *. subst r. reflexivity.
Qed.

End SameSign.

(** C3: when the byte loop of [a + b] on operands of one sign ends with a
    carry, as it does whenever the magnitudes add up to more than the longer
    buffer holds, [a + b] leaves [a] as it is and returns a value one word
    longer than the longer operand, whose new first word holds the carry 1,
    with the sign of the operands; for operands of equal length it is the
    sum.  In particular 0xFFFFFFFF + 1, one significant word each, is
    0x1_00000000 with two significant words; that carry stays inside the
    two words every value has, so this result is not lengthened. *)
Theorem add_carry_grows_result :
  (forall (fuel : nat) (a b : bigbigint),
      wf a -> wf b -> is_negative a = is_negative b ->
      0 < carry_out a b
      \/ 256 ^ MAX (_num_bytes a) (_num_bytes b) <= magnitude a + magnitude b ->
      exists r,
        operator_plus (S fuel) a b = Ret (a, r)
        /\ carry_out a b = 1
        /\ _length r = MAX (_length a) (_length b) + 1
        /\ wf r
        /\ firstn 4 (_first_byte r) = [0; 0; 0; 1]
        /\ _flags r = _flags a
        /\ (_length a = _length b -> magnitude r = magnitude a + magnitude b))
  /\ (let a := operator_assign_uint (_constructor 0) 0xFFFFFFFF in
      let r := mk_bigbigint [0; 0; 0; 1; 0; 0; 0; 0] 8 2 0 in
      significant_words a = 1
      /\ carry_out a (of_int 1) = 0
      /\ operator_plus 1 a (of_int 1) = Ret (a, r)
      /\ magnitude r = 0x100000000
      /\ significant_words r = 2).
Proof.
  split; [| repeat split; vm_compute; reflexivity].
  intros fuel a b Ha Hb Hs Hov.
  assert (Hc : snd (add_bytes (rev (_first_byte a)) (rev (_first_byte b)) 0) = 1).
  { destruct Hov as [Hpos | Hov]; [| exact (add_bytes_overflow a b Ha Hb Hov)].
    unfold carry_out in Hpos.
    destruct Ha as (_ & _ & _ & Hra), Hb as (_ & _ & _ & Hrb).
    destruct (add_bytes_spec (rev (_first_byte a)) (rev (_first_byte b)) 0)
      as (_ & _ & H01 & _);
      [apply Forall_rev, Hra | apply Forall_rev, Hrb | lia |]. lia. }
  pose proof (add_same_sign_carry a b Ha Hb Hc) as Hr. cbv zeta in Hr.
  pose proof Ha as (Hla & Hna & Hlena & Hra).
  pose proof Hb as (Hlb & Hnb & Hlenb & Hrb).
  destruct (add_bytes_spec (rev (_first_byte a)) (rev (_first_byte b)) 0)
    as (Hk & Hbo & _ & Hsum);
    [apply Forall_rev, Hra | apply Forall_rev, Hrb | lia |].
  rewrite !length_rev in Hk, Hsum. rewrite Hc in Hsum.
  set (outs := fst (add_bytes (rev (_first_byte a)) (rev (_first_byte b)) 0)) in *.
  set (L := MAX (_length a) (_length b)) in *.
  assert (HL : BBI_MIN_SIZE <= L) by (subst L; rewrite MAX_max; lia).
  assert (Hko : (length outs <= length (zeros (L * sizeof_BBI_BASE_TYPE)))%nat).
  { unfold zeros. rewrite repeat_length. subst L. rewrite MAX_max.
    unfold sizeof_BBI_BASE_TYPE in *. lia. }
  exists (add_same_sign a b).
  rewrite (plus_same_sign fuel a b Hs). rewrite Hr.
  cbn [_length _num_bytes _first_byte _flags].
  repeat split.
  - exact Hc.
  - cbn [_length]. unfold BBI_MIN_SIZE in *. lia.
  - cbn [_first_byte _num_bytes]. cbn [app length].
    rewrite length_store_tail by exact Hko.
    pose proof (length_zeros (L * sizeof_BBI_BASE_TYPE)) as Hz.
    unfold BBI_MIN_SIZE, sizeof_BBI_BASE_TYPE in *. lia.
  - cbn [_first_byte]. apply Forall_app. split.
    + repeat constructor; lia.
    + unfold store_tail. apply Forall_app. split.
      * apply Forall_firstn_list, Forall_byte_zeros.
      * apply Forall_rev. exact Hbo.
  - intros Heq.
    assert (Hlen : length (_first_byte a) = length (_first_byte b)) by lia.
    rewrite Hlen, Nat.min_id in Hk, Hsum.
    rewrite !firstn_all2 in Hsum by (rewrite length_rev; lia).
    unfold magnitude. cbn [_first_byte].
    rewrite be_value_app, (be_value_le_combine (_first_byte a)),
      (be_value_le_combine (_first_byte b)).
    change (be_value [0; 0; 0; 1]) with 1.
    assert (Hst : store_tail (zeros (L * sizeof_BBI_BASE_TYPE)) outs = rev outs).
    { unfold store_tail.
      replace (length (zeros (L * sizeof_BBI_BASE_TYPE)) - length outs)%nat
        with 0%nat; [reflexivity |].
      unfold zeros. rewrite repeat_length. subst L. rewrite MAX_max.
      unfold sizeof_BBI_BASE_TYPE in *. lia. }
    rewrite Hst, length_rev, be_value_rev, Hk. lia.
Qed.

(** C3 at a concrete input: 0xFFFFFFFF_FFFFFFFF + 1 on two-word operands
    returns a three-word value. *)
Lemma add_carry_grows_result_example :
  wf (of_u64 0 0xFFFFFFFFFFFFFFFF) /\ wf (of_int 1)
  /\ is_negative (of_u64 0 0xFFFFFFFFFFFFFFFF) = is_negative (of_int 1)
  /\ (0 < carry_out (of_u64 0 0xFFFFFFFFFFFFFFFF) (of_int 1)
      \/ 256 ^ MAX (_num_bytes (of_u64 0 0xFFFFFFFFFFFFFFFF))
                   (_num_bytes (of_int 1))
         <= magnitude (of_u64 0 0xFFFFFFFFFFFFFFFF) + magnitude (of_int 1))
  /\ exists r,
       operator_plus 1 (of_u64 0 0xFFFFFFFFFFFFFFFF) (of_int 1)
       = Ret (of_u64 0 0xFFFFFFFFFFFFFFFF, r)
       /\ carry_out (of_u64 0 0xFFFFFFFFFFFFFFFF) (of_int 1) = 1
       /\ _length r
          = MAX (_length (of_u64 0 0xFFFFFFFFFFFFFFFF)) (_length (of_int 1)) + 1
       /\ wf r
       /\ firstn 4 (_first_byte r) = [0; 0; 0; 1]
       /\ _flags r = _flags (of_u64 0 0xFFFFFFFFFFFFFFFF)
       /\ (_length (of_u64 0 0xFFFFFFFFFFFFFFFF) = _length (of_int 1) ->
           magnitude r
           = magnitude (of_u64 0 0xFFFFFFFFFFFFFFFF) + magnitude (of_int 1)).
Proof.
  assert (Hov : 0 < carry_out (of_u64 0 0xFFFFFFFFFFFFFFFF) (of_int 1)
                \/ 256 ^ MAX (_num_bytes (of_u64 0 0xFFFFFFFFFFFFFFFF))
                             (_num_bytes (of_int 1))
                   <= magnitude (of_u64 0 0xFFFFFFFFFFFFFFFF)
                      + magnitude (of_int 1)).
  { right. vm_compute. discriminate. }
  refine (conj wf_u64_max (conj wf_of_int_1 (conj eq_refl (conj Hov _)))).
  exact (proj1 add_carry_grows_result 0%nat _ _ wf_u64_max wf_of_int_1 eq_refl Hov).
Defined.

(** For operands of one sign and one length whose sum fits their buffers,
    [a + b] leaves [a] as it is and returns the sum in a buffer of the same
    length, with the sign of the operands. *)
Theorem add_equal_length_is_sum (fuel : nat) (a b : bigbigint) :
  wf a -> wf b -> is_negative a = is_negative b -> _length a = _length b ->
  magnitude a + magnitude b < 256 ^ _num_bytes a ->
  exists r,
    operator_plus (S fuel) a b = Ret (a, r)
    /\ wf r
    /\ _length r = _length a
    /\ _flags r = _flags a
    /\ magnitude r = magnitude a + magnitude b.
Proof.
  intros Ha Hb Hs Hl Hfit.
  pose proof Ha as (Hla & Hna & Hlena & Hra).
  pose proof Hb as (Hlb & Hnb & Hlenb & Hrb).
  assert (Hlen : length (_first_byte b) = length (_first_byte a)) by lia.
  destruct (add_bytes_spec (rev (_first_byte a)) (rev (_first_byte b)) 0)
    as (Hk & Hbo & Hr01 & Hsum);
    [apply Forall_rev, Hra | apply Forall_rev, Hrb | lia |].
  rewrite !length_rev, Hlen, Nat.min_id in Hk, Hsum.
  rewrite !firstn_all2 in Hsum by (rewrite length_rev; lia).
  rewrite <- !be_value_le_combine in Hsum. fold (magnitude a) (magnitude b) in Hsum.
  pose proof (le_combine_bound _ Hbo) as Hob. rewrite Hk in Hob.
  assert (Hc : snd (add_bytes (rev (_first_byte a)) (rev (_first_byte b)) 0) = 0).
  { rewrite <- Hlena in Hfit.
    set (P := 256 ^ Z.of_nat (length (_first_byte a))) in *. nia. }
  pose proof (add_same_sign_no_carry a b Ha Hb Hc) as Hres. cbv zeta in Hres.
  rewrite Hc in Hsum.
  set (outs := fst (add_bytes (rev (_first_byte a)) (rev (_first_byte b)) 0)) in *.
  assert (HL : MAX (_length a) (_length b) = _length a)
    by (rewrite MAX_max; lia).
  rewrite HL in Hres.
  assert (Hz : length (zeros (_length a * sizeof_BBI_BASE_TYPE))
               = length (_first_byte a)).
  { unfold zeros. rewrite repeat_length. lia. }
  assert (Hst : store_tail (zeros (_length a * sizeof_BBI_BASE_TYPE)) outs
                = rev outs).
  { unfold store_tail. rewrite Hz, Hk, Nat.sub_diag. reflexivity. }
  rewrite Hst in Hres.
  exists (add_same_sign a b).
  rewrite (plus_same_sign fuel a b Hs), Hres.
  unfold magnitude at 1. cbn [_length _num_bytes _first_byte _flags].
  repeat split.
  - assumption.
  - cbn [_first_byte _num_bytes]. rewrite length_rev. lia.
  - cbn [_first_byte]. apply Forall_rev. exact Hbo.
  - rewrite be_value_rev. lia.
Qed.

(** 5 + 3 on default bigbigints. *)
Lemma add_equal_length_is_sum_example :
  wf (of_int 5) /\ wf (of_int 3)
  /\ is_negative (of_int 5) = is_negative (of_int 3)
  /\ _length (of_int 5) = _length (of_int 3)
  /\ magnitude (of_int 5) + magnitude (of_int 3) < 256 ^ _num_bytes (of_int 5)
  /\ exists r,
       operator_plus 1 (of_int 5) (of_int 3) = Ret (of_int 5, r)
       /\ wf r
       /\ _length r = _length (of_int 5)
       /\ _flags r = _flags (of_int 5)
       /\ magnitude r = magnitude (of_int 5) + magnitude (of_int 3).
Proof.
  assert (Hfit : magnitude (of_int 5) + magnitude (of_int 3)
                 < 256 ^ _num_bytes (of_int 5)) by (vm_compute; reflexivity).
  refine (conj wf_of_int_5 (conj wf_of_int_3 (conj eq_refl (conj eq_refl
            (conj Hfit _))))).
  exact (add_equal_length_is_sum 0 _ _ wf_of_int_5 wf_of_int_3 eq_refl eq_refl Hfit).
Defined.

(** ** Subtraction of non-negative values *)

Lemma ONES_COMPLEMENT_spec (v : bigbigint) :
  Z.of_nat (length (_first_byte v)) = _length v * sizeof_BBI_BASE_TYPE ->
  ONES_COMPLEMENT v
  = set_bytes v (map (fun b => Z.lxor b UCHAR_MAX) (_first_byte v)).
Proof.
  intros H. unfold ONES_COMPLEMENT. rewrite <- H, Nat2Z.id.
  rewrite firstn_all, skipn_all, app_nil_r. reflexivity.
Qed.

(** The end-around carry: adding [c] to a number that leaves room for it. *)
Lemma add_carry_spec (xs : list Z) (c : Z) :
  Forall is_byte xs -> 0 <= c <= 1 ->
  le_combine xs + c < 256 ^ Z.of_nat (length xs) ->
  le_combine (add_carry xs c) = le_combine xs + c
  /\ length (add_carry xs c) = length xs
  /\ Forall is_byte (add_carry xs c).
Proof.
  intros Hx. revert c.
  induction Hx as [| x xs Hbx Hxs IH]; intros c Hc Hfit.
  - cbn in *. repeat split; [lia | constructor].
  - cbn [add_carry]. cbn [le_combine length] in Hfit.
    rewrite Nat2Z.inj_succ, Z.pow_succ_r in Hfit by lia.
    unfold is_byte in Hbx.
    destruct (add_step (c + x) ltac:(lia)) as (Hout & _). rewrite Hout.
    unfold UCHAR_MAX. destruct (Z.leb_spec (c + x) 255) as [Hle | Hgt].
    + rewrite Z.mod_small by lia. cbn [le_combine length].
      repeat split; [lia | constructor; [unfold is_byte; lia | exact Hxs]].
    + assert (Hcx : c + x = 256) by lia. rewrite Hcx.
      change (256 mod 256) with 0. change (Z.shiftr 256 8) with 1.
      pose proof (le_combine_bound xs Hxs) as Hb.
      destruct (IH 1 ltac:(lia) ltac:(nia)) as (Hv & Hl & Hf).
      cbn [le_combine length]. rewrite Hv, Hl.
      repeat split; [lia | constructor; [unfold is_byte; lia | exact Hf]].
Qed.

Lemma minus_positive (fuel : nat) (a b : bigbigint) :
  is_negative a = false -> is_negative b = false ->
  operator_minus (S fuel) a b = Ret (a, sub_positive a b).
Proof.
  unfold is_negative. intros Ha Hb.
  destruct fuel; cbn [operator_plus operator_minus]; rewrite Ha, Hb; reflexivity.
Qed.

(** For non-negative operands of one length, [a - b] leaves [a] as it is and
    returns the distance of the magnitudes, with the sign bit set exactly
    when [a] is not the greater one: the difference of equal values is a
    zero with the sign bit set. *)
Theorem subtract_non_negative_equal_length (fuel : nat) (a b : bigbigint) :
  wf a -> wf b -> is_negative a = false -> is_negative b = false ->
  _length a = _length b ->
  exists r,
    operator_minus (S fuel) a b = Ret (a, r)
    /\ wf r
    /\ _length r = _length a
    /\ magnitude r = Z.abs (magnitude a - magnitude b)
    /\ is_negative r = (magnitude a <=? magnitude b).
Proof.
  intros Ha Hb Hsa Hsb Hl.
  pose proof Ha as (Hla & Hna & Hlena & Hra).
  pose proof Hb as (Hlb & Hnb & Hlenb & Hrb).
  assert (Hlen : length (_first_byte b) = length (_first_byte a)) by lia.
  exists (sub_positive a b). rewrite (minus_positive fuel a b Hsa Hsb).
  split; [reflexivity |].
  unfold sub_positive.
  assert (HL : MAX (_length a) (_length b) = _length b) by (rewrite MAX_max; lia).
  rewrite HL, (constructor_of_wf_length b Hb).
  rewrite operator_assign_same_size;
    [| rewrite <- (constructor_of_wf_length b Hb); apply wf_constructor
     | exact Hb | reflexivity].
  cbn [_num_bytes _length _first_byte _flags set_flags].
  unfold set_flags, set_bytes. cbn [_num_bytes _length _first_byte _flags].
  rewrite ONES_COMPLEMENT_spec by (cbn [_first_byte _length]; lia).
  unfold set_bytes. cbn [_num_bytes _length _first_byte _flags].
  set (cb := map (fun x => Z.lxor x UCHAR_MAX) (_first_byte b)).
  assert (Hcb : Forall is_byte cb) by (apply Forall_is_byte_complement, Hrb).
  assert (Hlcb : length cb = length (_first_byte a))
    by (subst cb; rewrite length_map; exact Hlen).
  destruct (add_bytes_spec (rev (_first_byte a)) (rev cb) 0)
    as (Hk & Hbo & Hr01 & Hsum);
    [apply Forall_rev, Hra | apply Forall_rev, Hcb | lia |].
  rewrite !length_rev, Hlcb, Nat.min_id in Hk, Hsum.
  rewrite !firstn_all2 in Hsum by (rewrite length_rev; lia).
  assert (Hcv : le_combine (rev cb)
                = 256 ^ Z.of_nat (length (_first_byte a)) - 1 - magnitude b).
  { subst cb. rewrite <- map_rev, le_combine_complement by (apply Forall_rev, Hrb).
    rewrite length_rev, Hlen. unfold magnitude.
    rewrite (be_value_le_combine (_first_byte b)). reflexivity. }
  rewrite Hcv in Hsum. rewrite <- be_value_le_combine in Hsum.
  fold (magnitude a) in Hsum.
  pose proof (le_combine_bound _ Hbo) as Hob. rewrite Hk in Hob.
  assert (HA : 0 <= magnitude a < 256 ^ Z.of_nat (length (_first_byte a))).
  { unfold magnitude. rewrite be_value_le_combine, <- (length_rev (_first_byte a)).
    apply le_combine_bound, Forall_rev, Hra. }
  assert (HB : 0 <= magnitude b < 256 ^ Z.of_nat (length (_first_byte a))).
  { unfold magnitude. rewrite be_value_le_combine, <- Hlen,
      <- (length_rev (_first_byte b)).
    apply le_combine_bound, Forall_rev, Hrb. }
  destruct (add_bytes (rev (_first_byte a)) (rev cb) 0) as [outs r].
  cbn [fst snd] in *.
  assert (Hst : store_tail cb outs = rev outs).
  { unfold store_tail. rewrite Hlcb, Hk, Nat.sub_diag. reflexivity. }
  rewrite Hst.
  set (P := 256 ^ Z.of_nat (length (_first_byte a))) in *.
  unfold is_negative in Hsa.
  destruct (Z.leb_spec (magnitude a) (magnitude b)) as [Hle | Hgt].
  - (* no carry: complement again, set the sign *)
    assert (r = 0) by nia. subst r. cbn [Z.leb Z.compare].
    rewrite ONES_COMPLEMENT_spec
      by (cbn [_first_byte _length]; rewrite length_rev; lia).
    unfold set_bytes. cbn [_num_bytes _length _first_byte _flags]. rewrite Hsa.
    unfold is_negative, magnitude. cbn [_num_bytes _length _first_byte _flags].
    repeat split; cbn [_num_bytes _length _first_byte _flags]; try lia.
    + rewrite length_map, length_rev. lia.
    + apply Forall_is_byte_complement, Forall_rev, Hbo.
    + rewrite map_rev, be_value_rev.
      rewrite le_combine_complement by exact Hbo. rewrite Hk. fold P.
      fold (magnitude a) (magnitude b). lia.
    + apply IS_NEGATIVE_set.
  - (* a carry: add it back *)
    assert (r = 1) by nia. subst r. cbn [Z.leb Z.compare].
    rewrite rev_involutive.
    destruct (add_carry_spec outs 1 Hbo ltac:(lia)) as (Hv & Hlc & Hfc);
      [rewrite Hk; fold P; lia |].
    unfold is_negative, magnitude.
    repeat split; cbn [_num_bytes _length _first_byte _flags]; try lia.
    + rewrite length_rev, Hlc. lia.
    + apply Forall_rev, Hfc.
    + rewrite be_value_rev, Hv. fold (magnitude a) (magnitude b). lia.
    + exact Hsa.
Qed.

(** 7 - 12 on default bigbigints is -5. *)
Lemma subtract_non_negative_equal_length_example :
  wf (of_int 7) /\ wf (of_int 12)
  /\ is_negative (of_int 7) = false /\ is_negative (of_int 12) = false
  /\ _length (of_int 7) = _length (of_int 12)
  /\ exists r,
       operator_minus 1 (of_int 7) (of_int 12) = Ret (of_int 7, r)
       /\ wf r
       /\ _length r = _length (of_int 7)
       /\ magnitude r = Z.abs (magnitude (of_int 7) - magnitude (of_int 12))
       /\ is_negative r = (magnitude (of_int 7) <=? magnitude (of_int 12)).
Proof.
  refine (conj wf_of_int_7 (conj wf_of_int_12 (conj eq_refl (conj eq_refl
            (conj eq_refl _))))).
  exact (subtract_non_negative_equal_length 0 _ _ wf_of_int_7 wf_of_int_12
           eq_refl eq_refl eq_refl).
Defined.

(** ** Addition of operands of different signs *)

(** With operands of different signs and the invariant, [operator +]
    returns: the difference of the magnitudes is assigned to the object it
    was called on, and that object is the value returned. *)
Theorem plus_mixed_sign_assigns_this (fuel : nat) (a b : bigbigint) :
  wf a -> wf b -> is_negative a = negb (is_negative b) ->
  operator_plus (S (S fuel)) a b
  = (let d := if is_negative a
              then sub_positive b (operator_neg a)
              else sub_positive a (operator_neg b) in
     Ret (operator_assign a d, operator_assign a d)).
Proof.
  unfold is_negative. intros Ha Hb Hs.
  assert (Hna : IS_NEGATIVE (_flags (operator_neg a))
                = negb (IS_NEGATIVE (_flags a))).
  { rewrite (operator_neg_spec a Ha). apply IS_NEGATIVE_toggle. }
  assert (Hnb : IS_NEGATIVE (_flags (operator_neg b))
                = negb (IS_NEGATIVE (_flags b))).
  { rewrite (operator_neg_spec b Hb). apply IS_NEGATIVE_toggle. }
  cbn [operator_plus operator_minus]. rewrite Hna, Hnb, Hs.
  destruct (IS_NEGATIVE (_flags b)); reflexivity.
Qed.

(** -5 + 3. *)
Lemma plus_mixed_sign_assigns_this_example :
  wf (of_int (-5)) /\ wf (of_int 3)
  /\ is_negative (of_int (-5)) = negb (is_negative (of_int 3))
  /\ operator_plus 2 (of_int (-5)) (of_int 3)
     = (let d := if is_negative (of_int (-5))
                 then sub_positive (of_int 3) (operator_neg (of_int (-5)))
                 else sub_positive (of_int (-5)) (operator_neg (of_int 3)) in
        Ret (operator_assign (of_int (-5)) d, operator_assign (of_int (-5)) d)).
Proof.
  assert (H5 : wf (of_int (-5))) by wf_by_computation.
  refine (conj H5 (conj wf_of_int_3 (conj eq_refl _))).
  exact (plus_mixed_sign_assigns_this 0 _ _ H5 wf_of_int_3 eq_refl).
Defined.

(** C4 (the code's behaviour): [a + b] with [a] = -5 and [b] = 3 returns -2
    and leaves -2 in [a]; with [a] = 7 and [b] = -12 it leaves -5 in [a]. *)
Theorem plus_overwrites_left_operand :
  operator_plus 2 (of_int (-5)) (of_int 3) = Ret (of_int (-2), of_int (-2))
  /\ operator_plus 2 (of_int 7) (of_int (-12)) = Ret (of_int (-5), of_int (-5))
  /\ operator_plus 2 (of_int 5) (of_int 3) = Ret (of_int 5, of_int 8).
Proof. repeat split; vm_compute; reflexivity. Qed.

(** ** Ordering *)

Lemma operator_assign_set_flags (t a : bigbigint) (f : Z) :
  _first_byte (operator_assign t (set_flags a f))
  = _first_byte (operator_assign t a)
  /\ _num_bytes (operator_assign t (set_flags a f))
     = _num_bytes (operator_assign t a).
Proof.
  unfold operator_assign. cbn [set_flags _num_bytes _first_byte].
  destruct (_num_bytes t =? _num_bytes a); [split; reflexivity |].
  destruct (_num_bytes t <? _num_bytes a); [split; reflexivity |].
  unfold zero_fill_n.
  destruct (_num_bytes t - _num_bytes a =? 0); split; reflexivity.
Qed.

(** The bigbigint comparisons never read a sign flag. *)
Lemma comp_result_ignores_flags (a b : bigbigint) (f g : Z) :
  comp_result (set_flags a f) (set_flags b g) = comp_result a b.
Proof.
  unfold comp_result. cbn [set_flags _length _num_bytes _first_byte].
  destruct (_length b >? _length a).
  - destruct (operator_assign_set_flags (_constructor (_length b)) a f) as (-> & _).
    reflexivity.
  - destruct (_length a >? _length b); [| reflexivity].
    destruct (operator_assign_set_flags (_constructor (_length a)) b g) as (-> & ->).
    reflexivity.
Qed.

(** C5 (the code's behaviour): -5 is negative and 3 is not, and
    [-5 < 3] is false while [-5 > 3] is true: the bytes of 5 and 3 are
    compared. *)
Theorem negative_not_less_than_positive :
  is_negative (of_int (-5)) = true
  /\ is_negative (of_int 3) = false
  /\ operator_lt (of_int (-5)) (of_int 3) = false
  /\ operator_gt (of_int (-5)) (of_int 3) = true.
Proof. repeat split; vm_compute; reflexivity. Qed.

(** ** Left shift *)

(** For a shift count between 1 and [INT_MAX] the variable [shift_value]
    is the count less one, so it is zero for the count 1 alone. *)
Lemma shift_value_of_spec (Shift : Z) :
  0 < Shift < 2 ^ 31 -> shift_value_of Shift = Shift - 1.
Proof.
  intros H. unfold shift_value_of, INT_BITS, ULONG_BITS, to_unsigned.
  change (1 mod 8) with 1.
  rewrite (Z.mod_small (Shift - 1)) by lia.
  apply to_signed_in_range; lia.
Qed.

(** A shift by one bit takes the copying branch and returns the magnitude
    as it is. *)
Lemma operator_shl_int_1 (fuel : nat) (this : bigbigint) :
  wf this ->
  operator_shl_int fuel this 1
  = Ret (mk_bigbigint (_first_byte this) (_num_bytes this) (_length this) 0).
Proof.
  intros Hwf. pose proof Hwf as (Hl & Hnb & Hlen & _).
  unfold operator_shl_int. cbn [Z.ltb Z.compare].
  change (to_unsigned ULONG_BITS 1) with 1.
  unfold operator_shl. change (shift_value_of 1 =? 0) with true.
  change (1 / 8) with 0. cbv iota.
  assert (H0 : (0 <=? _num_bytes this) = true).
  { apply Z.leb_le. unfold BBI_MIN_SIZE, sizeof_BBI_BASE_TYPE in *. lia. }
  rewrite H0. rewrite Z.sub_0_r.
  rewrite (constructor_of_wf_length this Hwf).
  rewrite assign_int_zero_wf.
  2:{ rewrite <- (constructor_of_wf_length this Hwf). apply wf_constructor. }
  cbn [_num_bytes _length _first_byte set_bytes].
  rewrite memcpy_whole; [reflexivity | assumption |].
  apply length_zeros. unfold BBI_MIN_SIZE, sizeof_BBI_BASE_TYPE in *. lia.
Qed.

(** A shift by a whole number of bytes does not take the copying branch. *)
Lemma byte_aligned_shift_takes_loop (Shift : Z) :
  0 < Shift < 2 ^ 31 -> Shift mod 8 = 0 -> (shift_value_of Shift =? 0) = false.
Proof.
  intros H Hm. rewrite shift_value_of_spec by assumption.
  apply Z.eqb_neq. intros H1. assert (Shift = 1) by lia. subst Shift.
  discriminate.
Qed.

(** The shift by 8 bits. *)
Lemma byte_aligned_shift_takes_loop_example :
  0 < 8 < 2 ^ 31 /\ 8 mod 8 = 0 /\ (shift_value_of 8 =? 0) = false.
Proof.
  assert (H : 0 < 8 < 2 ^ 31) by (split; reflexivity).
  refine (conj H (conj eq_refl _)).
  exact (byte_aligned_shift_takes_loop 8 H eq_refl).
Defined.

(** C6 (the code's behaviour): for a shift by 8 bits [shift_value] is 7, not
    0, and the two-word value 0x1_00000002 comes out shifted by 15 bits:
    0x8000_00010000 where 256 times the value is 0x100_00000200. *)
Theorem shift_left_by_8_shifts_by_15 :
  shift_value_of 8 = 7
  /\ significant_words (of_u64 0 0x100000002) = 2
  /\ operator_shl 8 (of_u64 0 0x100000002) 8
     = Ret (mk_bigbigint [0; 0; 128; 0; 0; 1; 0; 0] 8 2 0)
  /\ magnitude (mk_bigbigint [0; 0; 128; 0; 0; 1; 0; 0] 8 2 0)
     = 0x800000010000
  /\ magnitude (of_u64 0 0x100000002) * 256 = 0x10000000200.
Proof. repeat split; vm_compute; reflexivity. Qed.

(** ** Bitwise or *)

Lemma or_loop_never_returns
    (fuel : nat) (this OrVal : list Z) (tVal : bigbigint) (i : Z) :
  _num_bytes tVal <> 0 -> returned (or_loop fuel this OrVal tVal i) = false.
Proof.
  revert tVal i. induction fuel as [| fuel IH]; intros tVal i Hn; simpl.
  - reflexivity.
  - destruct (Z.eqb_spec (_num_bytes tVal) 0) as [H0 | _]; [contradiction |].
    simpl.
    destruct (load_byte this i); [| reflexivity].
    destruct (load_byte OrVal i); [| reflexivity].
    destruct (store_byte (_first_byte tVal) i (Z.lor z z0)); [| reflexivity].
    apply IH. exact Hn.
Qed.

Lemma or_loop_never_exits
    (fuel : nat) (this OrVal : list Z) (tVal : bigbigint) (i c : Z) :
  or_loop fuel this OrVal tVal i <> Exit c.
Proof.
  revert tVal i. induction fuel as [| fuel IH]; intros tVal i; cbn [or_loop].
  - discriminate.
  - destruct (negb (_num_bytes tVal =? 0)); [| discriminate].
    destruct (load_byte this i); [| discriminate].
    destruct (load_byte OrVal i); [| discriminate].
    destruct (store_byte (_first_byte tVal) i (Z.lor z z0)); [| discriminate].
    apply IH.
Qed.

(** The call of [operator |] does not come back: the test of its loop is the
    byte count of the result, which is never zero. *)
Lemma operator_or_not_returned (fuel : nat) (this OrVal : bigbigint) :
  returned (operator_or fuel this OrVal) = false.
Proof.
  unfold operator_or. apply or_loop_never_returns.
  destruct (assign_int_zero (_constructor (_length this))) as (_ & Hn & _).
  { destruct (wf_constructor (_length this)) as (_ & _ & Hlen & _). lia. }
  rewrite Hn.
  destruct (constructor_fields (_length this)) as (Hl & Hnb & _).
  unfold BBI_MIN_SIZE, sizeof_BBI_BASE_TYPE in *. lia.
Qed.

(** C10 (the code's behaviour): [operator |] is not total.  For all operands
    and every budget of iterations the call ends outside a buffer or is
    still in its loop, and never calls [exit]; on the default operands 1
    and 2 it leaves the 8-byte buffers at index 8, after 8 passes. *)
Theorem operator_or_never_returns :
  (forall (fuel : nat) (this OrVal : bigbigint),
      operator_or fuel this OrVal = Fault
      \/ operator_or fuel this OrVal = OutOfFuel)
  /\ operator_or 8 (of_int 1) (of_int 2) = OutOfFuel
  /\ operator_or 9 (of_int 1) (of_int 2) = Fault.
Proof.
  split; [| split; vm_compute; reflexivity].
  intros fuel this OrVal.
  pose proof (operator_or_not_returned fuel this OrVal) as Hr.
  pose proof (or_loop_never_exits fuel (_first_byte this) (_first_byte OrVal)
                (operator_assign_int (_constructor (_length this)) 0) 0) as He.
  fold (operator_or fuel this OrVal) in He.
  destruct (operator_or fuel this OrVal) as [r | c | |].
  - discriminate Hr.
  - exfalso. exact (He c eq_refl).
  - left. reflexivity.
  - right. reflexivity.
Qed.

(** ** Division *)

Lemma eq_int_zero_of_all_zero (v : bigbigint) :
  all_zero (_first_byte v) -> operator_eq_int v 0 = true.
Proof.
  intros Hz. unfold operator_eq_int.
  destruct (assign_int_zero (_constructor (_length v))) as (Ht & _).
  { destruct (wf_constructor (_length v)) as (_ & _ & Hlen & _). lia. }
  rewrite memcmp_all_zero by assumption. reflexivity.
Qed.

(** C7: whatever the dividend and the objects that receive the results, a
    divisor whose magnitude is zero makes [_perform_integral_division] call
    [exit(199)]; no quotient is returned, and [operator /] does not return
    either. *)
Theorem division_by_zero_exits
    (fuel : nat) (dividend divisor quotient remainder : bigbigint) :
  wf divisor -> magnitude divisor = 0 ->
  _perform_integral_division fuel dividend divisor quotient remainder = Exit 199
  /\ operator_div fuel dividend divisor = Exit 199.
Proof.
  intros Hwf Hm.
  pose proof (eq_int_zero_of_all_zero divisor
                (magnitude_zero_all_zero divisor Hwf Hm)) as Heq.
  assert (Hd : forall q r,
             _perform_integral_division fuel dividend divisor q r = Exit 199).
  { intros q r. unfold _perform_integral_division. rewrite Heq. reflexivity. }
  split; [apply Hd |].
  unfold operator_div. rewrite Hd. reflexivity.
Qed.

(** C7 at a concrete input: 100 divided by 0. *)
Lemma division_by_zero_exits_example :
  wf (of_int 0) /\ magnitude (of_int 0) = 0
  /\ _perform_integral_division 10 (of_int 100) (of_int 0)
       (_constructor 0) (_constructor 0) = Exit 199
  /\ operator_div 10 (of_int 100) (of_int 0) = Exit 199.
Proof.
  assert (Hwf : wf (of_int 0)) by wf_by_computation.
  assert (Hm : magnitude (of_int 0) = 0) by reflexivity.
  refine (conj Hwf (conj Hm _)).
  exact (division_by_zero_exits 10 (of_int 100) (of_int 0)
           (_constructor 0) (_constructor 0) Hwf Hm).
Defined.

Lemma returned_bind_l {A B : Type} (m : outcome A) (k : A -> outcome B) :
  returned m = false -> returned (bind m k) = false.
Proof. destruct m; simpl; intros H; [discriminate | | |]; reflexivity. Qed.

Lemma returned_bind_r {A B : Type} (m : outcome A) (k : A -> outcome B) :
  (forall a, returned (k a) = false) -> returned (bind m k) = false.
Proof. intros H. destruct m; simpl; [apply H | | |]; reflexivity. Qed.

Lemma wf_clear_flags (d : bigbigint) :
  wf d -> wf (mk_bigbigint (_first_byte d) (_num_bytes d) (_length d) 0).
Proof. intros H. exact H. Qed.

Lemma wf_first_byte (v : bigbigint) :
  wf v -> exists b, load_byte (_first_byte v) 0 = Some b.
Proof.
  intros (Hl & Hnb & Hlen & _). unfold load_byte. cbn.
  destruct (_first_byte v) as [| b bs]; [| exists b; reflexivity].
  unfold BBI_MIN_SIZE, sizeof_BBI_BASE_TYPE in *. cbn in Hlen. lia.
Qed.

(** The first loop does not end when the top bit of the dividend is clear:
    [dividend << 1] returns the dividend, so the bit tested stays clear. *)
Lemma skip_zero_bits_never_returns
    (fuel : nat) (dividend : bigbigint) (b num_bits num_bytes : Z) :
  wf dividend ->
  load_byte (_first_byte dividend) 0 = Some b -> Z.land b 0x80 = 0 ->
  skip_zero_bits fuel dividend 0 num_bits num_bytes = OutOfFuel.
Proof.
  revert dividend num_bits num_bytes.
  induction fuel as [| fuel IH]; intros d nbits nbytes Hwf Hb H0;
    [reflexivity |].
  cbn [skip_zero_bits]. cbn [Z.eqb].
  rewrite (operator_shl_int_1 fuel d Hwf). cbn [bind].
  rewrite operator_assign_same_size;
    [| assumption | apply wf_clear_flags; assumption | reflexivity].
  cbn [_first_byte _num_bytes _length _flags].
  rewrite Hb, H0.
  destruct (nbits + 1 =? 8); apply IH; try assumption; apply wf_clear_flags, Hwf.
Qed.

(** The second loop does not return: its first pass calls [operator |=]. *)
Lemma div_loop_never_returns
    (fuel : nat) (dividend divisor quotient remainder sub_val : bigbigint)
    (num_bits : Z) :
  wf dividend ->
  returned (div_loop fuel dividend divisor quotient remainder sub_val
              num_bits 0) = false.
Proof.
  intros (Hl & Hnb & Hlen & _).
  destruct fuel as [| fuel]; [reflexivity |].
  cbn [div_loop].
  assert (H0 : (0 <? _num_bytes dividend) = true).
  { apply Z.ltb_lt. unfold BBI_MIN_SIZE, sizeof_BBI_BASE_TYPE in *. lia. }
  rewrite H0.
  destruct (load_byte (_first_byte dividend) 0); [| reflexivity].
  apply returned_bind_r. intros r1.
  apply returned_bind_l.
  unfold operator_or_assign_prim. apply returned_bind_l.
  unfold operator_or_prim. apply operator_or_not_returned.
Qed.

(** Past its five early exits, [_perform_integral_division] never returns. *)
Lemma division_returns_only_early
    (fuel : nat) (dividend divisor quotient remainder : bigbigint) :
  wf dividend ->
  operator_eq_int divisor 0 = false ->
  operator_gt divisor dividend = false ->
  operator_eq divisor dividend = false ->
  operator_eq_int dividend 1 = false ->
  operator_eq_int dividend 0 = false ->
  returned (_perform_integral_division fuel dividend divisor quotient remainder)
  = false.
Proof.
  intros Hwf H1 H2 H3 H4 H5. unfold _perform_integral_division.
  rewrite H1, H2, H3, H4, H5.
  destruct (wf_first_byte dividend Hwf) as [b Hb]. rewrite Hb.
  destruct (Z.eq_dec (Z.land b 0x80) 0) as [H0 | Hn].
  - rewrite H0.
    rewrite (skip_zero_bits_never_returns fuel dividend b 0 0 Hwf Hb H0).
    reflexivity.
  - destruct fuel as [| fuel]; [reflexivity |].
    cbn [skip_zero_bits].
    destruct (Z.eqb_spec (Z.land b 128) 0) as [He | _]; [contradiction |].
    cbn [bind]. apply div_loop_never_returns. assumption.
Qed.

(** 0x80000000_00000000 divided by 7: the top bit of the dividend is set,
    and the first pass of the second loop does not come back. *)
Lemma division_returns_only_early_example :
  wf (of_u64 0 0x8000000000000000)
  /\ operator_eq_int (of_int 7) 0 = false
  /\ operator_gt (of_int 7) (of_u64 0 0x8000000000000000) = false
  /\ operator_eq (of_int 7) (of_u64 0 0x8000000000000000) = false
  /\ operator_eq_int (of_u64 0 0x8000000000000000) 1 = false
  /\ operator_eq_int (of_u64 0 0x8000000000000000) 0 = false
  /\ returned (_perform_integral_division 50 (of_u64 0 0x8000000000000000)
                 (of_int 7) (_constructor 0) (_constructor 0)) = false.
Proof.
  refine (conj wf_u64_top_bit (conj eq_refl (conj eq_refl (conj eq_refl
            (conj eq_refl (conj eq_refl _)))))).
  exact (division_returns_only_early 50 _ (of_int 7) (_constructor 0)
           (_constructor 0) wf_u64_top_bit eq_refl eq_refl eq_refl eq_refl
           eq_refl).
Defined.

(** C2 (the code's behaviour): 100 divided by 7 never returns.  The top bit
    of the dividend's first byte is clear and [dividend << 1] leaves the
    dividend as it is, so the loop that skips the leading zero bits runs
    for every budget of iterations; no quotient 14 or remainder 2 is
    produced. *)
Theorem division_100_by_7_never_returns (fuel : nat) :
  _perform_integral_division fuel (of_int 100) (of_int 7)
      (_constructor 0) (_constructor 0) = OutOfFuel
  /\ operator_div fuel (of_int 100) (of_int 7) = OutOfFuel.
Proof.
  assert (H : _perform_integral_division fuel (of_int 100) (of_int 7)
                (_constructor 0) (_constructor 0) = OutOfFuel).
  { unfold _perform_integral_division.
    change (operator_eq_int (of_int 7) 0) with false.
    change (operator_gt (of_int 7) (of_int 100)) with false.
    change (operator_eq (of_int 7) (of_int 100)) with false.
    change (operator_eq_int (of_int 100) 1) with false.
    change (operator_eq_int (of_int 100) 0) with false.
    change (load_byte (_first_byte (of_int 100)) 0) with (Some 0).
    cbv iota. change (Z.land 0 128) with 0.
    rewrite (skip_zero_bits_never_returns fuel (of_int 100) 0 0 0
               wf_of_int_100 eq_refl eq_refl).
    reflexivity. }
  split; [exact H |].
  unfold operator_div. rewrite H. reflexivity.
Qed.

(** ** Division of machine integers *)

Lemma top_bit_div (x : Z) : 0 <= x < 2 ^ 32 -> top_bit x = x / 2 ^ 31.
Proof.
  intros Hx. unfold top_bit.
  rewrite Z.shiftr_div_pow2 by lia.
  change 0x80000000 with (2 ^ 31).
  assert (Hh1 : x / 2 ^ 31 < 2) by (apply Z.div_lt_upper_bound; lia).
  assert (Hh0 : 0 <= x / 2 ^ 31) by (apply Z.div_pos; lia).
  assert (Hl : Z.land x (2 ^ 31) = 2 ^ 31 * (x / 2 ^ 31)).
  { apply Z.bits_inj'. intros n Hn.
    rewrite Z.land_spec.
    assert (Hc : x / 2 ^ 31 = 0 \/ x / 2 ^ 31 = 1) by lia.
    destruct Hc as [Hc | Hc]; rewrite Hc.
    - rewrite Z.mul_0_r, Z.bits_0.
      destruct (Z.eq_dec n 31) as [->|Hne].
      + assert (Ht : Z.testbit x 31 = false).
        { apply Z.testbit_false; [lia|]. rewrite Hc. reflexivity. }
        rewrite Ht. reflexivity.
      + rewrite Z.pow2_bits_false by lia. apply andb_false_r.
    - rewrite Z.mul_1_r.
      destruct (Z.eq_dec n 31) as [->|Hne].
      + assert (Ht : Z.testbit x 31 = true).
        { apply Z.testbit_true; [lia|]. rewrite Hc. reflexivity. }
        rewrite Ht. rewrite Z.pow2_bits_true by lia. reflexivity.
      + rewrite Z.pow2_bits_false by lia. apply andb_false_r. }
  rewrite Hl. rewrite Z.mul_comm. apply Z.div_mul. lia.
Qed.

Lemma lor_low_bit (a b : Z) :
  0 <= a -> 0 <= b <= 1 -> Z.lor (2 * a) b = 2 * a + b.
Proof.
  intros Ha Hb.
  assert (Hc : b = 0 \/ b = 1) by lia.
  destruct Hc as [-> | ->].
  - rewrite Z.lor_0_r. lia.
  - destruct a as [|p|p]; [reflexivity|reflexivity|lia].
Qed.

Lemma shift_in_bit (r b : Z) :
  0 <= r -> 2 * r < 2 ^ 32 -> 0 <= b <= 1 ->
  Z.lor (to_unsigned UINT_BITS (Z.shiftl r 1)) b = 2 * r + b.
Proof.
  intros Hr Hlt Hb. unfold to_unsigned, UINT_BITS.
  rewrite Z.shiftl_mul_pow2 by lia.
  change (2 ^ 1) with 2.
  rewrite Z.mod_small by lia.
  rewrite Z.mul_comm. apply lor_low_bit; lia.
Qed.

Lemma pow2_split (n : nat) :
  (n <= 32)%nat -> 2 ^ (32 - Z.of_nat n) * 2 ^ Z.of_nat n = 2 ^ 32.
Proof.
  intros Hn. rewrite <- Z.pow_add_r by lia. f_equal. lia.
Qed.

(** One bit leaves the top of the dividend: [lo] are the [S m] bits still
    to come, held at the top of the 32-bit word. *)
Lemma shift_step (m : nat) (lo : Z) :
  (S m <= 32)%nat -> 0 <= lo < 2 ^ Z.of_nat (S m) ->
  let dividend := lo * 2 ^ (32 - Z.of_nat (S m)) in
  top_bit dividend = lo / 2 ^ Z.of_nat m
  /\ 0 <= lo / 2 ^ Z.of_nat m <= 1
  /\ to_unsigned UINT_BITS (Z.shiftl dividend 1)
     = (lo mod 2 ^ Z.of_nat m) * 2 ^ (32 - Z.of_nat m)
  /\ 0 <= dividend < 2 ^ 32.
Proof.
  intros Hm Hlo dividend. subst dividend.
  pose proof (pow2_split (S m) Hm) as HS.
  assert (Hm' : (m <= 32)%nat) by lia.
  pose proof (pow2_split m Hm') as HM.
  rewrite Nat2Z.inj_succ in *.
  rewrite Z.pow_succ_r in * by lia.
  set (P := 2 ^ Z.of_nat m) in *.
  set (E := 2 ^ (32 - Z.succ (Z.of_nat m))) in *.
  assert (HP : 0 < P) by (apply Z.pow_pos_nonneg; lia).
  assert (HE : 0 < E) by (apply Z.pow_pos_nonneg; lia).
  assert (HE2 : 2 ^ (32 - Z.of_nat m) = 2 * E).
  { unfold E. rewrite <- Z.pow_succ_r by lia. f_equal. lia. }
  rewrite HE2 in *.
  assert (H31 : 2 ^ 31 = E * P) by nia.
  assert (Hb0 : 0 <= lo / P) by (apply Z.div_pos; lia).
  assert (Hb1 : lo / P < 2) by (apply Z.div_lt_upper_bound; lia).
  assert (Hrange : 0 <= lo * E < 2 ^ 32) by nia.
  repeat split; try lia.
  - rewrite top_bit_div by exact Hrange.
    rewrite H31. rewrite (Z.mul_comm E P).
    rewrite Z.div_mul_cancel_r by lia. reflexivity.
  - unfold to_unsigned, UINT_BITS.
    rewrite Z.shiftl_mul_pow2 by lia. change (2 ^ 1) with 2.
    pose proof (Z.div_mod lo P ltac:(lia)) as Hdm.
    pose proof (Z.mod_pos_bound lo P HP) as Hmb.
    replace (lo * E * 2) with ((lo mod P) * (2 * E) + (lo / P) * 2 ^ 32) by nia.
    rewrite Z.mod_add by lia.
    apply Z.mod_small. nia.
Qed.

Section UnsignedDivide.

Variable divisor : Z.
Hypothesis divisor_pos : 0 < divisor.

(** The aligning loop stops one pass after the remainder was last below the
    divisor; [hi1], [lo1] and [n1] describe that pass. *)
Lemma align_loop_spec (n : nat) :
  forall (fuel : nat) (hi lo : Z) (d : option Z),
  (n < fuel)%nat -> (n <= 32)%nat ->
  0 <= hi < divisor -> 0 <= lo < 2 ^ Z.of_nat n ->
  divisor <= hi * 2 ^ Z.of_nat n + lo < 2 ^ 32 ->
  exists (n1 : nat) (hi1 lo1 dv : Z),
    (1 <= n1 <= n)%nat
    /\ align_loop fuel (lo * 2 ^ (32 - Z.of_nat n)) divisor hi d (Z.of_nat n)
       = Ret (dv, 2 * hi1 + lo1 / 2 ^ (Z.of_nat n1 - 1),
              Some (lo1 * 2 ^ (32 - Z.of_nat n1)), Z.of_nat n1 - 1)
    /\ 0 <= hi1 < divisor
    /\ divisor <= 2 * hi1 + lo1 / 2 ^ (Z.of_nat n1 - 1)
    /\ 0 <= lo1 < 2 ^ Z.of_nat n1
    /\ hi1 * 2 ^ Z.of_nat n1 + lo1 = hi * 2 ^ Z.of_nat n + lo.
Proof.
  induction n as [|m IH]; intros fuel hi lo d Hf Hn Hhi Hlo HD.
  - change (2 ^ Z.of_nat 0) with 1 in *. lia.
  - destruct fuel as [|f]; [lia|].
    destruct (shift_step m lo Hn Hlo) as (Hbit & Hb & Hdv & Hrng).
    cbn [align_loop].
    destruct (Z.ltb_spec hi divisor) as [_|]; [|lia].
    rewrite Hbit, Hdv.
    assert (HP : 0 < 2 ^ Z.of_nat m) by (apply Z.pow_pos_nonneg; lia).
    assert (HSm : 2 ^ Z.of_nat (S m) = 2 * 2 ^ Z.of_nat m).
    { rewrite Nat2Z.inj_succ, Z.pow_succ_r by lia. reflexivity. }
    pose proof (Z.div_mod lo (2 ^ Z.of_nat m) ltac:(lia)) as Hdm.
    pose proof (Z.mod_pos_bound lo (2 ^ Z.of_nat m) HP) as Hmb.
    rewrite shift_in_bit by nia.
    assert (Hnb : to_unsigned UINT_BITS (Z.of_nat (S m) - 1) = Z.of_nat m).
    { unfold to_unsigned, UINT_BITS. rewrite Z.mod_small by lia. lia. }
    rewrite Hnb.
    destruct (Z.lt_ge_cases (2 * hi + lo / 2 ^ Z.of_nat m) divisor) as [Hlt|Hge].
    + destruct (IH f (2 * hi + lo / 2 ^ Z.of_nat m) (lo mod 2 ^ Z.of_nat m)
                  (Some (lo * 2 ^ (32 - Z.of_nat (S m))))) 
        as (n1 & hi1 & lo1 & dv & Hn1 & Heq & H1 & H2 & H3 & H4);
        try lia.
      exists n1, hi1, lo1, dv.
      repeat split; try lia; try exact Heq; rewrite H4; nia.
    + exists (S m), hi, lo, ((lo mod 2 ^ Z.of_nat m) * 2 ^ (32 - Z.of_nat m)).
      replace (Z.of_nat (S m) - 1) with (Z.of_nat m) by lia.
      repeat split; try lia.
      destruct f as [|f']; [lia|].
      cbn [align_loop].
      destruct (Z.ltb_spec (2 * hi + lo / 2 ^ Z.of_nat m) divisor); [lia|].
      reflexivity.
Qed.

(** One pass of the subtracting loop. *)
Lemma subtract_loop_spec (n : nat) :
  forall (hi lo q0 : Z),
  (n <= 32)%nat -> divisor <= 2 ^ 31 ->
  0 <= hi < divisor -> 0 <= lo < 2 ^ Z.of_nat n ->
  hi * 2 ^ Z.of_nat n + lo < 2 ^ 32 ->
  0 <= q0 < 2 ^ (32 - Z.of_nat n) ->
  subtract_loop n (lo * 2 ^ (32 - Z.of_nat n)) divisor q0 hi
  = (q0 * 2 ^ Z.of_nat n + (hi * 2 ^ Z.of_nat n + lo) / divisor,
     (hi * 2 ^ Z.of_nat n + lo) mod divisor).
Proof.
  induction n as [|m IH]; intros hi lo q0 Hn Hd Hhi Hlo HV Hq.
  - change (2 ^ Z.of_nat 0) with 1 in *.
    cbn [subtract_loop].
    replace (hi * 1 + lo) with hi by lia.
    rewrite Z.div_small, Z.mod_small by lia. f_equal. lia.
  - destruct (shift_step m lo Hn Hlo) as (Hbit & Hb & Hdv & Hrng).
    cbn [subtract_loop]. cbv zeta.
    rewrite Hbit, Hdv.
    assert (HP : 0 < 2 ^ Z.of_nat m) by (apply Z.pow_pos_nonneg; lia).
    assert (HSm : 2 ^ Z.of_nat (S m) = 2 * 2 ^ Z.of_nat m).
    { rewrite Nat2Z.inj_succ, Z.pow_succ_r by lia. reflexivity. }
    assert (HE : 2 ^ (32 - Z.of_nat m) = 2 * 2 ^ (32 - Z.of_nat (S m))).
    { rewrite <- Z.pow_succ_r by lia. f_equal. lia. }
    pose proof (pow2_split (S m) Hn) as HS.
    assert (HE0 : 0 < 2 ^ (32 - Z.of_nat (S m))) by (apply Z.pow_pos_nonneg; lia).
    pose proof (Z.div_mod lo (2 ^ Z.of_nat m) ltac:(lia)) as Hdm.
    pose proof (Z.mod_pos_bound lo (2 ^ Z.of_nat m) HP) as Hmb.
    set (P := 2 ^ Z.of_nat m) in *.
    set (b := lo / P) in *.
    set (lo' := lo mod P) in *.
    rewrite HSm in *.
    assert (Hh2 : 2 * hi <= hi * (2 * P)) by nia.
    rewrite !(shift_in_bit hi b) by lia.
    assert (Hq2 : 2 * q0 < 2 * 2 ^ (32 - Z.of_nat (S m))) by lia.
    assert (Hq3 : 2 * 2 ^ (32 - Z.of_nat (S m)) <= 2 ^ 32).
    { rewrite <- HS. nia. }
    assert (HV0 : (2 * hi + b) * P + lo' = hi * (2 * P) + lo)
      by (rewrite Hdm; ring).
    assert (HV1 : (2 * hi + b - divisor) * P + lo'
                  = hi * (2 * P) + lo + (- P) * divisor)
      by (rewrite Hdm; ring).
    assert (HdP : 0 <= divisor * P) by nia.
    destruct (Z.lt_ge_cases (2 * hi + b) divisor) as [Hlt|Hge].
    + (* the divisor does not fit: the difference wraps, its top bit is set *)
      assert (Ht : to_unsigned UINT_BITS (2 * hi + b - divisor)
                   = 2 * hi + b - divisor + 2 ^ 32).
      { unfold to_unsigned, UINT_BITS.
        symmetry. apply Z.mod_unique with (q := -1); lia. }
      rewrite Ht.
      rewrite top_bit_div by lia.
      assert (Htb : (2 * hi + b - divisor + 2 ^ 32) / 2 ^ 31 = 1).
      { symmetry. apply Z.div_unique with (r := 2 * hi + b - divisor + 2 ^ 31); lia. }
      rewrite Htb. cbn [Z.eqb negb].
      rewrite (shift_in_bit q0 0) by lia.
      rewrite (IH (2 * hi + b) lo' (2 * q0 + 0)
                 ltac:(lia) Hd ltac:(lia) Hmb ltac:(lia) ltac:(lia)).
      rewrite HV0. f_equal. ring.
    + assert (Ht : to_unsigned UINT_BITS (2 * hi + b - divisor)
                   = 2 * hi + b - divisor).
      { unfold to_unsigned, UINT_BITS. apply Z.mod_small. lia. }
      rewrite Ht.
      rewrite top_bit_div by lia.
      rewrite Z.div_small by lia. cbn [Z.eqb negb].
      rewrite (shift_in_bit q0 1) by lia.
      rewrite (IH (2 * hi + b - divisor) lo' (2 * q0 + 1)
                 ltac:(lia) Hd ltac:(lia) Hmb ltac:(lia) ltac:(lia)).
      rewrite HV1.
      rewrite Z.div_add, Z.mod_add by lia.
      f_equal. ring.
Qed.

(** A single pass that subtracts, for any divisor. *)
Lemma subtract_loop_one (hi lo : Z) :
  0 <= hi < divisor -> 0 <= lo < 2 -> divisor <= 2 * hi + lo < 2 ^ 32 ->
  subtract_loop 1 (lo * 2 ^ 31) divisor 0 hi
  = ((2 * hi + lo) / divisor, (2 * hi + lo) mod divisor).
Proof.
  intros Hhi Hlo HV.
  assert (H1 : (1 <= 32)%nat) by lia.
  assert (Hlo' : 0 <= lo < 2 ^ Z.of_nat 1) by (change (2 ^ Z.of_nat 1) with 2; lia).
  destruct (shift_step 0 lo H1 Hlo') as (Hbit & Hb & Hdv & Hrng).
  change (2 ^ (32 - Z.of_nat 1)) with (2 ^ 31) in *.
  change (2 ^ Z.of_nat 0) with 1 in *.
  rewrite Z.div_1_r in *.
  cbn [subtract_loop]. cbv zeta.
  rewrite Hbit.
  rewrite !(shift_in_bit hi lo) by lia.
  assert (Ht : to_unsigned UINT_BITS (2 * hi + lo - divisor)
               = 2 * hi + lo - divisor).
  { unfold to_unsigned, UINT_BITS. apply Z.mod_small. lia. }
  rewrite Ht.
  rewrite top_bit_div by lia.
  rewrite Z.div_small by lia. cbn [Z.eqb negb].
  rewrite (shift_in_bit 0 1) by lia.
  f_equal.
  - apply Z.div_unique with (r := 2 * hi + lo - divisor); lia.
  - apply Z.mod_unique with (q := 1); lia.
Qed.

Lemma unsigned_divide_spec (fuel : nat) (dividend : Z) :
  (32 < fuel)%nat -> 0 <= dividend < 2 ^ 32 -> divisor < 2 ^ 32 ->
  unsigned_divide fuel dividend divisor
  = Ret (dividend / divisor, dividend mod divisor).
Proof.
  intros Hf HD Hd. unfold unsigned_divide.
  destruct (Z.eqb_spec divisor 0) as [|_]; [lia|].
  destruct (Z.gtb_spec divisor dividend) as [Hgt|Hle].
  { rewrite Z.div_small, Z.mod_small by lia. reflexivity. }
  destruct (Z.eqb_spec divisor dividend) as [Heq|Hne].
  { subst dividend. rewrite Z.div_same, Z.mod_same by lia. reflexivity. }
  assert (H32 : (32 <= 32)%nat) by lia.
  destruct (align_loop_spec 32 fuel 0 dividend None Hf H32)
    as (n1 & hi1 & lo1 & dv & Hn1 & Heq & H1 & H2 & H3 & H4).
  { lia. }
  { change (2 ^ Z.of_nat 32) with (2 ^ 32). lia. }
  { change (2 ^ Z.of_nat 32) with (2 ^ 32). lia. }
  change (2 ^ (32 - Z.of_nat 32)) with 1 in Heq.
  rewrite Z.mul_1_r in Heq.
  change (Z.of_nat 32) with 32 in Heq.
  change (2 ^ Z.of_nat 32) with (2 ^ 32) in H4.
  rewrite Heq. cbn [bind].
  assert (HP : 0 < 2 ^ (Z.of_nat n1 - 1)) by (apply Z.pow_pos_nonneg; lia).
  assert (Hn1' : 2 ^ Z.of_nat n1 = 2 * 2 ^ (Z.of_nat n1 - 1)).
  { rewrite <- Z.pow_succ_r by lia. f_equal. lia. }
  assert (Hb0 : 0 <= lo1 / 2 ^ (Z.of_nat n1 - 1)) by (apply Z.div_pos; lia).
  assert (Hb1 : lo1 / 2 ^ (Z.of_nat n1 - 1) < 2)
    by (apply Z.div_lt_upper_bound; lia).
  set (b := lo1 / 2 ^ (Z.of_nat n1 - 1)) in *.
  assert (Hsh : Z.shiftr (2 * hi1 + b) 1 = hi1).
  { rewrite Z.shiftr_div_pow2 by lia. change (2 ^ 1) with 2.
    symmetry. apply Z.div_unique with (r := b); lia. }
  rewrite Hsh.
  assert (Hnb : to_unsigned UINT_BITS (Z.of_nat n1 - 1 + 1) = Z.of_nat n1).
  { unfold to_unsigned, UINT_BITS. rewrite Z.mod_small by lia. lia. }
  rewrite Hnb, Nat2Z.id.
  f_equal.
  assert (HV : hi1 * 2 ^ Z.of_nat n1 + lo1 = dividend) by lia.
  pose proof (Z.div_mod lo1 (2 ^ (Z.of_nat n1 - 1)) ltac:(lia)) as Hdm.
  pose proof (Z.mod_pos_bound lo1 (2 ^ (Z.of_nat n1 - 1)) HP) as Hmb.
  fold b in Hdm.
  destruct (Nat.eq_dec n1 1) as [->|Hn2].
  - change (Z.of_nat 1 - 1) with 0 in *.
    change (2 ^ (32 - Z.of_nat 1)) with (2 ^ 31).
    change (2 ^ Z.of_nat 1) with 2 in *. change (2 ^ 0) with 1 in *.
    unfold b in *. rewrite Z.div_1_r in *.
    rewrite subtract_loop_one by lia.
    replace (2 * hi1 + lo1) with dividend by lia. reflexivity.
  - assert (H4P : 2 <= 2 ^ (Z.of_nat n1 - 1)).
    { change 2 with (2 ^ 1) at 1. apply Z.pow_le_mono_r; lia. }
    set (Pm := 2 ^ (Z.of_nat n1 - 1)) in *.
    assert (Hm1 : divisor * Pm <= (2 * hi1 + b) * Pm)
      by (apply Z.mul_le_mono_nonneg_r; lia).
    assert (Hm2 : (2 * hi1 + b) * Pm = hi1 * (2 * Pm) + Pm * b) by ring.
    assert (Hm3 : divisor * 2 <= divisor * Pm)
      by (apply Z.mul_le_mono_nonneg_l; lia).
    assert (Hq0 : 0 <= 0 < 2 ^ (32 - Z.of_nat n1))
      by (split; [lia | apply Z.pow_pos_nonneg; lia]).
    rewrite (subtract_loop_spec n1 hi1 lo1 0
               ltac:(lia) ltac:(lia) H1 H3 ltac:(lia) Hq0).
    rewrite HV. reflexivity.
Qed.

End UnsignedDivide.

(** [unsigned_divide] returns the quotient and the remainder of the
    Euclidean division of any two 32-bit values with a divisor that is not
    zero, and a budget of 33 passes of its first loop is enough; on a zero
    divisor it returns 0 and 0. *)
Theorem unsigned_divide_correct (fuel : nat) (dividend divisor : Z) :
  0 <= dividend < 2 ^ 32 -> 0 <= divisor < 2 ^ 32 ->
  unsigned_divide (33 + fuel) dividend divisor
  = if divisor =? 0 then Ret (0, 0)
    else Ret (dividend / divisor, dividend mod divisor).
Proof.
  intros HD Hd.
  destruct (Z.eqb_spec divisor 0) as [->|Hne].
  - reflexivity.
  - apply unsigned_divide_spec; lia.
Qed.

(** 100 divided by 7. *)
Lemma unsigned_divide_correct_example :
  0 <= 100 < 2 ^ 32 /\ 0 <= 7 < 2 ^ 32
  /\ unsigned_divide 33 100 7 = Ret (14, 2).
Proof.
  assert (H1 : 0 <= 100 < 2 ^ 32) by lia.
  assert (H2 : 0 <= 7 < 2 ^ 32) by lia.
  refine (conj H1 (conj H2 _)).
  exact (unsigned_divide_correct 0 100 7 H1 H2).
Defined.

Lemma ABS_abs (x : Z) :
  - 2 ^ 31 < x < 2 ^ 31 -> to_unsigned UINT_BITS (ABS x) = Z.abs x.
Proof.
  intros Hx. unfold ABS, to_unsigned, UINT_BITS, INT_BITS.
  destruct (Z.ltb_spec x 0).
  - rewrite to_signed_in_range by lia. rewrite Z.mod_small by lia. lia.
  - rewrite Z.mod_small by lia. lia.
Qed.

(** [signed_divide] truncates towards zero: for operands above [INT_MIN]
    and a divisor that is not zero the quotient is [dividend / divisor] of
    C and the remainder has the sign of the dividend; on a zero divisor
    both results are 0. *)
Theorem signed_divide_truncates (fuel : nat) (dividend divisor : Z) :
  - 2 ^ 31 < dividend < 2 ^ 31 -> - 2 ^ 31 < divisor < 2 ^ 31 ->
  signed_divide (33 + fuel) dividend divisor
  = if divisor =? 0 then Ret (0, 0)
    else Ret (Z.quot dividend divisor, Z.rem dividend divisor).
Proof.
  intros HD Hd. unfold signed_divide.
  rewrite (ABS_abs dividend HD), (ABS_abs divisor Hd).
  destruct (Z.eqb_spec divisor 0) as [->|Hne].
  - cbn [Z.abs]. unfold unsigned_divide. cbn [Z.eqb bind].
    change (to_signed INT_BITS 0) with 0. change (- 0) with 0.
    change (to_signed INT_BITS 0) with 0.
    destruct (dividend <? 0); reflexivity.
  - rewrite unsigned_divide_spec by lia. cbn [bind].
    rewrite (Z.quot_div dividend divisor Hne), (Z.rem_mod dividend divisor Hne).
    assert (Hb : 0 < Z.abs divisor) by lia.
    pose proof (Z.mod_pos_bound (Z.abs dividend) (Z.abs divisor) Hb) as Hr.
    assert (Hq0 : 0 <= Z.abs dividend / Z.abs divisor) by (apply Z.div_pos; lia).
    assert (Hq1 : Z.abs dividend / Z.abs divisor <= Z.abs dividend).
    { apply Z.div_le_upper_bound; [lia|]. nia. }
    set (q := Z.abs dividend / Z.abs divisor) in *.
    set (r := Z.abs dividend mod Z.abs divisor) in *.
    unfold INT_BITS.
    rewrite (to_signed_in_range 32 q) by lia.
    rewrite (to_signed_in_range 32 r) by lia.
    rewrite (to_signed_in_range 32 (- q)) by lia.
    rewrite (to_signed_in_range 32 (- r)) by lia.
    destruct (Z.ltb_spec dividend 0) as [Hneg|Hpos].
    + replace (Z.sgn dividend) with (-1) by lia.
      destruct (Z.gtb_spec divisor 0).
      * replace (Z.sgn divisor) with 1 by lia. apply f_equal. apply f_equal2; lia.
      * replace (Z.sgn divisor) with (-1) by lia. apply f_equal. apply f_equal2; lia.
    + destruct (Z.ltb_spec divisor 0).
      * replace (Z.sgn divisor) with (-1) by lia.
        destruct (Z.eq_dec dividend 0) as [->|].
        -- subst q r. cbn. reflexivity.
        -- replace (Z.sgn dividend) with 1 by lia. apply f_equal. apply f_equal2; lia.
      * replace (Z.sgn divisor) with 1 by lia.
        destruct (Z.eq_dec dividend 0) as [->|].
        -- subst q r. cbn. reflexivity.
        -- replace (Z.sgn dividend) with 1 by lia. apply f_equal. apply f_equal2; lia.
Qed.

(** -100 divided by 7. *)
Lemma signed_divide_truncates_example :
  - 2 ^ 31 < -100 < 2 ^ 31 /\ - 2 ^ 31 < 7 < 2 ^ 31
  /\ signed_divide 33 (-100) 7 = Ret (-14, -2).
Proof.
  assert (H1 : - 2 ^ 31 < -100 < 2 ^ 31) by lia.
  assert (H2 : - 2 ^ 31 < 7 < 2 ^ 31) by lia.
  refine (conj H1 (conj H2 _)).
  exact (signed_divide_truncates 0 (-100) 7 H1 H2).
Defined.

(** ** Native bytes of a primitive value *)

Lemma length_le_bytes (n : nat) (v : Z) : length (le_bytes n v) = n.
Proof.
  revert v. induction n as [| n IH]; intros v; cbn [le_bytes length]; auto.
Qed.

Lemma Forall_byte_le_bytes (n : nat) (v : Z) : Forall is_byte (le_bytes n v).
Proof.
  revert v. induction n as [| n IH]; intros v; cbn [le_bytes]; constructor.
  - unfold is_byte. apply Z.mod_pos_bound. lia.
  - apply IH.
Qed.

Lemma le_combine_le_bytes (n : nat) (v : Z) :
  le_combine (le_bytes n v) = v mod 256 ^ Z.of_nat n.
Proof.
  revert v. induction n as [| n IH]; intros v; cbn [le_bytes le_combine].
  - rewrite Z.pow_0_r, Z.mod_1_r. reflexivity.
  - rewrite IH, Nat2Z.inj_succ, Z.pow_succ_r by lia.
    rewrite Z.rem_mul_r by (try apply Z.pow_nonzero; lia). reflexivity.
Qed.

Lemma le_bytes_le_combine (bs : list Z) :
  Forall is_byte bs -> le_bytes (length bs) (le_combine bs) = bs.
Proof.
  induction 1 as [| b bs Hb _ IH]; cbn [length le_bytes le_combine].
  - reflexivity.
  - unfold is_byte in Hb.
    replace (b + 256 * le_combine bs) with (b + le_combine bs * 256) by ring.
    rewrite Z.mod_add, Z.div_add by lia.
    rewrite Z.mod_small, Z.div_small, Z.add_0_l by lia.
    rewrite IH. reflexivity.
Qed.

Lemma firstn_zeros (n m : Z) :
  0 <= n <= m -> firstn (Z.to_nat n) (zeros m) = zeros n.
Proof.
  intros H.
  rewrite (all_zero_eq_zeros (firstn (Z.to_nat n) (zeros m)))
    by apply all_zero_firstn, all_zero_zeros.
  f_equal. rewrite length_firstn. unfold zeros. rewrite repeat_length. lia.
Qed.

(** [REVERSE_BYTE_ORDER] followed by a copy of the variable's bytes stores
    the value most significant byte first. *)
Lemma le_bytes_REVERSE_BYTE_ORDER (sz : Z) (v : Z) :
  le_bytes (Z.to_nat sz) (REVERSE_BYTE_ORDER sz v)
  = rev (le_bytes (Z.to_nat sz) v).
Proof.
  unfold REVERSE_BYTE_ORDER.
  rewrite <- (length_le_bytes (Z.to_nat sz) v) at 1.
  rewrite <- length_rev.
  apply le_bytes_le_combine, Forall_rev, Forall_byte_le_bytes.
Qed.

(** The magnitude of a value of the type, as an unsigned number. *)
Lemma wrap_abs (sz : Z) (is_signed : bool) (v : Z) :
  0 < sz -> in_type sz is_signed v ->
  let w := wrap_to sz is_signed v in
  w = v
  /\ to_unsigned (8 * sz)
       (if w <? 0 then wrap_to sz is_signed (0 - w) else w) = Z.abs v.
Proof.
  intros Hsz Hin w. subst w. unfold in_type, wrap_to in *.
  assert (Hp : 2 ^ (8 * sz) = 2 * 2 ^ (8 * sz - 1)).
  { rewrite <- Z.pow_succ_r by lia. f_equal. lia. }
  assert (Hq : 0 < 2 ^ (8 * sz - 1)) by (apply Z.pow_pos_nonneg; lia).
  destruct is_signed.
  - rewrite to_signed_in_range by lia. split; [reflexivity|].
    destruct (Z.ltb_spec v 0) as [Hneg|Hpos].
    + unfold to_unsigned.
      destruct (Z.eq_dec v (- 2 ^ (8 * sz - 1))) as [->|Hne].
      * unfold to_signed. replace (0 - - 2 ^ (8 * sz - 1)) with (2 ^ (8 * sz - 1)) by lia.
        rewrite (Z.mod_small (2 ^ (8 * sz - 1))) by lia.
        rewrite Z.ltb_irrefl.
        replace (2 ^ (8 * sz - 1) - 2 ^ (8 * sz))
          with (2 ^ (8 * sz - 1) + (-1) * 2 ^ (8 * sz)) by lia.
        rewrite Z.mod_add by lia. rewrite Z.mod_small by lia. lia.
      * rewrite to_signed_in_range by lia. rewrite Z.mod_small by lia. lia.
    + unfold to_unsigned. rewrite Z.mod_small by lia. lia.
  - unfold to_unsigned. rewrite Z.mod_small by lia. split; [reflexivity|].
    destruct (Z.ltb_spec v 0); [lia|].
    rewrite Z.mod_small by lia. lia.
Qed.

(** [ASSIGN_OP_BODY_INT_TYPES] on an object that holds the invariant: the
    buffer is zeros followed by the bytes of the magnitude, most
    significant first, and the flag byte is the sign. *)
Lemma assign_int_types_bytes
    (sz : Z) (is_signed : bool) (this : bigbigint) (v : Z) :
  wf this -> 0 < sz <= _num_bytes this -> in_type sz is_signed v ->
  ASSIGN_OP_BODY_INT_TYPES sz is_signed this v
  = mk_bigbigint
      (zeros (_num_bytes this - sz) ++ rev (le_bytes (Z.to_nat sz) (Z.abs v)))
      (_num_bytes this) (_length this)
      (if v <? 0 then BBI_NEGATIVE else 0).
Proof.
  intros (Hl & Hnb & Hlen & Hr) Hsz Hin.
  destruct (wrap_abs sz is_signed v ltac:(lia) Hin) as (Hw & Habs).
  unfold wrap_to in Hw, Habs.
  unfold ASSIGN_OP_BODY_INT_TYPES. cbv zeta.
  rewrite Hw. rewrite Hw in Habs.
  assert (Hbytes :
    forall fl nv, to_unsigned (8 * sz) nv = Z.abs v ->
    set_bytes (zero_fill (set_flags this fl))
      (memcpy (_first_byte (zero_fill (set_flags this fl)))
              (_num_bytes (zero_fill (set_flags this fl)) - sz)
              (le_bytes (Z.to_nat sz)
                 (REVERSE_BYTE_ORDER sz (to_unsigned (8 * sz) nv))) 0 sz)
    = mk_bigbigint
        (zeros (_num_bytes this - sz) ++ rev (le_bytes (Z.to_nat sz) (Z.abs v)))
        (_num_bytes this) (_length this) fl).
  { intros fl nv Hnv. rewrite Hnv, le_bytes_REVERSE_BYTE_ORDER.
    unfold zero_fill, set_flags, set_bytes.
    cbn [_first_byte _num_bytes _length _flags].
    f_equal.
    unfold memset0. rewrite skipn_all2 by lia. rewrite app_nil_r.
    unfold memcpy. change (Z.to_nat 0) with 0%nat. cbn [skipn].
    replace (_num_bytes this - sz + sz) with (_num_bytes this) by lia.
    rewrite (skipn_all2 (zeros (_num_bytes this)))
      by (unfold zeros; rewrite repeat_length; lia).
    rewrite app_nil_r.
    f_equal.
    - apply firstn_zeros. lia.
    - apply firstn_all2. rewrite length_rev, length_le_bytes. lia. }
  destruct (Z.ltb_spec v 0) as [Hneg | Hpos].
  - cbn [Z.lor]. apply Hbytes. exact Habs.
  - apply Hbytes. exact Habs.
Qed.

Lemma pow_256 (sz : Z) : 0 <= sz -> 256 ^ sz = 2 ^ (8 * sz).
Proof. intros H. rewrite Z.pow_mul_r by lia. reflexivity. Qed.

Lemma abs_in_type (sz : Z) (is_signed : bool) (v : Z) :
  0 < sz -> in_type sz is_signed v -> 0 <= Z.abs v < 256 ^ sz.
Proof.
  intros Hsz Hin. rewrite pow_256 by lia. unfold in_type in Hin.
  assert (Hp : 2 ^ (8 * sz) = 2 * 2 ^ (8 * sz - 1)).
  { rewrite <- Z.pow_succ_r by lia. f_equal. lia. }
  destruct is_signed; lia.
Qed.

Lemma be_value_bound (bs : list Z) :
  Forall is_byte bs -> 0 <= be_value bs < 256 ^ Z.of_nat (length bs).
Proof.
  intros H. rewrite be_value_le_combine, <- (length_rev bs).
  apply le_combine_bound, Forall_rev, H.
Qed.

(** The value a primitive assignment leaves in the buffer. *)
Lemma assign_int_types_value
    (sz : Z) (is_signed : bool) (this : bigbigint) (v : Z) :
  wf this -> 0 < sz <= 8 -> in_type sz is_signed v ->
  wf (ASSIGN_OP_BODY_INT_TYPES sz is_signed this v)
  /\ _length (ASSIGN_OP_BODY_INT_TYPES sz is_signed this v) = _length this
  /\ _num_bytes (ASSIGN_OP_BODY_INT_TYPES sz is_signed this v) = _num_bytes this
  /\ magnitude (ASSIGN_OP_BODY_INT_TYPES sz is_signed this v) = Z.abs v
  /\ is_negative (ASSIGN_OP_BODY_INT_TYPES sz is_signed this v) = (v <? 0).
Proof.
  intros Hwf Hsz Hin.
  pose proof Hwf as (Hl & Hnb & Hlen & Hr).
  unfold BBI_MIN_SIZE, sizeof_BBI_BASE_TYPE in *.
  rewrite assign_int_types_bytes by (try assumption; lia).
  unfold wf, magnitude, is_negative.
  cbn [_first_byte _num_bytes _length _flags].
  unfold BBI_MIN_SIZE, sizeof_BBI_BASE_TYPE.
  repeat split; try lia.
  - rewrite length_app, length_rev, length_le_bytes, Nat2Z.inj_add.
    rewrite length_zeros by lia. lia.
  - apply Forall_app. split; [apply Forall_byte_zeros |].
    apply Forall_rev, Forall_byte_le_bytes.
  - rewrite be_value_zeros_app, be_value_rev, le_combine_le_bytes.
    rewrite Z2Nat.id by lia.
    apply Z.mod_small. apply (abs_in_type sz is_signed); [lia | exact Hin].
  - destruct (v <? 0); reflexivity.
Qed.

(** Assigning a value of a primitive integral type stores its absolute
    value and its sign: the object keeps its capacity and the invariant,
    its magnitude is [|v|] and its sign bit is set exactly for a negative
    [v], the most negative value of the type included. *)
Theorem assign_primitive_stores_abs
    (sz : Z) (is_signed : bool) (this : bigbigint) (v : Z) :
  wf this -> 0 < sz <= 8 -> in_type sz is_signed v ->
  wf (ASSIGN_OP_BODY_INT_TYPES sz is_signed this v)
  /\ _length (ASSIGN_OP_BODY_INT_TYPES sz is_signed this v) = _length this
  /\ magnitude (ASSIGN_OP_BODY_INT_TYPES sz is_signed this v) = Z.abs v
  /\ is_negative (ASSIGN_OP_BODY_INT_TYPES sz is_signed this v) = (v <? 0).
Proof.
  intros Hwf Hsz Hin.
  destruct (assign_int_types_value sz is_signed this v Hwf Hsz Hin)
    as (H1 & H2 & _ & H3 & H4).
  auto.
Qed.

(** The [int] value [INT_MIN] assigned to a three-word object. *)
Lemma assign_primitive_stores_abs_example :
  wf (_constructor 3) /\ 0 < 4 <= 8 /\ in_type 4 true (- 2 ^ 31)
  /\ wf (ASSIGN_OP_BODY_INT_TYPES 4 true (_constructor 3) (- 2 ^ 31))
  /\ _length (ASSIGN_OP_BODY_INT_TYPES 4 true (_constructor 3) (- 2 ^ 31))
     = _length (_constructor 3)
  /\ magnitude (ASSIGN_OP_BODY_INT_TYPES 4 true (_constructor 3) (- 2 ^ 31))
     = Z.abs (- 2 ^ 31)
  /\ is_negative (ASSIGN_OP_BODY_INT_TYPES 4 true (_constructor 3) (- 2 ^ 31))
     = (- 2 ^ 31 <? 0).
Proof.
  assert (H1 : 0 < 4 <= 8) by lia.
  assert (H2 : in_type 4 true (- 2 ^ 31)) by (unfold in_type; lia).
  refine (conj (wf_constructor 3) (conj H1 (conj H2 _))).
  exact (assign_primitive_stores_abs 4 true (_constructor 3) (- 2 ^ 31)
           (wf_constructor 3) H1 H2).
Defined.

(** ** Comparison of magnitudes *)

Lemma three_way_tests (x y : Z) :
  (three_way x y >? 0) = (x >? y)
  /\ (three_way x y >=? 0) = (x >=? y)
  /\ (three_way x y <? 0) = (x <? y)
  /\ (three_way x y <=? 0) = (x <=? y)
  /\ (three_way x y =? 0) = (x =? y).
Proof.
  unfold three_way.
  destruct (Z.compare_spec x y) as [H | H | H];
    cbn [Z.gtb Z.geb Z.ltb Z.leb Z.eqb Z.compare];
    destruct (Z.gtb_spec x y), (Z.geb_spec x y), (Z.ltb_spec x y),
             (Z.leb_spec x y), (Z.eqb_spec x y);
    repeat split; try reflexivity; lia.
Qed.

Lemma be_value_cons (x : Z) (bs : list Z) :
  be_value (x :: bs) = x * 256 ^ Z.of_nat (length bs) + be_value bs.
Proof. exact (be_value_app [x] bs). Qed.

(** [memcmp] on two buffers of one length orders them as the numbers they
    denote. *)
Lemma memcmp_three_way (a b : list Z) :
  length a = length b -> Forall is_byte a -> Forall is_byte b ->
  memcmp a b (length a) = three_way (be_value a) (be_value b).
Proof.
  revert b. induction a as [| x a IH]; intros b Hlen Ha Hb.
  - destruct b; [reflexivity | discriminate].
  - destruct b as [| y b]; [discriminate |].
    inversion Ha as [| ? ? Hx Ha']; inversion Hb as [| ? ? Hy Hb']; subst.
    cbn [length] in Hlen. injection Hlen as Hlen.
    cbn [length memcmp]. rewrite !be_value_cons, <- Hlen.
    pose proof (be_value_bound a Ha') as HA.
    pose proof (be_value_bound b Hb') as HB. rewrite <- Hlen in HB.
    set (P := 256 ^ Z.of_nat (length a)) in *.
    unfold is_byte in Hx, Hy.
    destruct (Z.ltb_spec x y) as [Hlt | Hge].
    + unfold three_way.
      destruct (Z.compare_spec (x * P + be_value a) (y * P + be_value b));
        [nia | reflexivity | nia].
    + destruct (Z.ltb_spec y x) as [Hlt | Hge'].
      * unfold three_way.
        destruct (Z.compare_spec (x * P + be_value a) (y * P + be_value b));
          [nia | nia | reflexivity].
      * assert (x = y) by lia. subst y.
        rewrite (IH b Hlen Ha' Hb'). unfold three_way.
        destruct (Z.compare_spec (be_value a) (be_value b)),
                 (Z.compare_spec (x * P + be_value a) (x * P + be_value b));
          try reflexivity; lia.
Qed.

(** Assignment into an object that is at least as long. *)
Lemma operator_assign_bytes (this NewVal : bigbigint) :
  wf this -> wf NewVal -> _num_bytes NewVal <= _num_bytes this ->
  operator_assign this NewVal
  = mk_bigbigint
      (zeros (_num_bytes this - _num_bytes NewVal) ++ _first_byte NewVal)
      (_num_bytes this) (_length this) (_flags NewVal).
Proof.
  intros Ht Hn Hle.
  pose proof Ht as (Hlt & Hnt & Hlent & Hrt).
  pose proof Hn as (Hln & Hnn & Hlenn & Hrn).
  destruct (Z.eq_dec (_num_bytes this) (_num_bytes NewVal)) as [He | Hne].
  - rewrite (operator_assign_same_size this NewVal Ht Hn He).
    rewrite He, Z.sub_diag. reflexivity.
  - unfold operator_assign.
    destruct (Z.eqb_spec (_num_bytes this) (_num_bytes NewVal)) as [| _];
      [contradiction |].
    destruct (Z.ltb_spec (_num_bytes this) (_num_bytes NewVal)) as [| _];
      [lia |].
    set (off := _num_bytes this - _num_bytes NewVal).
    unfold zero_fill_n. destruct (Z.eqb_spec off 0) as [| _]; [subst off; lia |].
    unfold set_bytes, set_flags. cbn [_first_byte _num_bytes _length _flags].
    f_equal.
    unfold memset0, memcpy. f_equal.
    change (Z.to_nat 0) with 0%nat. cbn [skipn].
    rewrite (firstn_all2 (_first_byte NewVal)) by lia.
    rewrite (skipn_all2 (_first_byte this)) by (subst off; lia).
    rewrite app_nil_r.
    assert (Hf : length (firstn (Z.to_nat off) (_first_byte this))
                 = Z.to_nat off) by (rewrite length_firstn; subst off; lia).
    rewrite <- Hf at 1. apply skipn_app_exact.
Qed.

(** The bigbigint comparisons order the magnitudes. *)
Lemma comp_result_three_way (a b : bigbigint) :
  wf a -> wf b -> comp_result a b = three_way (magnitude a) (magnitude b).
Proof.
  intros Ha Hb.
  pose proof Ha as (Hla & Hna & Hlena & Hra).
  pose proof Hb as (Hlb & Hnb & Hlenb & Hrb).
  unfold comp_result, magnitude.
  unfold BBI_MIN_SIZE, sizeof_BBI_BASE_TYPE in *.
  destruct (Z.gtb_spec (_length b) (_length a)) as [Hgt | Hle].
  - rewrite (constructor_of_wf_length b Hb).
    rewrite operator_assign_bytes;
      [| rewrite <- (constructor_of_wf_length b Hb); apply wf_constructor
       | exact Ha | cbn [_num_bytes]; lia].
    cbn [_first_byte _num_bytes].
    set (za := zeros (_num_bytes b - _num_bytes a) ++ _first_byte a).
    assert (Hlz : length za = length (_first_byte b)).
    { subst za. rewrite length_app. unfold zeros. rewrite repeat_length. lia. }
    replace (Z.to_nat (_num_bytes b)) with (length za) by lia.
    rewrite memcmp_three_way; [| exact Hlz | | exact Hrb].
    + subst za. rewrite be_value_zeros_app. reflexivity.
    + subst za. apply Forall_app. split; [apply Forall_byte_zeros | exact Hra].
  - destruct (Z.gtb_spec (_length a) (_length b)) as [Hgt | Hle'].
    + rewrite (constructor_of_wf_length a Ha).
      rewrite operator_assign_bytes;
        [| rewrite <- (constructor_of_wf_length a Ha); apply wf_constructor
         | exact Hb | cbn [_num_bytes]; lia].
      cbn [_first_byte _num_bytes].
      set (zb := zeros (_num_bytes a - _num_bytes b) ++ _first_byte b).
      assert (Hlz : length (_first_byte a) = length zb).
      { subst zb. rewrite length_app. unfold zeros. rewrite repeat_length. lia. }
      replace (Z.to_nat (_num_bytes a)) with (length (_first_byte a)) by lia.
      rewrite memcmp_three_way; [| exact Hlz | exact Hra |].
      * subst zb. rewrite be_value_zeros_app. reflexivity.
      * subst zb. apply Forall_app. split; [apply Forall_byte_zeros | exact Hrb].
    + replace (Z.to_nat (_num_bytes b)) with (length (_first_byte a)) by lia.
      apply memcmp_three_way; [lia | exact Hra | exact Hrb].
Qed.

(** On values that hold the invariant, whatever their lengths, the six
    comparisons between bigbigints are the comparisons of the magnitudes. *)
Theorem comparisons_order_magnitudes (a b : bigbigint) :
  wf a -> wf b ->
  operator_gt a b = (magnitude a >? magnitude b)
  /\ operator_ge a b = (magnitude a >=? magnitude b)
  /\ operator_lt a b = (magnitude a <? magnitude b)
  /\ operator_le a b = (magnitude a <=? magnitude b)
  /\ operator_eq a b = (magnitude a =? magnitude b)
  /\ operator_ne a b = negb (magnitude a =? magnitude b).
Proof.
  intros Ha Hb.
  unfold operator_gt, operator_ge, operator_lt, operator_le, operator_eq,
    operator_ne.
  rewrite (comp_result_three_way a b Ha Hb).
  destruct (three_way_tests (magnitude a) (magnitude b))
    as (H1 & H2 & H3 & H4 & H5).
  rewrite H1, H2, H3, H4, H5. repeat split; reflexivity.
Qed.

(** 3 in five words against 7 in two. *)
Lemma comparisons_order_magnitudes_example :
  wf (operator_assign_int (_constructor 5) 3) /\ wf (of_int 7)
  /\ operator_gt (operator_assign_int (_constructor 5) 3) (of_int 7)
     = (magnitude (operator_assign_int (_constructor 5) 3) >? magnitude (of_int 7))
  /\ operator_ge (operator_assign_int (_constructor 5) 3) (of_int 7)
     = (magnitude (operator_assign_int (_constructor 5) 3) >=? magnitude (of_int 7))
  /\ operator_lt (operator_assign_int (_constructor 5) 3) (of_int 7)
     = (magnitude (operator_assign_int (_constructor 5) 3) <? magnitude (of_int 7))
  /\ operator_le (operator_assign_int (_constructor 5) 3) (of_int 7)
     = (magnitude (operator_assign_int (_constructor 5) 3) <=? magnitude (of_int 7))
  /\ operator_eq (operator_assign_int (_constructor 5) 3) (of_int 7)
     = (magnitude (operator_assign_int (_constructor 5) 3) =? magnitude (of_int 7))
  /\ operator_ne (operator_assign_int (_constructor 5) 3) (of_int 7)
     = negb (magnitude (operator_assign_int (_constructor 5) 3)
             =? magnitude (of_int 7)).
Proof.
  assert (H3 : wf (operator_assign_int (_constructor 5) 3))
    by wf_by_computation.
  refine (conj H3 (conj wf_of_int_7 _)).
  exact (comparisons_order_magnitudes _ _ H3 wf_of_int_7).
Defined.

(** ** Comparison with a primitive operand *)

Lemma wf_num_bytes_ge (a : bigbigint) : wf a -> 8 <= _num_bytes a.
Proof.
  intros (Hl & Hn & _). unfold BBI_MIN_SIZE, sizeof_BBI_BASE_TYPE in *. lia.
Qed.

Lemma comp_result_prim_three_way
    (sz : Z) (is_signed : bool) (a : bigbigint) (v : Z) :
  wf a -> 0 < sz <= 8 -> in_type sz is_signed v ->
  comp_result_prim sz is_signed a v = three_way (magnitude a) (Z.abs v).
Proof.
  intros Ha Hsz Hin.
  pose proof (wf_num_bytes_ge a Ha) as H8.
  pose proof Ha as (Hla & Hna & Hlena & Hra).
  unfold comp_result_prim.
  assert (Hc : wf (_constructor (_length a))) by apply wf_constructor.
  destruct (assign_int_types_value sz is_signed (_constructor (_length a)) v
              Hc Hsz Hin) as (Hw & _ & Hn & Hm & _).
  rewrite (constructor_of_wf_length a Ha) in Hn, Hm, Hw |- *.
  cbn [_num_bytes] in Hn. rewrite Hn.
  destruct Hw as (_ & _ & Hlt & Hrt). rewrite Hn in Hlt.
  replace (Z.to_nat (_num_bytes a)) with (length (_first_byte a)) by lia.
  rewrite memcmp_three_way; [| lia | exact Hra | exact Hrt].
  unfold magnitude in Hm. rewrite Hm. reflexivity.
Qed.

(** A comparison with a primitive operand compares the magnitude with the
    absolute value of the operand: equality ignores both signs, and the
    orderings look at a sign only in the one case each macro tests first. *)
Theorem primitive_comparisons_use_magnitudes
    (sz : Z) (is_signed : bool) (a : bigbigint) (v : Z) :
  wf a -> 0 < sz <= 8 -> in_type sz is_signed v ->
  EQUALITY_OPERATOR_MEMBER_FUNCTION sz is_signed a v
  = (magnitude a =? Z.abs v)
  /\ NON_EQUALITY_OPERATOR_MEMBER_FUNCTION sz is_signed a v
     = negb (magnitude a =? Z.abs v)
  /\ GREATER_THAN_OPERATOR_MEMBER_FUNCTION sz is_signed a v
     = ((v <? 0) && negb (is_negative a) || (magnitude a >? Z.abs v))
  /\ GREATER_THAN_EQ_OPERATOR_MEMBER_FUNCTION sz is_signed a v
     = ((v =? 0) && negb (is_negative a) || (magnitude a >=? Z.abs v))
  /\ LESS_THAN_OPERATOR_MEMBER_FUNCTION sz is_signed a v
     = (if v =? 0 then is_negative a else magnitude a <? Z.abs v)
  /\ LESS_THAN_EQ_OPERATOR_MEMBER_FUNCTION sz is_signed a v
     = ((v =? 0) && is_negative a || (magnitude a <=? Z.abs v)).
Proof.
  intros Ha Hsz Hin.
  destruct (wrap_abs sz is_signed v ltac:(lia) Hin) as (Hw & _).
  cbv zeta in Hw.
  pose proof (comp_result_prim_three_way sz is_signed a v Ha Hsz Hin) as Hc.
  destruct (three_way_tests (magnitude a) (Z.abs v))
    as (H1 & H2 & H3 & H4 & H5).
  unfold EQUALITY_OPERATOR_MEMBER_FUNCTION,
    NON_EQUALITY_OPERATOR_MEMBER_FUNCTION,
    GREATER_THAN_OPERATOR_MEMBER_FUNCTION,
    GREATER_THAN_EQ_OPERATOR_MEMBER_FUNCTION,
    LESS_THAN_OPERATOR_MEMBER_FUNCTION,
    LESS_THAN_EQ_OPERATOR_MEMBER_FUNCTION, is_negative.
  cbv zeta. rewrite Hw, Hc, H1, H2, H3, H4, H5.
  repeat split; try reflexivity.
Qed.

(** -5 against the [int] 5. *)
Lemma primitive_comparisons_use_magnitudes_example :
  wf (of_int (-5)) /\ 0 < 4 <= 8 /\ in_type 4 true 5
  /\ EQUALITY_OPERATOR_MEMBER_FUNCTION 4 true (of_int (-5)) 5
     = (magnitude (of_int (-5)) =? Z.abs 5)
  /\ NON_EQUALITY_OPERATOR_MEMBER_FUNCTION 4 true (of_int (-5)) 5
     = negb (magnitude (of_int (-5)) =? Z.abs 5)
  /\ GREATER_THAN_OPERATOR_MEMBER_FUNCTION 4 true (of_int (-5)) 5
     = ((5 <? 0) && negb (is_negative (of_int (-5)))
        || (magnitude (of_int (-5)) >? Z.abs 5))
  /\ GREATER_THAN_EQ_OPERATOR_MEMBER_FUNCTION 4 true (of_int (-5)) 5
     = ((5 =? 0) && negb (is_negative (of_int (-5)))
        || (magnitude (of_int (-5)) >=? Z.abs 5))
  /\ LESS_THAN_OPERATOR_MEMBER_FUNCTION 4 true (of_int (-5)) 5
     = (if 5 =? 0 then is_negative (of_int (-5))
        else magnitude (of_int (-5)) <? Z.abs 5)
  /\ LESS_THAN_EQ_OPERATOR_MEMBER_FUNCTION 4 true (of_int (-5)) 5
     = ((5 =? 0) && is_negative (of_int (-5))
        || (magnitude (of_int (-5)) <=? Z.abs 5)).
Proof.
  assert (H0 : wf (of_int (-5))) by wf_by_computation.
  assert (H1 : 0 < 4 <= 8) by lia.
  assert (H2 : in_type 4 true 5) by (unfold in_type; lia).
  refine (conj H0 (conj H1 (conj H2 _))).
  exact (primitive_comparisons_use_magnitudes 4 true (of_int (-5)) 5 H0 H1 H2).
Defined.

(** With the primitive on the left the strict and the non-strict relations
    are exchanged: against a bigbigint that holds the same positive value,
    [v > a] and [v < a] are true and [v >= a] and [v <= a] are false. *)
Theorem non_member_comparisons_on_equal_values
    (sz : Z) (is_signed : bool) (v : Z) (a : bigbigint) :
  wf a -> 0 < sz <= 8 -> in_type sz is_signed v ->
  0 < v -> magnitude a = v ->
  GREATER_THAN_OPERATOR_NON_MEMBER_FUNCTION sz is_signed v a = true
  /\ LESS_THAN_OPERATOR_NON_MEMBER_FUNCTION sz is_signed v a = true
  /\ GREATER_THAN_EQ_OPERATOR_NON_MEMBER_FUNCTION sz is_signed v a = false
  /\ LESS_THAN_EQ_OPERATOR_NON_MEMBER_FUNCTION sz is_signed v a = false.
Proof.
  intros Ha Hsz Hin Hv Hm.
  destruct (wrap_abs sz is_signed v ltac:(lia) Hin) as (Hw & _).
  cbv zeta in Hw.
  pose proof (comp_result_prim_three_way sz is_signed a v Ha Hsz Hin) as Hc.
  rewrite Hm, Z.abs_eq in Hc by lia.
  unfold three_way in Hc. rewrite Z.compare_refl in Hc.
  unfold GREATER_THAN_OPERATOR_NON_MEMBER_FUNCTION,
    LESS_THAN_OPERATOR_NON_MEMBER_FUNCTION,
    GREATER_THAN_EQ_OPERATOR_NON_MEMBER_FUNCTION,
    LESS_THAN_EQ_OPERATOR_NON_MEMBER_FUNCTION,
    GREATER_THAN_OPERATOR_MEMBER_FUNCTION,
    GREATER_THAN_EQ_OPERATOR_MEMBER_FUNCTION,
    LESS_THAN_OPERATOR_MEMBER_FUNCTION,
    LESS_THAN_EQ_OPERATOR_MEMBER_FUNCTION.
  cbv zeta. rewrite Hw, Hc.
  destruct (Z.eqb_spec v 0) as [| _]; [lia |].
  destruct (Z.ltb_spec v 0) as [| _]; [lia |].
  cbn. repeat split; reflexivity.
Qed.

(** The [int] 7 against a bigbigint that holds 7. *)
Lemma non_member_comparisons_on_equal_values_example :
  wf (of_int 7) /\ 0 < 4 <= 8 /\ in_type 4 true 7 /\ 0 < 7
  /\ magnitude (of_int 7) = 7
  /\ GREATER_THAN_OPERATOR_NON_MEMBER_FUNCTION 4 true 7 (of_int 7) = true
  /\ LESS_THAN_OPERATOR_NON_MEMBER_FUNCTION 4 true 7 (of_int 7) = true
  /\ GREATER_THAN_EQ_OPERATOR_NON_MEMBER_FUNCTION 4 true 7 (of_int 7) = false
  /\ LESS_THAN_EQ_OPERATOR_NON_MEMBER_FUNCTION 4 true 7 (of_int 7) = false.
Proof.
  assert (H1 : 0 < 4 <= 8) by lia.
  assert (H2 : in_type 4 true 7) by (unfold in_type; lia).
  assert (H3 : 0 < 7) by lia.
  refine (conj wf_of_int_7 (conj H1 (conj H2 (conj H3 (conj eq_refl _))))).
  exact (non_member_comparisons_on_equal_values 4 true 7 (of_int 7)
           wf_of_int_7 H1 H2 H3 eq_refl).
Defined.

(** ** Left shift by fewer than eight bits *)

Lemma length_shl_bytes (s : Z) (bs : list Z) :
  length (shl_bytes s bs) = length bs.
Proof. induction bs as [| b bs IH]; cbn [shl_bytes length]; auto. Qed.

Lemma Forall_byte_shl_bytes (s : Z) (bs : list Z) :
  Forall is_byte (shl_bytes s bs).
Proof.
  induction bs as [| b bs IH]; cbn [shl_bytes]; constructor; [| exact IH].
  unfold is_byte. apply Z.mod_pos_bound. lia.
Qed.

(** The bytes of [shl_bytes] denote the number shifted, cut to the length
    of the buffer. *)
Lemma be_value_shl_bytes (s : Z) (bs : list Z) :
  0 <= s < 8 -> Forall is_byte bs ->
  be_value (shl_bytes s bs)
  = (be_value bs * 2 ^ s) mod 256 ^ Z.of_nat (length bs).
Proof.
  intros Hs. induction 1 as [| b bs Hb Hbs IH].
  - reflexivity.
  - cbn [shl_bytes length]. rewrite !be_value_cons, length_shl_bytes, IH.
    rewrite Nat2Z.inj_succ, Z.pow_succ_r by lia.
    pose proof (be_value_bound bs Hbs) as HV.
    set (P := 256 ^ Z.of_nat (length bs)) in *.
    set (V := be_value bs) in *.
    assert (HP : 0 < P) by (apply Z.pow_pos_nonneg; lia).
    assert (H2s : 0 < 2 ^ s) by (apply Z.pow_pos_nonneg; lia).
    assert (H2s8 : 2 ^ s * 2 ^ (8 - s) = 256).
    { rewrite <- Z.pow_add_r by lia. replace (s + (8 - s)) with 8 by lia.
      reflexivity. }
    assert (H28 : 0 < 2 ^ (8 - s)) by (apply Z.pow_pos_nonneg; lia).
    unfold is_byte in Hb.
    (* the bits that come up from the rest of the buffer *)
    assert (Hhd : (hd 0 bs * 2 ^ s) / 256 = (V * 2 ^ s) / P).
    { destruct Hbs as [| c cs Hc Hcs].
      - cbn [hd]. subst V P. cbn. reflexivity.
      - cbn [hd]. subst V P. rewrite be_value_cons.
        cbn [length]. rewrite Nat2Z.inj_succ, Z.pow_succ_r by lia.
        pose proof (be_value_bound cs Hcs) as HW.
        set (Q := 256 ^ Z.of_nat (length cs)) in *.
        set (W := be_value cs) in *.
        assert (HQ : 0 < Q) by (apply Z.pow_pos_nonneg; lia).
        unfold is_byte in Hc.
        set (T := 2 ^ s) in *.
        pose proof (Z.mod_pos_bound (c * T) 256 ltac:(lia)) as Hm.
        pose proof (Z.div_mod (c * T) 256 ltac:(lia)) as Hcd.
        assert (Hmul : (c * T) mod 256 <= 256 - T).
        { assert (Hd : (c * T) mod 256 = T * (c mod 2 ^ (8 - s))).
          { rewrite <- H2s8. rewrite (Z.mul_comm c).
            rewrite Z.mul_mod_distr_l by lia. reflexivity. }
          rewrite Hd.
          pose proof (Z.mod_pos_bound c (2 ^ (8 - s)) H28) as Hc8.
          assert (T * (c mod 2 ^ (8 - s)) <= T * (2 ^ (8 - s) - 1))
            by (apply Z.mul_le_mono_nonneg_l; lia).
          lia. }
        set (M := (c * T) mod 256) in *.
        assert (HMQ : M * Q <= (256 - T) * Q)
          by (apply Z.mul_le_mono_nonneg_r; lia).
        assert (HMQ0 : 0 <= M * Q) by (apply Z.mul_nonneg_nonneg; lia).
        assert (HWT : W * T < Q * T) by (apply Z.mul_lt_mono_pos_r; lia).
        assert (HWT0 : 0 <= W * T) by (apply Z.mul_nonneg_nonneg; lia).
        set (q := c * T / 256) in *.
        apply Z.div_unique_pos with (r := M * Q + W * T).
        + lia.
        + replace ((c * Q + W) * T) with ((c * T) * Q + W * T) by ring.
          rewrite Hcd. ring. }
    assert (Hb0 : ((b * 256 + hd 0 bs) * 2 ^ s) / 256
                  = b * 2 ^ s + (hd 0 bs * 2 ^ s) / 256).
    { replace ((b * 256 + hd 0 bs) * 2 ^ s)
        with (hd 0 bs * 2 ^ s + (b * 2 ^ s) * 256) by ring.
      rewrite Z.div_add by lia. ring. }
    rewrite Hb0, Hhd.
    pose proof (Z.div_mod (V * 2 ^ s) P ltac:(lia)) as HdmV.
    pose proof (Z.mod_pos_bound (V * 2 ^ s) P HP) as HmV.
    set (H := (V * 2 ^ s) / P) in *.
    set (L := (V * 2 ^ s) mod P) in *.
    pose proof (Z.div_mod (b * 2 ^ s + H) 256 ltac:(lia)) as Hdm.
    pose proof (Z.mod_pos_bound (b * 2 ^ s + H) 256 ltac:(lia)) as Hm.
    set (q := (b * 2 ^ s + H) / 256) in *.
    set (M := (b * 2 ^ s + H) mod 256) in *.
    assert (HMP : M * P <= 255 * P) by (apply Z.mul_le_mono_nonneg_r; lia).
    assert (HMP0 : 0 <= M * P) by (apply Z.mul_nonneg_nonneg; lia).
    apply Z.mod_unique_pos with (q := q).
    + lia.
    + replace ((b * P + V) * 2 ^ s) with (b * 2 ^ s * P + V * 2 ^ s) by ring.
      rewrite HdmV.
      replace (b * 2 ^ s * P + (P * H + L)) with ((b * 2 ^ s + H) * P + L)
        by ring.
      rewrite Hdm. ring.
Qed.

Lemma land_255 (x : Z) : Z.land x 0xFF = x mod 256.
Proof. change 0xFF with (Z.ones 8). rewrite Z.land_ones by lia. reflexivity. Qed.

(** Two bytes side by side in a register. *)
Lemma lor_two_bytes (b c : Z) :
  0 <= b -> 0 <= c < 256 -> Z.lor (b * 256) c = b * 256 + c.
Proof.
  intros Hb Hc.
  assert (Hl : Z.land (b * 256) c = 0).
  { apply Z.bits_inj'. intros n Hn. rewrite Z.land_spec, Z.bits_0.
    destruct (Z.lt_ge_cases n 8) as [Hlt | Hge].
    - change 256 with (2 ^ 8). rewrite Z.mul_pow2_bits_low by lia. reflexivity.
    - assert (Hcn : Z.testbit c n = false).
      { destruct (Z.eq_dec c 0) as [-> | Hne]; [apply Z.bits_0 |].
        apply Z.bits_above_log2; [lia |].
        apply Z.log2_lt_pow2; [lia |].
        apply Z.lt_le_trans with (2 ^ 8); [exact (proj2 Hc) |].
        apply Z.pow_le_mono_r; lia. }
      rewrite Hcn. apply andb_false_r. }
  rewrite <- Z.lxor_lor by exact Hl.
  symmetry. apply Z.add_nocarry_lxor. exact Hl.
Qed.

Lemma load_byte_app (pre rest : list Z) (b : Z) :
  load_byte (pre ++ b :: rest) (Z.of_nat (length pre)) = Some b.
Proof.
  unfold load_byte.
  destruct (Z.ltb_spec (Z.of_nat (length pre)) 0); [lia |].
  rewrite Nat2Z.id, nth_error_app2 by lia.
  rewrite Nat.sub_diag. reflexivity.
Qed.

Lemma store_byte_app (pre rest : list Z) (old v : Z) :
  store_byte (pre ++ old :: rest) (Z.of_nat (length pre)) v
  = Some (pre ++ v :: rest).
Proof.
  unfold store_byte. rewrite length_app. cbn [length].
  destruct (Z.leb_spec 0 (Z.of_nat (length pre))); [| lia].
  destruct (Z.ltb_spec (Z.of_nat (length pre))
              (Z.of_nat (length pre + S (length rest)))); [| lia].
  cbn [andb]. f_equal.
  rewrite Nat2Z.id, firstn_app_exact.
  replace (Z.to_nat (Z.of_nat (length pre) + 1))
    with (length (pre ++ [old])) by (rewrite length_app; cbn [length]; lia).
  replace (pre ++ old :: rest) with ((pre ++ [old]) ++ rest)
    by (rewrite <- app_assoc; reflexivity).
  rewrite skipn_app_exact. reflexivity.
Qed.

Section ShiftLeft.

Variable s : Z.
Hypothesis s_range : 1 <= s < 8.

(** The loop of [operator <<] from any position on: [pre] has been read,
    [rest] is still to come. *)
Lemma shl_loop_spec (rest : list Z) :
  forall (pre tvpre tvrest : list Z) (fuel : nat),
  Forall is_byte rest ->
  length tvpre = length pre -> length tvrest = length rest ->
  (length rest < fuel)%nat ->
  shl_loop fuel (pre ++ rest) (Z.of_nat (length pre + length rest) - 1) s
           (tvpre ++ tvrest) (Z.of_nat (length pre)) (Z.of_nat (length pre))
  = Ret (tvpre ++ shl_bytes s rest).
Proof.
  induction rest as [| b rest IH]; intros pre tvpre tvrest fuel Hr Hp Ht Hf.
  - destruct fuel as [| fuel]; [cbn [length] in Hf; lia |].
    destruct tvrest; [| discriminate].
    cbn [shl_loop length shl_bytes].
    destruct (Z.leb_spec (Z.of_nat (length pre))
                (Z.of_nat (length pre + 0) - 1)); [lia | reflexivity].
  - destruct fuel as [| fuel]; [cbn [length] in Hf; lia |].
    destruct tvrest as [| t0 tvrest]; [discriminate |].
    inversion Hr as [| ? ? Hb Hr']; subst.
    cbn [length] in Ht, Hf. injection Ht as Ht.
    unfold is_byte in Hb.
    cbn [shl_loop length].
    destruct (Z.leb_spec (Z.of_nat (length pre))
                (Z.of_nat (length pre + S (length rest)) - 1)) as [_ |]; [| lia].
    rewrite load_byte_app.
    assert (Hc0 : to_unsigned ULONG_BITS (Z.shiftl b 8) = b * 256).
    { unfold to_unsigned, ULONG_BITS. rewrite Z.shiftl_mul_pow2 by lia.
      change (2 ^ 8) with 256. apply Z.mod_small. lia. }
    rewrite Hc0.
    assert (Hnext :
      (if Z.of_nat (length pre) <? Z.of_nat (length pre + S (length rest)) - 1
       then option_map (Z.lor (b * 256))
              (load_byte (pre ++ b :: rest) (Z.of_nat (length pre) + 1))
       else Some (b * 256))
      = Some (b * 256 + hd 0 rest)).
    { destruct rest as [| c rest'].
      - cbn [length hd].
        destruct (Z.ltb_spec (Z.of_nat (length pre))
                    (Z.of_nat (length pre + 1) - 1)); [lia |].
        rewrite Z.add_0_r. reflexivity.
      - cbn [length hd].
        destruct (Z.ltb_spec (Z.of_nat (length pre))
                    (Z.of_nat (length pre + S (S (length rest'))) - 1)); [| lia].
        replace (pre ++ b :: c :: rest') with ((pre ++ [b]) ++ c :: rest')
          by (rewrite <- app_assoc; reflexivity).
        replace (Z.of_nat (length pre) + 1) with (Z.of_nat (length (pre ++ [b])))
          by (rewrite length_app; cbn [length]; lia).
        rewrite load_byte_app. cbn [option_map].
        inversion Hr' as [| ? ? Hc _]; subst. unfold is_byte in Hc.
        rewrite lor_two_bytes by lia. reflexivity. }
    rewrite Hnext.
    assert (Hh : 0 <= hd 0 rest < 256).
    { destruct Hr' as [| c ? Hc _]; cbn [hd]; [lia | exact Hc]. }
    unfold ULONG_BITS at 1.
    destruct (Z.ltb_spec s 0); [lia |].
    destruct (Z.leb_spec 32 s); [lia |].
    cbn [orb].
    assert (H2s : 0 < 2 ^ s <= 2 ^ 7).
    { split; [apply Z.pow_pos_nonneg; lia | apply Z.pow_le_mono_r; lia]. }
    assert (Hc1 : to_unsigned ULONG_BITS (Z.shiftl (b * 256 + hd 0 rest) s)
                  = (b * 256 + hd 0 rest) * 2 ^ s).
    { unfold to_unsigned, ULONG_BITS. rewrite Z.shiftl_mul_pow2 by lia.
      apply Z.mod_small. split; [nia |].
      apply Z.le_lt_trans with (65535 * 2 ^ 7); [| reflexivity].
      apply Z.mul_le_mono_nonneg; lia. }
    rewrite Hc1, land_255, Z.shiftr_div_pow2 by lia.
    change (2 ^ 8) with 256.
    rewrite <- Hp. rewrite store_byte_app. rewrite Hp.
    replace (pre ++ b :: rest) with ((pre ++ [b]) ++ rest)
      by (rewrite <- app_assoc; reflexivity).
    set (v := (((b * 256 + hd 0 rest) * 2 ^ s) / 256) mod 256).
    replace (tvpre ++ v :: tvrest) with ((tvpre ++ [v]) ++ tvrest)
      by (rewrite <- app_assoc; reflexivity).
    replace (Z.of_nat (length pre) + 1) with (Z.of_nat (length (pre ++ [b])))
      by (rewrite length_app; cbn [length]; lia).
    replace (Z.of_nat (length pre + S (length rest)) - 1)
      with (Z.of_nat (length (pre ++ [b]) + length rest) - 1)
      by (rewrite length_app; cbn [length]; lia).
    rewrite IH; [| exact Hr' | rewrite !length_app; cbn [length]; lia
                 | exact Ht | lia].
    cbn [shl_bytes]. rewrite <- app_assoc. reflexivity.
Qed.

End ShiftLeft.

Lemma shift_small (Shift : Z) :
  1 <= Shift <= 7 -> Shift / 8 = 0 /\ shift_value_of Shift = Shift - 1.
Proof.
  intros H. split; [apply Z.div_small; lia |].
  apply shift_value_of_spec. lia.
Qed.

(** [operator <<] by 1 to 7 bits returns the value shifted by one bit less
    than asked, cut to the capacity, with the sign cleared: a shift by one
    bit returns the magnitude as it is. *)
Theorem shift_left_shifts_one_bit_less
    (fuel : nat) (this : bigbigint) (Shift : Z) :
  wf this -> 1 <= Shift <= 7 -> (Z.to_nat (_num_bytes this) < fuel)%nat ->
  exists r,
    operator_shl fuel this Shift = Ret r
    /\ wf r
    /\ _length r = _length this
    /\ _flags r = 0
    /\ magnitude r
       = (magnitude this * 2 ^ (Shift - 1)) mod 256 ^ _num_bytes this.
Proof.
  intros Hwf HS Hf. pose proof Hwf as (Hl & Hnb & Hlen & Hr).
  destruct (shift_small Shift HS) as (Hoff & Hsv).
  pose proof (be_value_bound _ Hr) as HV. rewrite Hlen in HV.
  unfold BBI_MIN_SIZE, sizeof_BBI_BASE_TYPE in *.
  unfold operator_shl. rewrite Hoff, Hsv.
  rewrite (constructor_of_wf_length this Hwf).
  rewrite assign_int_zero_wf
    by (rewrite <- (constructor_of_wf_length this Hwf); apply wf_constructor).
  cbn [_num_bytes _length _first_byte _flags set_bytes].
  destruct (Z.eqb_spec (Shift - 1) 0) as [H1 | Hne].
  - destruct (Z.leb_spec 0 (_num_bytes this)); [| lia].
    rewrite Z.sub_0_r, memcpy_whole
      by (try rewrite length_zeros; lia).
    eexists. split; [reflexivity |].
    unfold wf, magnitude. cbn [_num_bytes _length _first_byte _flags].
    unfold BBI_MIN_SIZE, sizeof_BBI_BASE_TYPE.
    repeat split; try lia; try assumption.
    rewrite H1, Z.pow_0_r, Z.mul_1_r. symmetry. apply Z.mod_small. exact HV.
  - assert (Hs : 1 <= Shift - 1 < 8) by lia.
    pose proof (shl_loop_spec (Shift - 1) Hs (_first_byte this) [] []
                  (zeros (_num_bytes this)) fuel Hr eq_refl) as Hloop.
    cbn [app length Nat.add] in Hloop.
    change (Z.of_nat 0) with 0 in Hloop.
    rewrite Hlen in Hloop.
    rewrite Hloop
      by (try (unfold zeros; rewrite repeat_length); lia).
    cbn [bind]. unfold set_bytes. cbn [_num_bytes _length _first_byte _flags].
    eexists. split; [reflexivity |].
    unfold wf, magnitude. cbn [_num_bytes _length _first_byte _flags].
    unfold BBI_MIN_SIZE, sizeof_BBI_BASE_TYPE.
    repeat split; try lia.
    + rewrite length_shl_bytes. lia.
    + apply Forall_byte_shl_bytes.
    + rewrite be_value_shl_bytes by (try assumption; lia).
      rewrite Hlen. reflexivity.
Qed.

(** 0x12345678 shifted left by 5. *)
Lemma shift_left_shifts_one_bit_less_example :
  wf (of_int 0x12345678) /\ 1 <= 5 <= 7
  /\ (Z.to_nat (_num_bytes (of_int 0x12345678)) < 9)%nat
  /\ exists r,
       operator_shl 9 (of_int 0x12345678) 5 = Ret r
       /\ wf r
       /\ _length r = _length (of_int 0x12345678)
       /\ _flags r = 0
       /\ magnitude r
          = (magnitude (of_int 0x12345678) * 2 ^ (5 - 1))
            mod 256 ^ _num_bytes (of_int 0x12345678).
Proof.
  assert (H0 : wf (of_int 0x12345678)) by wf_by_computation.
  assert (H1 : 1 <= 5 <= 7) by lia.
  assert (H2 : (Z.to_nat (_num_bytes (of_int 0x12345678)) < 9)%nat)
    by (vm_compute; lia).
  refine (conj H0 (conj H1 (conj H2 _))).
  exact (shift_left_shifts_one_bit_less 9 (of_int 0x12345678) 5 H0 H1 H2).
Defined.

(** ** Division by a primitive power of two *)

(** A right shift by one bit takes the copying branch. *)
Lemma operator_shr_1 (fuel : nat) (this : bigbigint) :
  wf this -> operator_shr fuel this 1 = Ret (set_flags this 0).
Proof.
  intros Hwf. pose proof Hwf as (Hl & Hnb & Hlen & _).
  unfold BBI_MIN_SIZE, sizeof_BBI_BASE_TYPE in *.
  unfold operator_shr. change (shift_value_of 1 =? 0) with true.
  change (1 / 8) with 0. cbv iota.
  destruct (Z.leb_spec 0 (_num_bytes this)); [| lia].
  rewrite Z.sub_0_r.
  rewrite (constructor_of_wf_length this Hwf).
  rewrite assign_int_zero_wf
    by (rewrite <- (constructor_of_wf_length this Hwf); apply wf_constructor).
  cbn [_num_bytes _length _first_byte set_bytes].
  rewrite memcpy_whole by (try rewrite length_zeros; lia).
  reflexivity.
Qed.

(** Dividing by the primitive 2 takes the shortcut [*this >> 1], which
    copies the buffer: the result is the dividend itself with the sign
    cleared, whatever its value. *)
Theorem division_by_two_returns_dividend
    (sz : Z) (is_signed : bool) (fuel : nat) (this : bigbigint) :
  wf this -> 0 < sz -> in_type sz is_signed 2 ->
  DIVIDE_OPERATOR_MEMBER_FUNCTION sz is_signed fuel this 2
  = Ret (set_flags this 0).
Proof.
  intros Hwf Hsz Hin.
  destruct (wrap_abs sz is_signed 2 Hsz Hin) as (Hw & _). cbv zeta in Hw.
  unfold DIVIDE_OPERATOR_MEMBER_FUNCTION. cbv zeta. rewrite Hw.
  cbn [BBI_DIVISION_SHIFT_SHORTCUT].
  unfold operator_shr_int. cbn [Z.ltb Z.compare].
  change (to_unsigned ULONG_BITS 1) with 1.
  apply operator_shr_1. exact Hwf.
Qed.

(** 100 divided by the [int] 2. *)
Lemma division_by_two_returns_dividend_example :
  wf (of_int 100) /\ 0 < 4 /\ in_type 4 true 2
  /\ DIVIDE_OPERATOR_MEMBER_FUNCTION 4 true 0 (of_int 100) 2
     = Ret (set_flags (of_int 100) 0).
Proof.
  assert (H1 : 0 < 4) by lia.
  assert (H2 : in_type 4 true 2) by (unfold in_type; lia).
  refine (conj wf_of_int_100 (conj H1 (conj H2 _))).
  exact (division_by_two_returns_dividend 4 true 0 (of_int 100)
           wf_of_int_100 H1 H2).
Defined.

Lemma load_byte_zero_prefix (pre rest : list Z) (i : Z) :
  all_zero pre -> 0 <= i < Z.of_nat (length pre) ->
  load_byte (pre ++ rest) i = Some 0.
Proof.
  intros Hz Hi. unfold load_byte.
  destruct (Z.ltb_spec i 0); [lia |].
  rewrite nth_error_app1 by lia.
  destruct (nth_error pre (Z.to_nat i)) as [v |] eqn:E.
  - apply nth_error_In in E.
    unfold all_zero in Hz. rewrite Forall_forall in Hz.
    rewrite (Hz v E). reflexivity.
  - apply nth_error_None in E. lia.
Qed.

Section ShiftRightSmall.

Variable s : Z.
Hypothesis s_range : 1 <= s < 8.

(** The loop of [operator >>] on a buffer whose bytes are zero but for the
    last one. *)
Lemma shr_loop_last_byte (m : nat) :
  forall (pre tvpre tvrest : list Z) (x : Z) (fuel : nat),
  all_zero pre -> 0 <= x < 256 ->
  length tvpre = length pre -> length tvrest = S m ->
  (S m < fuel)%nat ->
  shr_loop fuel (pre ++ repeat 0 m ++ [x])
           (Z.of_nat (length pre + S m) - 1) s
           (tvpre ++ tvrest) (Z.of_nat (length pre)) (Z.of_nat (length pre)) 0
  = Ret (tvpre ++ repeat 0 m ++ [x / 2 ^ s]).
Proof.
  assert (H2s : 0 < 2 ^ s) by (apply Z.pow_pos_nonneg; lia).
  induction m as [| m IH]; intros pre tvpre tvrest x fuel Hz Hx Hp Ht Hf.
  - destruct fuel as [| [| fuel]]; [lia | lia |].
    destruct tvrest as [| t0 [| ? ?]]; try discriminate.
    cbn [repeat app]. cbn [shr_loop].
    destruct (Z.leb_spec (Z.of_nat (length pre))
                (Z.of_nat (length pre + 1) - 1)) as [_ |]; [| lia].
    assert (Hprev :
      (if Z.of_nat (length pre) =? 0 then Some 0
       else option_map
              (fun b => to_unsigned ULONG_BITS (Z.shiftl (Z.lor 0 b) 8))
              (load_byte (pre ++ [x]) (Z.of_nat (length pre) - 1)))
      = Some 0).
    { destruct (Z.eqb_spec (Z.of_nat (length pre)) 0); [reflexivity |].
      rewrite load_byte_zero_prefix by (try assumption; lia). reflexivity. }
    rewrite Hprev, load_byte_app.
    unfold ULONG_BITS at 1.
    destruct (Z.ltb_spec s 0); [lia |].
    destruct (Z.leb_spec 32 s); [lia |].
    cbn [orb Z.lor].
    rewrite land_255, Z.shiftr_div_pow2 by lia.
    assert (Hq : 0 <= x / 2 ^ s < 256).
    { split; [apply Z.div_pos; lia |].
      apply Z.div_lt_upper_bound; [lia |]. nia. }
    rewrite (Z.mod_small (x / 2 ^ s)) by exact Hq.
    rewrite <- Hp, store_byte_app, Hp.
    destruct (Z.leb_spec (Z.of_nat (length pre) + 1)
                (Z.of_nat (length pre + 1) - 1)); [lia |].
    reflexivity.
  - destruct fuel as [| fuel]; [lia |].
    destruct tvrest as [| t0 tvrest]; [discriminate |].
    cbn [length] in Ht. injection Ht as Ht.
    cbn [repeat app]. cbn [shr_loop].
    destruct (Z.leb_spec (Z.of_nat (length pre))
                (Z.of_nat (length pre + S (S m)) - 1)) as [_ |]; [| lia].
    assert (Hprev :
      (if Z.of_nat (length pre) =? 0 then Some 0
       else option_map
              (fun b => to_unsigned ULONG_BITS (Z.shiftl (Z.lor 0 b) 8))
              (load_byte (pre ++ 0 :: repeat 0 m ++ [x])
                 (Z.of_nat (length pre) - 1)))
      = Some 0).
    { destruct (Z.eqb_spec (Z.of_nat (length pre)) 0); [reflexivity |].
      rewrite load_byte_zero_prefix by (try assumption; lia). reflexivity. }
    rewrite Hprev, load_byte_app.
    unfold ULONG_BITS at 1.
    destruct (Z.ltb_spec s 0); [lia |].
    destruct (Z.leb_spec 32 s); [lia |].
    cbn [orb Z.lor]. rewrite Z.shiftr_0_l. change (Z.land 0 0xFF) with 0.
    rewrite <- Hp, store_byte_app, Hp.
    replace (pre ++ 0 :: repeat 0 m ++ [x])
      with ((pre ++ [0]) ++ repeat 0 m ++ [x])
      by (rewrite <- app_assoc; reflexivity).
    replace (tvpre ++ 0 :: tvrest) with ((tvpre ++ [0]) ++ tvrest)
      by (rewrite <- app_assoc; reflexivity).
    replace (Z.of_nat (length pre) + 1) with (Z.of_nat (length (pre ++ [0])))
      by (rewrite length_app; cbn [length]; lia).
    replace (Z.of_nat (length pre + S (S m)) - 1)
      with (Z.of_nat (length (pre ++ [0]) + S m) - 1)
      by (rewrite length_app; cbn [length]; lia).
    rewrite IH; [| apply all_zero_app; [exact Hz | repeat constructor]
                 | exact Hx | rewrite !length_app; cbn [length]; lia
                 | exact Ht | lia].
    rewrite <- app_assoc. reflexivity.
Qed.

End ShiftRightSmall.

(** A value below 256 has one byte that is not zero, the last one. *)
Lemma small_value_bytes (bs : list Z) :
  Forall is_byte bs -> bs <> [] -> be_value bs < 256 ->
  bs = repeat 0 (length bs - 1) ++ [be_value bs] /\ 0 <= be_value bs.
Proof.
  intros Hb Hne Hv.
  rewrite (app_removelast_last 0 Hne) in Hb, Hv |- *.
  set (front := removelast bs) in *. set (l := last bs 0) in *.
  apply Forall_app in Hb. destruct Hb as (Hf & Hl).
  inversion Hl as [| ? ? Hl0 _]; subst. unfold is_byte in Hl0.
  rewrite be_value_snoc in Hv |- *.
  pose proof (be_value_bound front Hf) as Hfb.
  assert (H0 : be_value front = 0) by lia.
  assert (Hz : all_zero front).
  { exact (proj2 (be_value_acc_zero front 0 ltac:(lia) Hf H0)). }
  rewrite H0. cbn [Z.mul Z.add].
  rewrite length_app. cbn [length].
  replace (length front + 1 - 1)%nat with (length front) by lia.
  split; [| lia].
  f_equal. rewrite (all_zero_eq_zeros front Hz) at 1.
  unfold zeros. rewrite Nat2Z.id. reflexivity.
Qed.

Lemma shortcut_power_of_two (k : Z) :
  1 <= k <= 7 -> BBI_DIVISION_SHIFT_SHORTCUT (2 ^ k) = Some k.
Proof.
  intros H.
  assert (Hk : k = 1 \/ k = 2 \/ k = 3 \/ k = 4 \/ k = 5 \/ k = 6 \/ k = 7)
    by lia.
  destruct Hk as [-> | [-> | [-> | [-> | [-> | [-> | ->]]]]]]; reflexivity.
Qed.

(** Dividing a value below 256 by a primitive 2, 4, ..., 128 takes the
    shortcut [*this >> k], which shifts by one bit less than [k]: the
    result is the quotient by half the divisor. *)
Theorem division_shortcut_halves_divisor
    (sz : Z) (is_signed : bool) (fuel : nat) (this : bigbigint) (k : Z) :
  wf this -> 0 < sz -> 1 <= k <= 7 -> in_type sz is_signed (2 ^ k) ->
  magnitude this < 256 -> (Z.to_nat (_num_bytes this) < fuel)%nat ->
  exists r,
    DIVIDE_OPERATOR_MEMBER_FUNCTION sz is_signed fuel this (2 ^ k) = Ret r
    /\ _length r = _length this
    /\ magnitude r = magnitude this / 2 ^ (k - 1).
Proof.
  intros Hwf Hsz Hk Hin Hm Hf.
  pose proof Hwf as (Hl & Hnb & Hlen & Hr).
  unfold BBI_MIN_SIZE, sizeof_BBI_BASE_TYPE in *.
  destruct (wrap_abs sz is_signed (2 ^ k) Hsz Hin) as (Hw & _).
  cbv zeta in Hw.
  unfold DIVIDE_OPERATOR_MEMBER_FUNCTION. cbv zeta.
  rewrite Hw, (shortcut_power_of_two k Hk).
  unfold operator_shr_int.
  destruct (Z.ltb_spec k 0); [lia |].
  assert (Hku : to_unsigned ULONG_BITS k = k).
  { unfold to_unsigned, ULONG_BITS. apply Z.mod_small. lia. }
  rewrite Hku.
  destruct (Z.eq_dec k 1) as [-> | Hk1].
  - rewrite operator_shr_1 by exact Hwf.
    eexists. split; [reflexivity |].
    unfold magnitude. cbn [set_flags _length _first_byte].
    change (2 ^ (1 - 1)) with 1. rewrite Z.div_1_r. split; reflexivity.
  - destruct (shift_small k Hk) as (Hoff & Hsv).
    unfold operator_shr. rewrite Hoff, Hsv.
    destruct (Z.eqb_spec (k - 1) 0) as [| _]; [lia |].
    rewrite (constructor_of_wf_length this Hwf).
    rewrite assign_int_zero_wf
      by (rewrite <- (constructor_of_wf_length this Hwf); apply wf_constructor).
    cbn [_num_bytes _length _first_byte _flags].
    assert (Hne : _first_byte this <> []).
    { intros E. rewrite E in Hlen. cbn [length] in Hlen. lia. }
    destruct (small_value_bytes (_first_byte this) Hr Hne Hm) as (Hbs & Hm0).
    fold (magnitude this) in Hbs, Hm0.
    set (n := (length (_first_byte this) - 1)%nat) in *.
    assert (Hn : Z.of_nat n = _num_bytes this - 1) by (subst n; lia).
    assert (Hs : 1 <= k - 1 < 8) by lia.
    pose proof (shr_loop_last_byte (k - 1) Hs n [] []
                  (zeros (_num_bytes this)) (magnitude this) fuel
                  ltac:(constructor) ltac:(lia) eq_refl) as Hloop.
    cbn [app length Nat.add] in Hloop.
    change (Z.of_nat 0) with 0 in Hloop.
    rewrite <- Hbs in Hloop.
    replace (Z.of_nat (S n) - 1) with (_num_bytes this - 0 - 1) in Hloop by lia.
    rewrite Hloop
      by (try (unfold zeros; rewrite repeat_length); lia).
    cbn [bind]. unfold set_bytes. cbn [_num_bytes _length _first_byte _flags].
    eexists. split; [reflexivity |].
    unfold magnitude. cbn [_length _first_byte].
    split; [reflexivity |].
    rewrite be_value_app. cbn [length].
    rewrite (be_value_all_zero (repeat 0 n)).
    + cbn. reflexivity.
    + clear. induction n; constructor; auto.
Qed.

(** 100 divided by the [int] 4 is 50. *)
Lemma division_shortcut_halves_divisor_example :
  wf (of_int 100) /\ 0 < 4 /\ 1 <= 2 <= 7 /\ in_type 4 true (2 ^ 2)
  /\ magnitude (of_int 100) < 256
  /\ (Z.to_nat (_num_bytes (of_int 100)) < 9)%nat
  /\ exists r,
       DIVIDE_OPERATOR_MEMBER_FUNCTION 4 true 9 (of_int 100) (2 ^ 2) = Ret r
       /\ _length r = _length (of_int 100)
       /\ magnitude r = magnitude (of_int 100) / 2 ^ (2 - 1).
Proof.
  assert (H1 : 0 < 4) by lia.
  assert (H2 : 1 <= 2 <= 7) by lia.
  assert (H3 : in_type 4 true (2 ^ 2)) by (unfold in_type; lia).
  assert (H4 : magnitude (of_int 100) < 256) by (vm_compute; reflexivity).
  assert (H5 : (Z.to_nat (_num_bytes (of_int 100)) < 9)%nat)
    by (vm_compute; lia).
  refine (conj wf_of_int_100 (conj H1 (conj H2 (conj H3 (conj H4
            (conj H5 _)))))).
  exact (division_shortcut_halves_divisor 4 true 9 (of_int 100) 2
           wf_of_int_100 H1 H2 H3 H4 H5).
Defined.

(** ** A primitive operand widened to 64 bits *)

Lemma nth_error_le_bytes (n : nat) :
  forall (i : nat) (x : Z), (i < n)%nat ->
  nth_error (le_bytes n x) i = Some ((x / 256 ^ Z.of_nat i) mod 256).
Proof.
  induction n as [| n IH]; intros i x Hi; [lia |].
  cbn [le_bytes]. destruct i as [| i].
  - cbn [nth_error]. change (256 ^ Z.of_nat 0) with 1.
    rewrite Z.div_1_r. reflexivity.
  - cbn [nth_error]. rewrite IH by lia.
    rewrite Nat2Z.inj_succ, Z.pow_succ_r by lia.
    rewrite Z.div_div by (try apply Z.pow_pos_nonneg; lia). reflexivity.
Qed.

Lemma skipn_le_bytes (n : nat) :
  forall (k : nat) (x : Z),
  skipn n (le_bytes (n + k) x) = le_bytes k (x / 256 ^ Z.of_nat n).
Proof.
  induction n as [| n IH]; intros k x.
  - cbn [skipn Nat.add]. change (256 ^ Z.of_nat 0) with 1.
    rewrite Z.div_1_r. reflexivity.
  - cbn [Nat.add le_bytes skipn]. rewrite IH.
    rewrite Nat2Z.inj_succ, Z.pow_succ_r by lia.
    rewrite Z.div_div by (try apply Z.pow_pos_nonneg; lia). reflexivity.
Qed.

Lemma pow_256_split (a b : Z) :
  0 <= a <= b -> 256 ^ b = 256 ^ a * 256 ^ (b - a).
Proof. intros H. rewrite <- Z.pow_add_r by lia. f_equal. lia. Qed.

(** The variable after the copy: the operand extended by the bytes of the
    initial value. *)
Lemma memcpy_into_value (width init sz u : Z) :
  0 < sz <= width -> 0 <= u < 256 ^ sz ->
  memcpy_into width init (le_bytes (Z.to_nat sz) u) sz
  = Some (to_signed (8 * width)
            (u + 256 ^ sz
                 * ((to_unsigned (8 * width) init / 256 ^ sz)
                    mod 256 ^ (width - sz)))).
Proof.
  intros Hsz Hu. unfold memcpy_into.
  rewrite length_le_bytes.
  destruct (Z.leb_spec sz width); [| lia].
  destruct (Z.leb_spec sz (Z.of_nat (Z.to_nat sz))); [| lia].
  cbn [andb]. f_equal. f_equal.
  unfold memcpy. change (Z.to_nat 0) with 0%nat. cbn [firstn skipn app].
  rewrite firstn_all2 by (rewrite length_le_bytes; lia).
  rewrite Z.add_0_l.
  replace (Z.to_nat width) with (Z.to_nat sz + Z.to_nat (width - sz))%nat by lia.
  rewrite skipn_le_bytes, le_combine_app, !le_combine_le_bytes.
  rewrite length_le_bytes, !Z2Nat.id by lia.
  rewrite (Z.mod_small u) by lia. reflexivity.
Qed.

Lemma top_char_of_prim (sz u : Z) :
  0 < sz -> 0 <= u < 256 ^ sz ->
  top_char_nonneg (le_bytes (Z.to_nat sz) u) sz
  = Some (u <? 2 ^ (8 * sz - 1)).
Proof.
  intros Hsz Hu. unfold top_char_nonneg, load_byte.
  destruct (Z.ltb_spec (sz - 1) 0); [lia |].
  rewrite nth_error_le_bytes by lia. cbn [option_map]. f_equal.
  rewrite Z2Nat.id by lia.
  assert (Hp : 256 ^ sz = 256 * 256 ^ (sz - 1)).
  { rewrite <- Z.pow_succ_r by lia. f_equal. lia. }
  assert (Hq : 0 < 256 ^ (sz - 1)) by (apply Z.pow_pos_nonneg; lia).
  assert (Ht0 : 0 <= u / 256 ^ (sz - 1)) by (apply Z.div_pos; lia).
  assert (Ht1 : u / 256 ^ (sz - 1) < 256)
    by (apply Z.div_lt_upper_bound; lia).
  rewrite Z.mod_small by lia.
  set (t := u / 256 ^ (sz - 1)) in *.
  assert (H2 : 2 ^ (8 * sz - 1) = 128 * 256 ^ (sz - 1)).
  { rewrite (pow_256 (sz - 1)) by lia.
    change 128 with (2 ^ 7). rewrite <- Z.pow_add_r by lia. f_equal. lia. }
  rewrite H2.
  pose proof (Z.div_mod u (256 ^ (sz - 1)) ltac:(lia)) as Hdm.
  pose proof (Z.mod_pos_bound u (256 ^ (sz - 1)) Hq) as Hmb.
  fold t in Hdm.
  unfold to_signed. change (2 ^ 8) with 256. change (2 ^ (8 - 1)) with 128.
  rewrite (Z.mod_small t) by lia.
  destruct (Z.ltb_spec t 128) as [Hlt | Hge].
  - destruct (Z.leb_spec 0 t); [| lia].
    destruct (Z.ltb_spec u (128 * 256 ^ (sz - 1))); [reflexivity | nia].
  - destruct (Z.leb_spec 0 (t - 256)); [lia |].
    destruct (Z.ltb_spec u (128 * 256 ^ (sz - 1))); [nia | reflexivity].
Qed.

(** Widening gives the value of the operand: it is zero-extended on the
    first branch and sign-extended on the other. *)
Lemma widen_value (width sz : Z) (is_signed : bool) (v : Z) :
  0 < sz <= width -> in_type sz is_signed v ->
  - 2 ^ (8 * width - 1) <= v < 2 ^ (8 * width - 1) ->
  widen width (prim_bytes sz v) sz is_signed
  = Some ((0 <=? v) || negb is_signed, v).
Proof.
  intros Hsz Hin Hw. unfold widen, prim_bytes.
  assert (Hp : 2 ^ (8 * sz) = 2 * 2 ^ (8 * sz - 1)).
  { rewrite <- Z.pow_succ_r by lia. f_equal. lia. }
  assert (Hq : 0 < 2 ^ (8 * sz - 1)) by (apply Z.pow_pos_nonneg; lia).
  assert (Hpw : 2 ^ (8 * width) = 2 * 2 ^ (8 * width - 1)).
  { rewrite <- Z.pow_succ_r by lia. f_equal. lia. }
  assert (Hqw : 0 < 2 ^ (8 * width - 1)) by (apply Z.pow_pos_nonneg; lia).
  set (u := to_unsigned (8 * sz) v).
  assert (Hu : 0 <= u < 256 ^ sz).
  { subst u. unfold to_unsigned. rewrite pow_256 by lia.
    apply Z.mod_pos_bound. lia. }
  rewrite (top_char_of_prim sz u ltac:(lia) Hu).
  cbv zeta.
  assert (Hsplit : 256 ^ width = 256 ^ sz * 256 ^ (width - sz))
    by (apply pow_256_split; lia).
  assert (Hr : 0 < 256 ^ (width - sz)) by (apply Z.pow_pos_nonneg; lia).
  assert (Hs : 0 < 256 ^ sz) by (apply Z.pow_pos_nonneg; lia).
  unfold in_type in Hin.
  destruct (Z.leb_spec 0 v) as [Hpos | Hneg].
  - (* the value is not negative: zero extension *)
    assert (Huv : u = v).
    { subst u. unfold to_unsigned. apply Z.mod_small. destruct is_signed; lia. }
    assert (Hfirst : (u <? 2 ^ (8 * sz - 1)) || negb is_signed = true).
    { destruct is_signed; cbn [negb]; [| apply orb_true_r].
      rewrite orb_false_r. apply Z.ltb_lt. lia. }
    rewrite Hfirst. cbn [orb].
    rewrite memcpy_into_value by lia.
    cbn [option_map]. f_equal. f_equal.
    assert (Hi0 : to_unsigned (8 * width) 0 = 0)
      by (unfold to_unsigned; apply Z.mod_0_l; lia).
    rewrite Hi0, Z.div_0_l, Z.mod_0_l by lia.
    rewrite Z.mul_0_r, Z.add_0_r, Huv.
    apply to_signed_in_range; lia.
  - (* a negative value of a signed type: sign extension *)
    destruct is_signed; [| lia]. cbn [negb]. rewrite !orb_false_r.
    assert (Huv : u = v + 2 ^ (8 * sz)).
    { subst u. unfold to_unsigned.
      symmetry. apply Z.mod_unique with (q := -1); lia. }
    destruct (Z.ltb_spec u (2 ^ (8 * sz - 1))); [lia |].
    rewrite memcpy_into_value by lia.
    cbn [option_map]. f_equal. f_equal.
    assert (Hi : to_unsigned (8 * width) (-1) = 256 ^ width - 1).
    { unfold to_unsigned. rewrite <- pow_256 by lia.
      symmetry. apply Z.mod_unique with (q := -1); lia. }
    rewrite Hi.
    assert (Hd : (256 ^ width - 1) / 256 ^ sz = 256 ^ (width - sz) - 1).
    { symmetry. apply Z.div_unique with (r := 256 ^ sz - 1); [lia |].
      rewrite Hsplit. ring. }
    rewrite Hd, (Z.mod_small (256 ^ (width - sz) - 1)) by lia.
    replace (u + 256 ^ sz * (256 ^ (width - sz) - 1))
      with (v + 256 ^ width).
    2:{ rewrite Huv, Hsplit, <- (pow_256 sz) by lia. ring. }
    unfold to_signed. rewrite <- pow_256 by lia.
    assert (Hm : (v + 256 ^ width) mod 256 ^ width = v + 256 ^ width).
    { apply Z.mod_small. rewrite (pow_256 width) by lia. lia. }
    rewrite Hm. rewrite (pow_256 width) by lia.
    destruct (Z.ltb_spec (v + 2 ^ (8 * width)) (2 ^ (8 * width - 1))); lia.
Qed.

Lemma to_unsigned_to_signed (bits x : Z) :
  0 < bits -> to_unsigned bits (to_signed bits x) = to_unsigned bits x.
Proof.
  intros Hb. unfold to_unsigned, to_signed.
  assert (Hp : 0 < 2 ^ bits) by (apply Z.pow_pos_nonneg; lia).
  destruct (x mod 2 ^ bits <? 2 ^ (bits - 1)).
  - apply Z.mod_mod. lia.
  - rewrite Zminus_mod, Z.mod_same, Z.sub_0_r by lia.
    rewrite !Z.mod_mod by lia. reflexivity.
Qed.

(** The bytes of [add_value] the loops walk: the absolute value of the
    operand, whatever its sign and its type. *)
Lemma widened_abs_bytes (sz : Z) (is_signed : bool) (v : Z) :
  0 < sz <= 4 -> in_type sz is_signed v ->
  widen 8 (prim_bytes sz v) sz is_signed
  = Some ((0 <=? v) || negb is_signed, v)
  /\ to_unsigned D_LONG_BITS
       (if (0 <=? v) || negb is_signed then v
        else to_signed D_LONG_BITS (0 - v)) = Z.abs v
  /\ 0 <= Z.abs v < 2 ^ 32.
Proof.
  intros Hsz Hin.
  pose proof (abs_in_type sz is_signed v ltac:(lia) Hin) as Ha.
  assert (H32 : 256 ^ sz <= 2 ^ 32).
  { change (2 ^ 32) with (256 ^ 4). apply Z.pow_le_mono_r; lia. }
  split; [| split; [| lia]].
  - apply widen_value; [lia | exact Hin |].
    change (2 ^ (8 * 8 - 1)) with (2 ^ 63). lia.
  - unfold D_LONG_BITS.
    destruct (Z.leb_spec 0 v) as [Hpos | Hneg].
    + cbn [orb]. unfold to_unsigned. rewrite Z.mod_small by lia. lia.
    + unfold in_type in Hin. destruct is_signed; [| lia]. cbn [orb negb].
      rewrite to_unsigned_to_signed by lia.
      unfold to_unsigned. rewrite Z.mod_small by lia. lia.
Qed.

(** Adding a primitive operand is adding the 64-bit value of its absolute
    value. *)
Lemma adding_normal_form (sz : Z) (is_signed : bool) (a : bigbigint) (v : Z) :
  0 < sz <= 4 -> in_type sz is_signed v ->
  ADD_OPERATOR_MEMBER_FUNCTION sz is_signed a v
  = (let tVal := operator_assign (_constructor (_length a)) a in
     '(outs, result) <-
       add_prim_bytes (rev (_first_byte a)) (le_bytes 8 (Z.abs v)) 0 ;;
     let tVal := set_bytes tVal (store_tail (_first_byte tVal) outs) in
     if result >? 0 then
       let tVal := _upsize tVal (_length tVal + 1) in
       match store_byte (_first_byte tVal) (sizeof_BBI_BASE_TYPE - 1)
                        (Z.land result UCHAR_MAX) with
       | Some bs => Ret (set_bytes tVal bs)
       | None => Fault
       end
     else Ret tVal).
Proof.
  intros Hsz Hin.
  destruct (widened_abs_bytes sz is_signed v Hsz Hin) as (Hw & Habs & _).
  unfold ADD_OPERATOR_MEMBER_FUNCTION, _perform_integral_adding.
  rewrite Hw. cbv zeta. rewrite Habs.
  change (le_bytes 8) with (le_bytes (Z.to_nat 8)).
  rewrite le_bytes_REVERSE_BYTE_ORDER, rev_involutive.
  reflexivity.
Qed.

(** [_perform_integral_adding] never looks at the sign of the primitive
    operand: adding [v] and adding [-v] give the same result, on every
    bigbigint. *)
Theorem primitive_add_ignores_operand_sign
    (sz : Z) (a : bigbigint) (v : Z) :
  0 < sz <= 4 -> in_type sz true v -> in_type sz true (- v) ->
  ADD_OPERATOR_MEMBER_FUNCTION sz true a (- v)
  = ADD_OPERATOR_MEMBER_FUNCTION sz true a v.
Proof.
  intros Hsz Hin Hin'.
  rewrite !adding_normal_form by assumption.
  rewrite Z.abs_opp. reflexivity.
Qed.

(** 5 + (-3) against 5 + 3, with [int] operands: both are 8. *)
Lemma primitive_add_ignores_operand_sign_example :
  0 < 4 <= 4 /\ in_type 4 true 3 /\ in_type 4 true (- 3)
  /\ ADD_OPERATOR_MEMBER_FUNCTION 4 true (of_int 5) (- 3)
     = ADD_OPERATOR_MEMBER_FUNCTION 4 true (of_int 5) 3.
Proof.
  assert (H1 : 0 < 4 <= 4) by lia.
  assert (H2 : in_type 4 true 3) by (unfold in_type; lia).
  assert (H3 : in_type 4 true (- 3)) by (unfold in_type; lia).
  refine (conj H1 (conj H2 (conj H3 _))).
  exact (primitive_add_ignores_operand_sign 4 (of_int 5) 3 H1 H2 H3).
Defined.

(** ** Adding a primitive operand *)

(** Without a byte that carries, the loop writes the sums of the bytes and
    ends with no carry. *)
Lemma add_prim_bytes_no_carry (xs : list Z) :
  forall ys : list Z,
  Forall is_byte xs -> Forall is_byte ys ->
  (length ys <= length xs)%nat -> no_byte_carry xs ys = true ->
  exists outs,
    add_prim_bytes xs ys 0 = Ret (outs, 0)
    /\ length outs = length ys
    /\ Forall is_byte outs
    /\ le_combine (outs ++ skipn (length ys) xs)
       = le_combine xs + le_combine ys.
Proof.
  induction xs as [| x xs IH]; intros ys Hx Hy Hlen Hnc.
  - destruct ys; [| cbn [length] in Hlen; lia].
    exists []. cbn. repeat split. constructor.
  - destruct ys as [| y ys].
    + exists []. cbn [add_prim_bytes Z.eqb length skipn app le_combine].
      repeat split; [constructor | lia].
    + inversion Hx as [| ? ? Hbx Hxs]; inversion Hy as [| ? ? Hby Hys]; subst.
      unfold is_byte in Hbx, Hby.
      cbn [no_byte_carry] in Hnc. apply andb_true_iff in Hnc.
      destruct Hnc as (Hxy & Hnc). apply Z.leb_le in Hxy.
      unfold UCHAR_MAX in Hxy.
      cbn [length] in Hlen.
      destruct (IH ys Hxs Hys ltac:(lia) Hnc) as (outs & He & Hl & Hf & Hv).
      exists ((x + y) :: outs).
      cbn [add_prim_bytes]. rewrite Z.add_0_l.
      unfold UCHAR_MAX. change 255 with 0xFF at 1. rewrite land_255.
      rewrite Z.mod_small by lia.
      destruct (Z.gtb_spec (x + y) 255); [lia |].
      rewrite He. cbn [bind length skipn app le_combine].
      repeat split; [lia | constructor; [unfold is_byte; lia | exact Hf] |].
      rewrite Hv. ring.
Qed.

Lemma assign_to_fresh_copy (a : bigbigint) :
  wf a -> operator_assign (_constructor (_length a)) a = a.
Proof.
  intros Hwf. rewrite (constructor_of_wf_length a Hwf).
  rewrite operator_assign_same_size;
    [destruct a; reflexivity
    | rewrite <- (constructor_of_wf_length a Hwf); apply wf_constructor
    | exact Hwf | reflexivity].
Qed.

(** When no byte of the bigbigint and the byte of the operand at the same
    place sum past 255, adding a primitive operand returns the magnitude
    plus the absolute value of the operand, with the sign of the bigbigint:
    the sign of the operand is not looked at. *)
Theorem primitive_add_without_carry
    (sz : Z) (is_signed : bool) (a : bigbigint) (v : Z) :
  wf a -> 0 < sz <= 4 -> in_type sz is_signed v ->
  no_byte_carry (rev (_first_byte a)) (le_bytes 8 (Z.abs v)) = true ->
  exists r,
    ADD_OPERATOR_MEMBER_FUNCTION sz is_signed a v = Ret r
    /\ wf r
    /\ _length r = _length a
    /\ _flags r = _flags a
    /\ magnitude r = magnitude a + Z.abs v.
Proof.
  intros Hwf Hsz Hin Hnc.
  pose proof Hwf as (Hl & Hnb & Hlen & Hr).
  pose proof (wf_num_bytes_ge a Hwf) as H8.
  destruct (widened_abs_bytes sz is_signed v Hsz Hin) as (_ & _ & Habs).
  rewrite adding_normal_form by assumption.
  cbv zeta. rewrite (assign_to_fresh_copy a Hwf).
  destruct (add_prim_bytes_no_carry (rev (_first_byte a)) (le_bytes 8 (Z.abs v)))
    as (outs & He & Hlo & Hfo & Hv);
    [apply Forall_rev, Hr | apply Forall_byte_le_bytes
     | rewrite length_rev, length_le_bytes; lia | exact Hnc |].
  rewrite length_le_bytes in Hlo, Hv.
  rewrite He. cbn [bind Z.gtb Z.compare].
  eexists. split; [reflexivity |].
  unfold set_bytes, wf, magnitude. cbn [_first_byte _num_bytes _length _flags].
  assert (Hst : length (store_tail (_first_byte a) outs)
                = length (_first_byte a))
    by (apply length_store_tail; lia).
  repeat split; try assumption; try lia.
  - unfold store_tail. apply Forall_app. split.
    + apply Forall_firstn_list, Hr.
    + apply Forall_rev, Hfo.
  - unfold store_tail. rewrite be_value_le_combine, rev_app_distr.
    rewrite rev_involutive, Hlo, <- skipn_rev, Hv.
    rewrite le_combine_le_bytes.
    change (256 ^ Z.of_nat 8) with (2 ^ 64).
    rewrite (Z.mod_small (Z.abs v)) by lia.
    rewrite <- be_value_le_combine. reflexivity.
Qed.

(** 0x0102 plus the [int] -0x0304: both signs are kept out of the sum. *)
Lemma primitive_add_without_carry_example :
  wf (of_int 0x0102) /\ 0 < 4 <= 4 /\ in_type 4 true (- 0x0304)
  /\ no_byte_carry (rev (_first_byte (of_int 0x0102)))
       (le_bytes 8 (Z.abs (- 0x0304))) = true
  /\ exists r,
       ADD_OPERATOR_MEMBER_FUNCTION 4 true (of_int 0x0102) (- 0x0304) = Ret r
       /\ wf r
       /\ _length r = _length (of_int 0x0102)
       /\ _flags r = _flags (of_int 0x0102)
       /\ magnitude r = magnitude (of_int 0x0102) + Z.abs (- 0x0304).
Proof.
  assert (H0 : wf (of_int 0x0102)) by wf_by_computation.
  assert (H1 : 0 < 4 <= 4) by lia.
  assert (H2 : in_type 4 true (- 0x0304)) by (unfold in_type; lia).
  refine (conj H0 (conj H1 (conj H2 (conj eq_refl _)))).
  exact (primitive_add_without_carry 4 true (of_int 0x0102) (- 0x0304)
           H0 H1 H2 eq_refl).
Defined.

Lemma le_bytes_small (n : nat) (y : Z) :
  0 <= y < 256 -> le_bytes (S n) y = y :: repeat 0 n.
Proof.
  intros Hy. cbn [le_bytes].
  rewrite Z.mod_small, Z.div_small by lia. f_equal.
  clear. induction n as [| n IH]; [reflexivity |].
  cbn [le_bytes repeat]. change (0 mod 256) with 0. change (0 / 256) with 0.
  rewrite IH. reflexivity.
Qed.

Lemma add_prim_bytes_zeros (n m : nat) :
  add_prim_bytes (repeat 0 n) (repeat 0 m) 0
  = Ret (repeat 0 (Nat.min n m), 0).
Proof.
  revert m. induction n as [| n IH]; intros m; [reflexivity |].
  destruct m as [| m]; [reflexivity |].
  cbn [repeat add_prim_bytes Nat.min]. rewrite IH. reflexivity.
Qed.

(** A carry out of the lowest byte is moved by one bit, not by eight: when
    a bigbigint below 256 and an operand below 256 sum to [s] past 255, the
    result of the addition is [s mod 256 + 256 * (s / 2)]. *)
Theorem primitive_add_halves_the_carry
    (sz : Z) (is_signed : bool) (a : bigbigint) (v : Z) :
  wf a -> 0 < sz <= 4 -> in_type sz is_signed v ->
  magnitude a < 256 -> Z.abs v < 256 -> 255 < magnitude a + Z.abs v ->
  exists r,
    ADD_OPERATOR_MEMBER_FUNCTION sz is_signed a v = Ret r
    /\ _length r = _length a
    /\ magnitude r
       = (magnitude a + Z.abs v) mod 256
         + 256 * ((magnitude a + Z.abs v) / 2).
Proof.
  intros Hwf Hsz Hin Hm Hv Hs.
  pose proof Hwf as (Hl & Hnb & Hlen & Hr).
  pose proof (wf_num_bytes_ge a Hwf) as H8.
  rewrite adding_normal_form by assumption.
  cbv zeta. rewrite (assign_to_fresh_copy a Hwf).
  assert (Hne : _first_byte a <> []).
  { intros E. rewrite E in Hlen. cbn [length] in Hlen. lia. }
  destruct (small_value_bytes (_first_byte a) Hr Hne Hm) as (Hbs & Hm0).
  fold (magnitude a) in Hbs, Hm0.
  set (x := magnitude a) in *. set (y := Z.abs v) in *.
  assert (Hy0 : 0 <= y) by (subst y; lia).
  (* the bytes of both numbers, last byte first *)
  assert (Hn : exists m, (length (_first_byte a) - 1 = 7 + m)%nat).
  { exists (length (_first_byte a) - 8)%nat. lia. }
  destruct Hn as (m & Hn).
  rewrite Hn in Hbs.
  assert (Hrev : rev (_first_byte a) = x :: repeat 0 (7 + m)).
  { rewrite Hbs, rev_app_distr, rev_repeat. reflexivity. }
  rewrite Hrev, (le_bytes_small 7 y) by lia.
  (* the two passes that carry, then zeros *)
  assert (Hout : Z.land (x + y) UCHAR_MAX = (x + y) mod 256)
    by apply land_255.
  assert (Hcar : Z.shiftr (x + y) 1 = (x + y) / 2).
  { rewrite Z.shiftr_div_pow2 by lia. reflexivity. }
  assert (Hc0 : 128 <= (x + y) / 2 < 256).
  { split; [apply Z.div_le_lower_bound; lia |].
    apply Z.div_lt_upper_bound; lia. }
  assert (Hout2 : Z.land ((x + y) / 2) UCHAR_MAX = (x + y) / 2).
  { unfold UCHAR_MAX. change 255 with 0xFF. rewrite land_255.
    apply Z.mod_small. lia. }
  assert (Hloop :
    add_prim_bytes (x :: repeat 0 (7 + m)) (y :: repeat 0 7) 0
    = Ret ((x + y) mod 256 :: (x + y) / 2 :: repeat 0 6, 0)).
  { change (repeat 0 (7 + m)) with (0 :: repeat 0 (6 + m)).
    change (repeat 0 7) with (0 :: repeat 0 6).
    assert (Hgt : (x + y >? UCHAR_MAX) = true).
    { unfold UCHAR_MAX. destruct (Z.gtb_spec (x + y) 255); [reflexivity | lia]. }
    assert (Hgt2 : ((x + y) / 2 >? UCHAR_MAX) = false).
    { unfold UCHAR_MAX.
      destruct (Z.gtb_spec ((x + y) / 2) 255); [lia | reflexivity]. }
    cbn [add_prim_bytes]. rewrite Z.add_0_l. change (0 + 0) with 0.
    rewrite !Hgt, !Hcar, !Z.add_0_r, !Hgt2, Hout, Hout2.
    rewrite add_prim_bytes_zeros.
    replace (Nat.min (6 + m) 6) with 6%nat by lia.
    reflexivity. }
  rewrite Hloop. cbn [bind Z.gtb Z.compare].
  eexists. split; [reflexivity |].
  unfold set_bytes, magnitude. cbn [_first_byte _length].
  split; [reflexivity |].
  unfold store_tail. rewrite be_value_le_combine, rev_app_distr.
  rewrite rev_involutive, le_combine_app.
  cbn [le_combine repeat length].
  rewrite (le_combine_all_zero (rev _)).
  - ring.
  - apply Forall_rev. rewrite Hbs at 2.
    rewrite firstn_app. apply all_zero_app.
    + apply all_zero_firstn. clear. induction (7 + m)%nat; constructor; auto.
    + rewrite repeat_length.
      replace (length (_first_byte a) - 8 - (7 + m))%nat with 0%nat by lia.
      constructor.
Qed.

(** 255 plus the [int] 1 is 0x8000. *)
Lemma primitive_add_halves_the_carry_example :
  wf (of_int 255) /\ 0 < 4 <= 4 /\ in_type 4 true 1
  /\ magnitude (of_int 255) < 256 /\ Z.abs 1 < 256
  /\ 255 < magnitude (of_int 255) + Z.abs 1
  /\ exists r,
       ADD_OPERATOR_MEMBER_FUNCTION 4 true (of_int 255) 1 = Ret r
       /\ _length r = _length (of_int 255)
       /\ magnitude r
          = (magnitude (of_int 255) + Z.abs 1) mod 256
            + 256 * ((magnitude (of_int 255) + Z.abs 1) / 2).
Proof.
  assert (H0 : wf (of_int 255)) by wf_by_computation.
  assert (H1 : 0 < 4 <= 4) by lia.
  assert (H2 : in_type 4 true 1) by (unfold in_type; lia).
  assert (H3 : magnitude (of_int 255) < 256) by (vm_compute; reflexivity).
  assert (H4 : Z.abs 1 < 256) by (vm_compute; reflexivity).
  assert (H5 : 255 < magnitude (of_int 255) + Z.abs 1)
    by (vm_compute; reflexivity).
  refine (conj H0 (conj H1 (conj H2 (conj H3 (conj H4 (conj H5 _)))))).
  exact (primitive_add_halves_the_carry 4 true (of_int 255) 1
           H0 H1 H2 H3 H4 H5).
Defined.

(** ** Multiplying by a primitive operand *)

(** The head of [_perform_integral_multiplication]: [mul_value] is the
    absolute value of the operand and the sign of the result is set from
    the two signs. *)
Lemma multiplication_head (sz : Z) (is_signed : bool) (a : bigbigint) (v : Z) :
  wf a -> 0 < sz <= 4 -> in_type sz is_signed v ->
  MULTIPLY_OPERATOR_MEMBER_FUNCTION sz is_signed a v
  = (let tVal :=
       mk_bigbigint (zeros (_num_bytes a + 4)) (_num_bytes a + 4)
                    (_length a + 1)
                    (if xorb (is_negative a) (v <? 0) then BBI_NEGATIVE else 0) in
     if Z.abs v =? 1 then
       Ret (set_flags (operator_assign tVal a) (_flags tVal))
     else if Z.abs v =? 0 then Ret tVal
     else
       bs <- mul_prim_outer 8 (le_bytes 8 (Z.abs v))
               (_first_byte a) (_length a)
               (_first_byte tVal) (_length tVal) 1 ;;
       Ret (set_bytes tVal bs)).
Proof.
  intros Hwf Hsz Hin.
  pose proof Hwf as (Hl & Hnb & Hlen & Hr).
  unfold BBI_MIN_SIZE, sizeof_BBI_BASE_TYPE in *.
  destruct (widened_abs_bytes sz is_signed v Hsz Hin) as (Hw & Habs & Hrange).
  unfold MULTIPLY_OPERATOR_MEMBER_FUNCTION, _perform_integral_multiplication.
  rewrite Hw. cbv zeta.
  assert (Ht : operator_assign_int (_constructor (_length a + 1)) 0
               = mk_bigbigint (zeros (_num_bytes a + 4)) (_num_bytes a + 4)
                              (_length a + 1) 0).
  { rewrite assign_int_zero_wf by apply wf_constructor.
    rewrite constructor_ge_min by (unfold BBI_MIN_SIZE; lia).
    cbn [_num_bytes _length]. unfold sizeof_BBI_BASE_TYPE.
    replace ((_length a + 1) * 4) with (_num_bytes a + 4) by lia.
    reflexivity. }
  rewrite Ht.
  (* the value tested and multiplied is the absolute value *)
  assert (Hmv : (if (0 <=? v) || negb is_signed then v
                 else to_signed D_LONG_BITS (0 - v)) = Z.abs v
                \/ Z.abs v = 2 ^ 63).
  { destruct (Z.leb_spec 0 v); cbn [orb]; [left; lia |].
    unfold in_type in Hin. destruct is_signed; [| lia]. cbn [negb].
    left. unfold D_LONG_BITS. rewrite to_signed_in_range by lia. lia. }
  destruct Hmv as [Hmv | Hbig]; [| lia].
  rewrite Habs. rewrite Hmv.
  unfold is_negative.
  assert (Hfl :
    (if (0 <=? v) || negb is_signed
     then if IS_NEGATIVE (_flags a)
          then set_flags
                 (mk_bigbigint (zeros (_num_bytes a + 4)) (_num_bytes a + 4)
                               (_length a + 1) 0)
                 (Z.lor 0 BBI_NEGATIVE)
          else mk_bigbigint (zeros (_num_bytes a + 4)) (_num_bytes a + 4)
                            (_length a + 1) 0
     else if negb (IS_NEGATIVE (_flags a))
          then set_flags
                 (mk_bigbigint (zeros (_num_bytes a + 4)) (_num_bytes a + 4)
                               (_length a + 1) 0)
                 (Z.lor 0 BBI_NEGATIVE)
          else mk_bigbigint (zeros (_num_bytes a + 4)) (_num_bytes a + 4)
                            (_length a + 1) 0)
    = mk_bigbigint (zeros (_num_bytes a + 4)) (_num_bytes a + 4)
                   (_length a + 1)
                   (if xorb (IS_NEGATIVE (_flags a)) (v <? 0)
                    then BBI_NEGATIVE else 0)).
  { unfold in_type in Hin.
    destruct (Z.leb_spec 0 v), (Z.ltb_spec v 0); try lia; cbn [orb].
    - rewrite xorb_false_r. destruct (IS_NEGATIVE (_flags a)); reflexivity.
    - destruct is_signed; [| lia]. cbn [negb].
      destruct (IS_NEGATIVE (_flags a)); reflexivity. }
  cbn [_flags] in Hfl |- *. rewrite Hfl.
  reflexivity.
Qed.

(** Multiplying by the primitives 0, 1 and -1 takes the two shortcuts: by 0
    the result is a zero that keeps the sign of the bigbigint; by 1 or -1
    it is the magnitude in a buffer one word longer, with the sign of the
    product. *)
Theorem primitive_multiplication_shortcuts
    (sz : Z) (is_signed : bool) (a : bigbigint) (v : Z) :
  wf a -> 0 < sz <= 4 -> in_type sz is_signed v -> Z.abs v <= 1 ->
  exists r,
    MULTIPLY_OPERATOR_MEMBER_FUNCTION sz is_signed a v = Ret r
    /\ wf r
    /\ _length r = _length a + 1
    /\ magnitude r = magnitude a * Z.abs v
    /\ is_negative r = xorb (is_negative a) (v <? 0).
Proof.
  intros Hwf Hsz Hin Hv.
  pose proof Hwf as (Hl & Hnb & Hlen & Hr).
  unfold BBI_MIN_SIZE, sizeof_BBI_BASE_TYPE in *.
  rewrite multiplication_head by assumption. cbv zeta.
  set (fl := if xorb (is_negative a) (v <? 0) then BBI_NEGATIVE else 0).
  assert (Hfl : IS_NEGATIVE fl = xorb (is_negative a) (v <? 0)).
  { subst fl. destruct (xorb (is_negative a) (v <? 0)); reflexivity. }
  assert (Hwt : wf (mk_bigbigint (zeros (_num_bytes a + 4)) (_num_bytes a + 4)
                                 (_length a + 1) fl)).
  { unfold wf. cbn [_first_byte _num_bytes _length].
    unfold BBI_MIN_SIZE, sizeof_BBI_BASE_TYPE.
    repeat split; try lia.
    - apply length_zeros. lia.
    - apply Forall_byte_zeros. }
  destruct (Z.eqb_spec (Z.abs v) 1) as [H1 | H1].
  - rewrite operator_assign_bytes by (try assumption; cbn [_num_bytes]; lia).
    unfold set_flags. cbn [_first_byte _num_bytes _length _flags].
    eexists. split; [reflexivity |].
    unfold wf, magnitude, is_negative.
    cbn [_first_byte _num_bytes _length _flags].
    unfold BBI_MIN_SIZE, sizeof_BBI_BASE_TYPE.
    repeat split; try lia.
    + rewrite length_app, Nat2Z.inj_add, length_zeros by lia. lia.
    + apply Forall_app. split; [apply Forall_byte_zeros | exact Hr].
    + rewrite be_value_zeros_app, H1. lia.
    + exact Hfl.
  - destruct (Z.eqb_spec (Z.abs v) 0) as [H0 | H0]; [| lia].
    eexists. split; [reflexivity |].
    split; [exact Hwt |].
    unfold magnitude, is_negative. cbn [_first_byte _length _flags].
    repeat split.
    + rewrite be_value_all_zero by apply all_zero_zeros. rewrite H0. lia.
    + exact Hfl.
Qed.

(** -7 times the [int] 0: a zero with the sign bit set. *)
Lemma primitive_multiplication_shortcuts_example :
  wf (of_int (-7)) /\ 0 < 4 <= 4 /\ in_type 4 true 0 /\ Z.abs 0 <= 1
  /\ exists r,
       MULTIPLY_OPERATOR_MEMBER_FUNCTION 4 true (of_int (-7)) 0 = Ret r
       /\ wf r
       /\ _length r = _length (of_int (-7)) + 1
       /\ magnitude r = magnitude (of_int (-7)) * Z.abs 0
       /\ is_negative r = xorb (is_negative (of_int (-7))) (0 <? 0).
Proof.
  assert (H0 : wf (of_int (-7))) by wf_by_computation.
  assert (H1 : 0 < 4 <= 4) by lia.
  assert (H2 : in_type 4 true 0) by (unfold in_type; lia).
  assert (H3 : Z.abs 0 <= 1) by (vm_compute; discriminate).
  refine (conj H0 (conj H1 (conj H2 (conj H3 _)))).
  exact (primitive_multiplication_shortcuts 4 true (of_int (-7)) 0
           H0 H1 H2 H3).
Defined.

(** For every primitive multiplier but 0, 1 and -1 the first pass of the
    loops reads word 7 of the 8-byte variable [mul_value]: the pointer
    [p_mult] is advanced by [sizeof(mul_value) - 1] words, not bytes, and
    the multiplication leaves the variable before it stores anything. *)
Theorem primitive_multiplication_leaves_operand
    (sz : Z) (is_signed : bool) (a : bigbigint) (v : Z) :
  wf a -> 0 < sz <= 4 -> in_type sz is_signed v -> 2 <= Z.abs v ->
  MULTIPLY_OPERATOR_MEMBER_FUNCTION sz is_signed a v = Fault.
Proof.
  intros Hwf Hsz Hin Hv.
  pose proof Hwf as (Hl & Hnb & Hlen & Hr).
  unfold BBI_MIN_SIZE, sizeof_BBI_BASE_TYPE in *.
  rewrite multiplication_head by assumption. cbv zeta.
  destruct (Z.eqb_spec (Z.abs v) 1); [lia |].
  destruct (Z.eqb_spec (Z.abs v) 0); [lia |].
  cbn [mul_prim_outer].
  destruct (Z.to_nat (_length a)) as [| n'] eqn:En; [lia |].
  cbn [mul_prim_inner].
  unfold load_word_opt at 1. rewrite length_le_bytes.
  cbn [Z.of_nat Z.leb Z.compare Z.mul Z.add Pos.mul Pos.add Pos.succ
       Pos.of_succ_nat Pos.compare Pos.compare_cont andb bind].
  reflexivity.
Qed.

(** 6 times the [int] 7. *)
Lemma primitive_multiplication_leaves_operand_example :
  wf (of_int 6) /\ 0 < 4 <= 4 /\ in_type 4 true 7 /\ 2 <= Z.abs 7
  /\ MULTIPLY_OPERATOR_MEMBER_FUNCTION 4 true (of_int 6) 7 = Fault.
Proof.
  assert (H0 : wf (of_int 6)) by wf_by_computation.
  assert (H1 : 0 < 4 <= 4) by lia.
  assert (H2 : in_type 4 true 7) by (unfold in_type; lia).
  assert (H3 : 2 <= Z.abs 7) by (vm_compute; discriminate).
  refine (conj H0 (conj H1 (conj H2 (conj H3 _)))).
  exact (primitive_multiplication_leaves_operand 4 true (of_int 6) 7
           H0 H1 H2 H3).
Defined.

(** ** Division when the divisor is not below the dividend *)

(** Assignment from another bigbigint, whatever the two capacities. *)
Lemma operator_assign_value (this NewVal : bigbigint) :
  wf this -> wf NewVal ->
  wf (operator_assign this NewVal)
  /\ magnitude (operator_assign this NewVal) = magnitude NewVal
  /\ _flags (operator_assign this NewVal) = _flags NewVal.
Proof.
  intros Ht Hn.
  pose proof Ht as (Hlt & Hnt & Hlent & Hrt).
  pose proof Hn as (Hln & Hnn & Hlenn & Hrn).
  unfold BBI_MIN_SIZE, sizeof_BBI_BASE_TYPE in *.
  destruct (Z.le_gt_cases (_num_bytes NewVal) (_num_bytes this)) as [Hle | Hgt].
  - rewrite operator_assign_bytes by assumption.
    unfold wf, magnitude. cbn [_first_byte _num_bytes _length _flags].
    unfold BBI_MIN_SIZE, sizeof_BBI_BASE_TYPE.
    repeat split; try lia.
    + rewrite length_app, Nat2Z.inj_add, length_zeros by lia. lia.
    + apply Forall_app. split; [apply Forall_byte_zeros | exact Hrn].
    + apply be_value_zeros_app.
  - unfold operator_assign.
    destruct (Z.eqb_spec (_num_bytes this) (_num_bytes NewVal)); [lia |].
    destruct (Z.ltb_spec (_num_bytes this) (_num_bytes NewVal)); [| lia].
    rewrite (copy_of_wf NewVal Hn).
    unfold wf, magnitude, set_flags. cbn [_first_byte _num_bytes _length _flags].
    unfold BBI_MIN_SIZE, sizeof_BBI_BASE_TYPE.
    repeat split; try lia. exact Hrn.
Qed.

Lemma operator_eq_int_magnitude (a : bigbigint) (v : Z) :
  wf a -> in_type 4 true v ->
  operator_eq_int a v = (magnitude a =? Z.abs v).
Proof.
  intros Ha Hin.
  change (operator_eq_int a v) with (comp_result_prim 4 true a v =? 0).
  rewrite comp_result_prim_three_way by (try assumption; lia).
  apply three_way_tests.
Qed.

(** [_perform_integral_division] returns in the cases its first tests
    catch: when the magnitude of the divisor is not zero and not below the
    magnitude of the dividend, the objects behind [quotient] and
    [remainder] receive the quotient (0 or 1) and the remainder of the
    magnitudes, before any loop pass.  The quotient never carries a sign. *)
Theorem division_of_small_dividend
    (fuel : nat) (dividend divisor quotient remainder : bigbigint) :
  wf dividend -> wf divisor -> wf quotient -> wf remainder ->
  0 < magnitude divisor -> magnitude dividend <= magnitude divisor ->
  exists q r,
    _perform_integral_division fuel dividend divisor quotient remainder
    = Ret (q, r)
    /\ magnitude q = magnitude dividend / magnitude divisor
    /\ magnitude r = magnitude dividend mod magnitude divisor
    /\ is_negative q = false.
Proof.
  intros Hdd Hdr Hq Hr Hpos Hle.
  assert (Hi0 : in_type 4 true 0) by (unfold in_type; lia).
  assert (Hi1 : in_type 4 true 1) by (unfold in_type; lia).
  assert (H48 : 0 < 4 <= 8) by lia.
  destruct (assign_int_types_value 4 true quotient 0 Hq H48 Hi0)
    as (Hq0w & _ & _ & Hq0m & Hq0s).
  destruct (assign_int_types_value 4 true remainder 0 Hr H48 Hi0)
    as (Hr0w & _ & _ & Hr0m & _).
  fold operator_assign_int in Hq0w, Hq0m, Hq0s, Hr0w, Hr0m.
  pose proof (be_value_bound _ (proj2 (proj2 (proj2 Hdd)))) as Hdd0.
  fold (magnitude dividend) in Hdd0.
  unfold _perform_integral_division.
  rewrite (operator_eq_int_magnitude divisor 0 Hdr Hi0).
  destruct (Z.eqb_spec (magnitude divisor) (Z.abs 0)) as [E | _];
    [cbn in E; lia |].
  assert (Hgt : operator_gt divisor dividend
                = (magnitude divisor >? magnitude dividend)).
  { unfold operator_gt. rewrite comp_result_three_way by assumption.
    apply three_way_tests. }
  assert (Heq : operator_eq divisor dividend
                = (magnitude divisor =? magnitude dividend)).
  { unfold operator_eq. rewrite comp_result_three_way by assumption.
    apply three_way_tests. }
  rewrite Hgt, Heq.
  destruct (Z.gtb_spec (magnitude divisor) (magnitude dividend)) as [Hg | Hng].
  - (* the divisor is greater: quotient 0, the dividend is the remainder *)
    destruct (operator_assign_value (operator_assign_int remainder 0) dividend
                Hr0w Hdd) as (_ & Hrm & _).
    eexists. eexists. split; [reflexivity |].
    rewrite Hq0m, Hrm, Hq0s.
    rewrite Z.div_small, Z.mod_small by lia. repeat split.
  - (* equal magnitudes: quotient 1, remainder 0 *)
    destruct (Z.eqb_spec (magnitude divisor) (magnitude dividend)) as [He | Hne];
      [| lia].
    destruct (assign_int_types_value 4 true (operator_assign_int quotient 0) 1
                Hq0w H48 Hi1) as (_ & _ & _ & Hq1m & Hq1s).
    fold operator_assign_int in Hq1m, Hq1s.
    eexists. eexists. split; [reflexivity |].
    rewrite Hq1m, Hr0m, Hq1s, <- He.
    rewrite Z.div_same, Z.mod_same by lia. repeat split.
Qed.

(** -7 divided by 7: the quotient is +1. *)
Lemma division_of_small_dividend_example :
  wf (of_int (-7)) /\ wf (of_int 7) /\ wf (_constructor 0)
  /\ wf (_constructor 0)
  /\ 0 < magnitude (of_int 7)
  /\ magnitude (of_int (-7)) <= magnitude (of_int 7)
  /\ exists q r,
       _perform_integral_division 0 (of_int (-7)) (of_int 7)
         (_constructor 0) (_constructor 0) = Ret (q, r)
       /\ magnitude q = magnitude (of_int (-7)) / magnitude (of_int 7)
       /\ magnitude r = magnitude (of_int (-7)) mod magnitude (of_int 7)
       /\ is_negative q = false.
Proof.
  assert (H0 : wf (of_int (-7))) by wf_by_computation.
  assert (H1 : 0 < magnitude (of_int 7)) by (vm_compute; reflexivity).
  assert (H2 : magnitude (of_int (-7)) <= magnitude (of_int 7))
    by (vm_compute; discriminate).
  refine (conj H0 (conj wf_of_int_7 (conj (wf_constructor 0)
            (conj (wf_constructor 0) (conj H1 (conj H2 _)))))).
  exact (division_of_small_dividend 0 _ _ _ _ H0 wf_of_int_7
           (wf_constructor 0) (wf_constructor 0) H1 H2).
Defined.

(** ** Negation twice *)

(** Unary minus is an involution: negating twice gives the value back,
    buffer, capacity and flags. *)
Theorem negation_twice_is_identity (a : bigbigint) :
  wf a -> operator_neg (operator_neg a) = a.
Proof.
  intros Hwf. rewrite (operator_neg_spec a Hwf).
  assert (Hwf' : wf (set_flags a (Z.lxor (_flags a) BBI_NEGATIVE))).
  { destruct Hwf as (H1 & H2 & H3 & H4). repeat split; assumption. }
  rewrite (operator_neg_spec _ Hwf').
  unfold set_flags. cbn [_first_byte _num_bytes _length _flags].
  rewrite Z.lxor_assoc, Z.lxor_nilpotent, Z.lxor_0_r.
  destruct a; reflexivity.
Qed.

(** -3 negated twice. *)
Lemma negation_twice_is_identity_example :
  wf (of_int (-3)) /\ operator_neg (operator_neg (of_int (-3))) = of_int (-3).
Proof.
  refine (conj wf_of_int_minus_3 _).
  exact (negation_twice_is_identity (of_int (-3)) wf_of_int_minus_3).
Defined.

(** ** Addition of operands of different lengths *)

Lemma le_combine_firstn (k : nat) (xs : list Z) :
  Forall is_byte xs -> (k <= length xs)%nat ->
  le_combine (firstn k xs) = le_combine xs mod 256 ^ Z.of_nat k.
Proof.
  intros Hx Hk.
  rewrite <- (firstn_skipn k xs) at 2.
  rewrite le_combine_app.
  assert (Hl : length (firstn k xs) = k) by (rewrite length_firstn; lia).
  rewrite Hl.
  pose proof (le_combine_bound _ (Forall_firstn_list is_byte k xs Hx)) as Hb.
  rewrite Hl in Hb.
  apply Z.mod_unique_pos with (q := le_combine (skipn k xs));
    [exact Hb | ring].
Qed.

(** The byte loop of [operator +] stops at the end of the shorter operand
    and the rest of the longer one is not copied: when the low bytes the
    operands have in common do not carry, the sum of two values of one sign
    is the sum of those low bytes alone, in the capacity of the longer
    operand. *)
Theorem add_keeps_only_common_low_bytes (fuel : nat) (a b : bigbigint) :
  wf a -> wf b -> is_negative a = is_negative b ->
  magnitude a mod 256 ^ Z.min (_num_bytes a) (_num_bytes b)
  + magnitude b mod 256 ^ Z.min (_num_bytes a) (_num_bytes b)
  < 256 ^ Z.min (_num_bytes a) (_num_bytes b) ->
  exists r,
    operator_plus (S fuel) a b = Ret (a, r)
    /\ wf r
    /\ _length r = Z.max (_length a) (_length b)
    /\ _flags r = _flags a
    /\ magnitude r
       = magnitude a mod 256 ^ Z.min (_num_bytes a) (_num_bytes b)
         + magnitude b mod 256 ^ Z.min (_num_bytes a) (_num_bytes b).
Proof.
  intros Ha Hb Hs Hfit.
  pose proof Ha as (Hla & Hna & Hlena & Hra).
  pose proof Hb as (Hlb & Hnb & Hlenb & Hrb).
  unfold BBI_MIN_SIZE, sizeof_BBI_BASE_TYPE in *.
  set (k := Nat.min (length (_first_byte a)) (length (_first_byte b))).
  assert (Hkm : Z.of_nat k = Z.min (_num_bytes a) (_num_bytes b))
    by (subst k; lia).
  rewrite <- Hkm in *.
  destruct (add_bytes_spec (rev (_first_byte a)) (rev (_first_byte b)) 0)
    as (Hk & Hbo & Hr01 & Hsum);
    [apply Forall_rev, Hra | apply Forall_rev, Hrb | lia |].
  rewrite !length_rev in Hk, Hsum. fold k in Hk, Hsum.
  rewrite !le_combine_firstn in Hsum
    by (try apply Forall_rev; try rewrite length_rev; try assumption;
        subst k; lia).
  rewrite <- !be_value_le_combine in Hsum.
  fold (magnitude a) (magnitude b) in Hsum.
  pose proof (le_combine_bound _ Hbo) as Hob. rewrite Hk in Hob.
  assert (Hc : snd (add_bytes (rev (_first_byte a)) (rev (_first_byte b)) 0) = 0).
  { set (P := 256 ^ Z.of_nat k) in *. nia. }
  pose proof (add_same_sign_no_carry a b Ha Hb Hc) as Hres. cbv zeta in Hres.
  rewrite Hc in Hsum.
  set (outs := fst (add_bytes (rev (_first_byte a)) (rev (_first_byte b)) 0)) in *.
  rewrite MAX_max in Hres.
  set (L := Z.max (_length a) (_length b)) in *.
  assert (HL : 2 <= L) by (subst L; lia).
  unfold sizeof_BBI_BASE_TYPE in Hres.
  assert (Hz : Z.of_nat (length (zeros (L * 4))) = L * 4)
    by (apply length_zeros; lia).
  assert (HkL : Z.of_nat k <= L * 4) by (subst L; lia).
  exists (add_same_sign a b).
  rewrite (plus_same_sign fuel a b Hs), Hres.
  unfold wf, magnitude at 1. cbn [_length _num_bytes _first_byte _flags].
  unfold BBI_MIN_SIZE, sizeof_BBI_BASE_TYPE.
  repeat split; try lia.
  - rewrite length_store_tail by lia. exact Hz.
  - unfold store_tail. apply Forall_app. split.
    + apply Forall_firstn_list, Forall_byte_zeros.
    + apply Forall_rev, Hbo.
  - unfold store_tail. rewrite be_value_app.
    rewrite (be_value_all_zero (firstn _ _))
      by apply all_zero_firstn, all_zero_zeros.
    rewrite be_value_rev. lia.
Qed.

(** 0x1_00000000_00000005 in three words plus 3 in two words is 8: the
    third word of the longer operand is lost. *)
Lemma add_keeps_only_common_low_bytes_example :
  wf (mk_bigbigint [0; 0; 0; 1; 0; 0; 0; 0; 0; 0; 0; 5] 12 3 0)
  /\ wf (of_int 3)
  /\ is_negative (mk_bigbigint [0; 0; 0; 1; 0; 0; 0; 0; 0; 0; 0; 5] 12 3 0)
     = is_negative (of_int 3)
  /\ magnitude (mk_bigbigint [0; 0; 0; 1; 0; 0; 0; 0; 0; 0; 0; 5] 12 3 0)
       mod 256 ^ Z.min 12 (_num_bytes (of_int 3))
     + magnitude (of_int 3) mod 256 ^ Z.min 12 (_num_bytes (of_int 3))
     < 256 ^ Z.min 12 (_num_bytes (of_int 3))
  /\ exists r,
       operator_plus 1
         (mk_bigbigint [0; 0; 0; 1; 0; 0; 0; 0; 0; 0; 0; 5] 12 3 0) (of_int 3)
       = Ret (mk_bigbigint [0; 0; 0; 1; 0; 0; 0; 0; 0; 0; 0; 5] 12 3 0, r)
       /\ wf r
       /\ _length r = Z.max 3 (_length (of_int 3))
       /\ _flags r = 0
       /\ magnitude r
          = magnitude (mk_bigbigint [0; 0; 0; 1; 0; 0; 0; 0; 0; 0; 0; 5] 12 3 0)
              mod 256 ^ Z.min 12 (_num_bytes (of_int 3))
            + magnitude (of_int 3) mod 256 ^ Z.min 12 (_num_bytes (of_int 3)).
Proof.
  assert (H0 : wf (mk_bigbigint [0; 0; 0; 1; 0; 0; 0; 0; 0; 0; 0; 5] 12 3 0))
    by wf_by_computation.
  assert (H1 : magnitude (mk_bigbigint [0; 0; 0; 1; 0; 0; 0; 0; 0; 0; 0; 5] 12 3 0)
                 mod 256 ^ Z.min 12 (_num_bytes (of_int 3))
               + magnitude (of_int 3) mod 256 ^ Z.min 12 (_num_bytes (of_int 3))
               < 256 ^ Z.min 12 (_num_bytes (of_int 3)))
    by (vm_compute; reflexivity).
  refine (conj H0 (conj wf_of_int_3 (conj eq_refl (conj H1 _)))).
  exact (add_keeps_only_common_low_bytes 0 _ _ H0 wf_of_int_3 eq_refl H1).
Defined.

(** ** Subtraction into a longer buffer *)

Lemma sub_positive_steps (this Subtrahend : bigbigint) :
  sub_positive this Subtrahend
  = sub_steps this
      (set_flags
         (operator_assign
            (_constructor (MAX (_length this) (_length Subtrahend)))
            Subtrahend)
         (_flags this)).
Proof. reflexivity. Qed.

(** The three steps on a subtrahend that fits the bytes of the minuend:
    without a carry the result is the distance with the sign flipped; with
    one, the bytes of [tVal] above the minuend keep the complement. *)
Lemma sub_steps_spec (this tVal : bigbigint) :
  wf this -> wf tVal -> is_negative tVal = false ->
  _num_bytes this <= _num_bytes tVal ->
  magnitude tVal < 256 ^ _num_bytes this ->
  wf (sub_steps this tVal)
  /\ _length (sub_steps this tVal) = _length tVal
  /\ magnitude (sub_steps this tVal)
     = (if magnitude this <=? magnitude tVal
        then magnitude tVal - magnitude this
        else magnitude this - magnitude tVal
             + (256 ^ _num_bytes tVal - 256 ^ _num_bytes this))
  /\ is_negative (sub_steps this tVal) = (magnitude this <=? magnitude tVal).
Proof.
  intros Ha Hb Hsb Hle HBk.
  pose proof Ha as (Hla & Hna & Hlena & Hra).
  pose proof Hb as (Hlb & Hnb & Hlenb & Hrb).
  unfold sub_steps.
  rewrite ONES_COMPLEMENT_spec by lia.
  unfold set_bytes. cbn [_num_bytes _length _first_byte _flags].
  set (cb := map (fun x => Z.lxor x UCHAR_MAX) (_first_byte tVal)).
  set (k := length (_first_byte this)) in *.
  set (n := length (_first_byte tVal)) in *.
  assert (Hkn : (k <= n)%nat) by lia.
  assert (Hcb : Forall is_byte cb) by (apply Forall_is_byte_complement, Hrb).
  assert (Hlcb : length cb = n) by (subst cb; apply length_map).
  destruct (add_bytes_spec (rev (_first_byte this)) (rev cb) 0)
    as (Hk & Hbo & Hr01 & Hsum);
    [apply Forall_rev, Hra | apply Forall_rev, Hcb | lia |].
  rewrite !length_rev, Hlcb in Hk, Hsum. fold k in Hk, Hsum.
  rewrite (Nat.min_l k n Hkn) in Hk, Hsum.
  rewrite (firstn_all2 (rev (_first_byte this))) in Hsum
    by (rewrite length_rev; fold k; lia).
  rewrite <- be_value_le_combine in Hsum. fold (magnitude this) in Hsum.
  assert (Hcv : le_combine (rev cb) = 256 ^ Z.of_nat n - 1 - magnitude tVal).
  { subst cb. rewrite <- map_rev, le_combine_complement by (apply Forall_rev, Hrb).
    rewrite length_rev. fold n. unfold magnitude.
    rewrite (be_value_le_combine (_first_byte tVal)). reflexivity. }
  assert (HA : 0 <= magnitude this < 256 ^ Z.of_nat k).
  { unfold magnitude. apply be_value_bound, Hra. }
  assert (HB : 0 <= magnitude tVal).
  { unfold magnitude. apply be_value_bound, Hrb. }
  rewrite <- Hlenb, <- Hlena in *.
  set (P := 256 ^ Z.of_nat k) in *.
  set (Q := 256 ^ (Z.of_nat n - Z.of_nat k)).
  assert (HPQ : 256 ^ Z.of_nat n = P * Q).
  { subst P Q. apply pow_256_split. lia. }
  assert (HP : 0 < P) by (subst P; apply Z.pow_pos_nonneg; lia).
  assert (HQ : 0 < Q) by (subst Q; apply Z.pow_pos_nonneg; lia).
  rewrite HPQ in *.
  assert (Hlo : le_combine (firstn k (rev cb)) = P - 1 - magnitude tVal).
  { rewrite le_combine_firstn
      by (try apply Forall_rev; try rewrite length_rev; try assumption; lia).
    rewrite Hcv. fold P. symmetry.
    apply Z.mod_unique_pos with (q := Q - 1); [lia | ring]. }
  assert (Hhi : le_combine (skipn k (rev cb)) = Q - 1).
  { pose proof (le_combine_app (firstn k (rev cb)) (skipn k (rev cb))) as H.
    rewrite firstn_skipn, Hcv, Hlo in H.
    rewrite length_firstn, length_rev, Hlcb, (Nat.min_l k n Hkn) in H.
    fold P in H.
    apply (Z.mul_reg_l _ _ P); lia. }
  rewrite Hlo in Hsum.
  pose proof (le_combine_bound _ Hbo) as Hob. rewrite Hk in Hob. fold P in Hob.
  destruct (add_bytes (rev (_first_byte this)) (rev cb) 0) as [outs r].
  cbn [fst snd] in *.
  set (st := store_tail cb outs).
  assert (Hlst : length st = n).
  { subst st. unfold store_tail. rewrite length_app, length_firstn, length_rev.
    lia. }
  assert (Hfst : Forall is_byte st).
  { subst st. unfold store_tail. apply Forall_app. split.
    - apply Forall_firstn_list, Hcb.
    - apply Forall_rev, Hbo. }
  assert (Hrst : rev st = outs ++ skipn k (rev cb)).
  { subst st. unfold store_tail.
    rewrite rev_app_distr, rev_involutive, skipn_rev, Hlcb, Hk. reflexivity. }
  assert (Hvst : le_combine (rev st) = le_combine outs + P * (Q - 1)).
  { rewrite Hrst, le_combine_app, Hk, Hhi. reflexivity. }
  assert (HPQ1 : P * (Q - 1) = P * Q - P) by ring.
  unfold is_negative in Hsb.
  destruct (Z.leb_spec (magnitude this) (magnitude tVal)) as [Hcmp | Hcmp].
  - (* no carry: complement again, set the sign *)
    assert (r = 0) by nia. subst r. cbn [Z.leb Z.compare].
    rewrite ONES_COMPLEMENT_spec by (cbn [_first_byte _length]; lia).
    unfold set_bytes. cbn [_num_bytes _length _first_byte _flags]. rewrite Hsb.
    unfold is_negative, magnitude, wf, set_flags.
    cbn [_num_bytes _length _first_byte _flags].
    repeat split; try lia.
    + rewrite length_map. lia.
    + apply Forall_is_byte_complement, Hfst.
    + rewrite be_value_le_combine, <- map_rev.
      rewrite le_combine_complement by (apply Forall_rev, Hfst).
      rewrite length_rev, Hlst, HPQ, Hvst.
      fold (magnitude this) (magnitude tVal). lia.
    + apply IS_NEGATIVE_set.
  - (* a carry: add it back *)
    assert (r = 1) by nia. subst r. cbn [Z.leb Z.compare].
    destruct (add_carry_spec (rev st) 1) as (Hv & Hlc & Hfc);
      [apply Forall_rev, Hfst | lia
       | rewrite length_rev, Hlst, HPQ, Hvst; lia |].
    unfold is_negative, magnitude, wf.
    cbn [_num_bytes _length _first_byte _flags].
    repeat split; try lia.
    + rewrite length_rev, Hlc, length_rev. lia.
    + apply Forall_rev, Hfc.
    + rewrite be_value_rev, Hv, Hvst.
      fold (magnitude this) (magnitude tVal). lia.
    + exact Hsb.
Qed.

Lemma constructor_sized (size : Z) :
  BBI_MIN_SIZE <= size ->
  _length (_constructor size) = size
  /\ _num_bytes (_constructor size) = size * sizeof_BBI_BASE_TYPE.
Proof.
  unfold _constructor, BBI_MIN_SIZE. intros H.
  destruct (Z.ltb_spec size 2); [lia |]. split; reflexivity.
Qed.

Lemma wf_set_flags (v : bigbigint) (fl : Z) : wf v -> wf (set_flags v fl).
Proof. intros H. exact H. Qed.

(** For non-negative operands with [b] below [256 ^ _num_bytes a], [a - b]
    is the distance with the sign bit set when [a] is not the greater one.
    When [a] is the greater one and [b] has the longer buffer, the bytes of
    the result above the capacity of [a] are all 0xFF: the loop stops at
    the first byte of [a] and leaves the complement there. *)
Theorem subtract_from_shorter_minuend (fuel : nat) (a b : bigbigint) :
  wf a -> wf b -> is_negative a = false -> is_negative b = false ->
  magnitude b < 256 ^ _num_bytes a ->
  exists r,
    operator_minus (S fuel) a b = Ret (a, r)
    /\ wf r
    /\ _length r = Z.max (_length a) (_length b)
    /\ magnitude r
       = (if magnitude a <=? magnitude b
          then magnitude b - magnitude a
          else magnitude a - magnitude b
               + (256 ^ Z.max (_num_bytes a) (_num_bytes b)
                  - 256 ^ _num_bytes a))
    /\ is_negative r = (magnitude a <=? magnitude b).
Proof.
  intros Ha Hb Hsa Hsb Hfit.
  pose proof Ha as (Hla & Hna & Hlena & Hra).
  pose proof Hb as (Hlb & Hnb & Hlenb & Hrb).
  exists (sub_positive a b). rewrite (minus_positive fuel a b Hsa Hsb).
  split; [reflexivity |]. rewrite sub_positive_steps, MAX_max.
  set (L := Z.max (_length a) (_length b)).
  destruct (constructor_sized L) as (HcL & HcN); [subst L; lia |].
  pose proof (wf_constructor L) as Hwc.
  unfold BBI_MIN_SIZE, sizeof_BBI_BASE_TYPE in *.
  assert (Hnle : _num_bytes b <= _num_bytes (_constructor L))
    by (rewrite HcN; subst L; lia).
  destruct (operator_assign_value (_constructor L) b Hwc Hb) as (Hwt & Hmt & Hft).
  pose proof (operator_assign_bytes (_constructor L) b Hwc Hb Hnle) as Hbytes.
  set (t := operator_assign (_constructor L) b) in *.
  assert (HtN : _num_bytes t = L * 4) by (rewrite Hbytes; exact HcN).
  assert (HtL : _length t = L) by (rewrite Hbytes; exact HcL).
  destruct (sub_steps_spec a (set_flags t (_flags a)))
    as (Hw & Hl & Hm & Hs);
    [exact Ha | apply wf_set_flags, Hwt | exact Hsa
     | cbn [set_flags _num_bytes]; subst L; lia
     | unfold magnitude in *; cbn [set_flags _first_byte]; lia |].
  change (magnitude (set_flags t (_flags a))) with (magnitude t) in Hm, Hs.
  change (_num_bytes (set_flags t (_flags a))) with (_num_bytes t) in Hm.
  change (_length (set_flags t (_flags a))) with (_length t) in Hl.
  rewrite Hmt in Hm, Hs. rewrite HtN in Hm.
  replace (Z.max (_num_bytes a) (_num_bytes b)) with (L * 4) by (subst L; lia).
  repeat split; try assumption; try apply Hw. lia.
Qed.

(** 5 in two words minus 3 in three words has 0xFFFFFFFF as its first word. *)
Lemma subtract_from_shorter_minuend_example :
  wf (of_int 5)
  /\ wf (mk_bigbigint [0; 0; 0; 0; 0; 0; 0; 0; 0; 0; 0; 3] 12 3 0)
  /\ is_negative (of_int 5) = false
  /\ is_negative (mk_bigbigint [0; 0; 0; 0; 0; 0; 0; 0; 0; 0; 0; 3] 12 3 0)
     = false
  /\ magnitude (mk_bigbigint [0; 0; 0; 0; 0; 0; 0; 0; 0; 0; 0; 3] 12 3 0)
     < 256 ^ _num_bytes (of_int 5)
  /\ exists r,
       operator_minus 1 (of_int 5)
         (mk_bigbigint [0; 0; 0; 0; 0; 0; 0; 0; 0; 0; 0; 3] 12 3 0)
       = Ret (of_int 5, r)
       /\ wf r
       /\ _length r = Z.max (_length (of_int 5)) 3
       /\ magnitude r
          = (if magnitude (of_int 5)
                <=? magnitude
                      (mk_bigbigint [0; 0; 0; 0; 0; 0; 0; 0; 0; 0; 0; 3] 12 3 0)
             then magnitude
                    (mk_bigbigint [0; 0; 0; 0; 0; 0; 0; 0; 0; 0; 0; 3] 12 3 0)
                  - magnitude (of_int 5)
             else magnitude (of_int 5)
                  - magnitude
                      (mk_bigbigint [0; 0; 0; 0; 0; 0; 0; 0; 0; 0; 0; 3] 12 3 0)
                  + (256 ^ Z.max (_num_bytes (of_int 5)) 12
                     - 256 ^ _num_bytes (of_int 5)))
       /\ is_negative r
          = (magnitude (of_int 5)
             <=? magnitude
                   (mk_bigbigint [0; 0; 0; 0; 0; 0; 0; 0; 0; 0; 0; 3] 12 3 0)).
Proof.
  assert (Hb : wf (mk_bigbigint [0; 0; 0; 0; 0; 0; 0; 0; 0; 0; 0; 3] 12 3 0))
    by wf_by_computation.
  assert (Hfit : magnitude
                   (mk_bigbigint [0; 0; 0; 0; 0; 0; 0; 0; 0; 0; 0; 3] 12 3 0)
                 < 256 ^ _num_bytes (of_int 5)) by reflexivity.
  refine (conj wf_of_int_5 (conj Hb (conj eq_refl (conj eq_refl (conj Hfit _))))).
  exact (subtract_from_shorter_minuend 0 _ _ wf_of_int_5 Hb eq_refl eq_refl Hfit).
Defined.

(** ** Subtraction of a primitive operand *)






(** ** Decrement *)




(** ** Products of one-word values *)

Lemma load_word_at (pre w post : list Z) (k : Z) :
  Z.of_nat (length pre) = 4 * k -> length w = 4%nat ->
  load_word (pre ++ w ++ post) k = le_combine w.
Proof.
  intros Hp Hw. unfold load_word.
  rewrite <- Hp, Nat2Z.id, skipn_app, skipn_all, Nat.sub_diag.
  cbn [skipn app].
  rewrite firstn_app, Hw, Nat.sub_diag, firstn_O, app_nil_r.
  rewrite <- Hw. rewrite firstn_all. reflexivity.
Qed.

Lemma store_word_at (pre w post : list Z) (k v : Z) :
  Z.of_nat (length pre) = 4 * k -> length w = 4%nat ->
  store_word (pre ++ w ++ post) k v = pre ++ le_bytes 4 v ++ post.
Proof.
  intros Hp Hw. unfold store_word, memcpy.
  rewrite <- Hp.
  replace (Z.to_nat (Z.of_nat (length pre) + 4)) with (length pre + 4)%nat by lia.
  rewrite Nat2Z.id.
  rewrite firstn_app, firstn_all, Nat.sub_diag, firstn_O, app_nil_r.
  change (Z.to_nat 0) with 0%nat. change (Z.to_nat 4) with 4%nat.
  cbn [skipn].
  rewrite <- (length_le_bytes 4 v) at 1. rewrite firstn_all.
  rewrite skipn_app, skipn_all2 by lia.
  replace (length pre + 4 - length pre)%nat with 4%nat by lia.
  rewrite skipn_app, Hw, Nat.sub_diag, <- Hw, skipn_all.
  reflexivity.
Qed.

Lemma reverse_word (w : list Z) :
  length w = 4%nat -> Forall is_byte w ->
  REVERSE_BYTE_ORDER 4 (le_combine w) = be_value w.
Proof.
  intros Hw Hb. unfold REVERSE_BYTE_ORDER. change (Z.to_nat 4) with 4%nat.
  rewrite <- Hw, le_bytes_le_combine by exact Hb.
  symmetry. apply be_value_le_combine.
Qed.

Lemma word_of_le_bytes (v : Z) :
  0 <= v < 2 ^ 32 -> le_combine (le_bytes 4 v) = v.
Proof.
  intros H. rewrite le_combine_le_bytes. apply Z.mod_small.
  change (256 ^ Z.of_nat 4) with (2 ^ 32). exact H.
Qed.

(** The two loops of [operator *] on two operands of two words whose first
    word is zero. *)
Lemma mul_outer_one_word (sa sb : list Z) :
  length sa = 4%nat -> length sb = 4%nat ->
  Forall is_byte sa -> Forall is_byte sb ->
  mul_outer 2 (zeros 4 ++ sb) (zeros 4 ++ sa) 2 (zeros 16) 4 1
  = zeros 8
      ++ le_bytes 4 (be_value sb * be_value sa / 2 ^ 32)
      ++ le_bytes 4 ((be_value sb * be_value sa) mod 2 ^ 32).
Proof.
  intros Hla Hlb Hfa Hfb.
  pose proof (be_value_bound sa Hfa) as HA. rewrite Hla in HA.
  pose proof (be_value_bound sb Hfb) as HB. rewrite Hlb in HB.
  change (256 ^ Z.of_nat 4) with (2 ^ 32) in HA, HB.
  set (A := be_value sa) in *. set (B := be_value sb) in *.
  assert (HBA : 0 <= B * A < 2 ^ 64).
  { change (2 ^ 64) with (2 ^ 32 * 2 ^ 32). split; [apply Z.mul_nonneg_nonneg; lia |].
    apply Z.mul_lt_mono_nonneg; lia. }
  set (hi := B * A / 2 ^ 32). set (lo := (B * A) mod 2 ^ 32).
  assert (Hhi : 0 <= hi < 2 ^ 32).
  { subst hi. split; [apply Z.div_pos; lia |].
    apply Z.div_lt_upper_bound; [lia |]. change (2 ^ 32 * 2 ^ 32) with (2 ^ 64). lia. }
  assert (Hlo : 0 <= lo < 2 ^ 32) by (subst lo; apply Z.mod_pos_bound; lia).
  (* the words read from the operands *)
  assert (Ha1 : REVERSE_BYTE_ORDER 4 (load_word (zeros 4 ++ sa) 1) = A).
  { rewrite <- (app_nil_r sa) at 1.
    rewrite (load_word_at (zeros 4) sa [] 1) by (try reflexivity; assumption).
    apply reverse_word; assumption. }
  assert (Ha0 : REVERSE_BYTE_ORDER 4 (load_word (zeros 4 ++ sa) 0) = 0).
  { change (zeros 4 ++ sa) with ([] ++ zeros 4 ++ sa).
    rewrite (load_word_at [] (zeros 4) sa 0 eq_refl eq_refl). reflexivity. }
  assert (Hb1 : REVERSE_BYTE_ORDER 4 (load_word (zeros 4 ++ sb) 1) = B).
  { rewrite <- (app_nil_r sb) at 1.
    rewrite (load_word_at (zeros 4) sb [] 1) by (try reflexivity; assumption).
    apply reverse_word; assumption. }
  assert (Hb0 : REVERSE_BYTE_ORDER 4 (load_word (zeros 4 ++ sb) 0) = 0).
  { change (zeros 4 ++ sb) with ([] ++ zeros 4 ++ sb).
    rewrite (load_word_at [] (zeros 4) sb 0 eq_refl eq_refl). reflexivity. }
  (* the words of the result *)
  set (t1 := zeros 12 ++ le_bytes 4 lo).
  set (t2 := zeros 8 ++ le_bytes 4 hi ++ le_bytes 4 lo).
  assert (E1 : store_word (zeros 16) 3 lo = t1).
  { change (zeros 16) with (zeros 12 ++ zeros 4 ++ []).
    rewrite store_word_at by reflexivity. subst t1. rewrite app_nil_r. reflexivity. }
  assert (E3 : store_word t1 2 hi = t2).
  { subst t1 t2. change (zeros 12) with (zeros 8 ++ zeros 4).
    rewrite <- app_assoc. rewrite store_word_at by reflexivity. reflexivity. }
  assert (E4 : load_word t2 2 = hi).
  { subst t2. rewrite load_word_at by (try reflexivity; apply length_le_bytes).
    apply word_of_le_bytes, Hhi. }
  assert (E5 : store_word t2 2 hi = t2).
  { subst t2. rewrite store_word_at by (try reflexivity; apply length_le_bytes).
    reflexivity. }
  assert (E7 : store_word t2 1 0 = t2).
  { subst t2. change (zeros 8) with (zeros 4 ++ zeros 4).
    rewrite <- app_assoc. rewrite store_word_at by reflexivity. reflexivity. }
  change (Z.to_nat 2) with 2%nat.
  cbn [mul_outer mul_inner].
  change (Z.to_nat 2) with 2%nat.
  cbn [mul_outer mul_inner].
  change (Z.of_nat 1) with 1. change (Z.of_nat 0) with 0.
  change (4 - (1 + 1)) with 2. change (4 - 1) with 3.
  change (3 - 1) with 2. change (2 - 1) with 1.
  change (8 * sizeof_BBI_BASE_TYPE) with 32.
  unfold D_LONG_BITS, to_unsigned.
  change BBI_BASE_MAX with (Z.ones 32).
  rewrite Ha1, Ha0, Hb1, Hb0.
  change (load_word (zeros 16) 3) with 0.
  rewrite !Z.mul_0_r, !Z.mul_0_l, !Z.add_0_r, !Z.add_0_l.
  rewrite !(Z.mod_small (B * A) (2 ^ 64)) by exact HBA.
  rewrite (Z.land_ones (B * A) 32) by lia.
  rewrite (Z.shiftr_div_pow2 (B * A) 32) by lia.
  fold hi lo. rewrite E1.
  rewrite !(Z.mod_small hi (2 ^ 64)) by lia.
  rewrite (Z.land_ones hi 32) by lia.
  rewrite !(Z.mod_small hi (2 ^ 32)) by lia.
  rewrite E3, E4.
  rewrite !(Z.mod_small hi (2 ^ 64)) by lia.
  rewrite (Z.land_ones hi 32) by lia.
  rewrite !(Z.mod_small hi (2 ^ 32)) by lia.
  rewrite E5.
  rewrite (Z.shiftr_div_pow2 hi 32) by lia.
  rewrite (Z.div_small hi (2 ^ 32)) by lia.
  change (Z.land ((0 mod 2 ^ 64) mod 2 ^ 64) (Z.ones 32)) with 0.
  rewrite E7. reflexivity.
Qed.

(** A value below [2 ^ 32] in two words: the first word is zero. *)
Lemma one_word_value_bytes (bs : list Z) :
  length bs = 8%nat -> Forall is_byte bs -> be_value bs < 2 ^ 32 ->
  exists s,
    bs = zeros 4 ++ s /\ length s = 4%nat /\ Forall is_byte s
    /\ be_value s = be_value bs.
Proof.
  intros Hl Hb Hv.
  do 8 (destruct bs as [| ? bs]; [discriminate Hl |]).
  destruct bs; [| discriminate Hl].
  repeat match goal with
         | H : Forall is_byte (_ :: _) |- _ =>
             let Hh := fresh "Hh" in
             apply Forall_cons_iff in H; destruct H as (Hh & H)
         end.
  unfold is_byte in *. unfold be_value in *. cbn [fold_left] in *.
  assert (z = 0 /\ z0 = 0 /\ z1 = 0 /\ z2 = 0) as (-> & -> & -> & ->) by lia.
  exists [z3; z4; z5; z6].
  repeat split; try reflexivity.
  repeat constructor; unfold is_byte; lia.
Qed.

(** [operator *] keeps each 32-bit word of the running product in the byte
    order of the host, while a bigbigint is read most significant byte
    first: the product of two values below [2 ^ 32] in two words each has
    four words, and its two low words are the high and the low half of the
    true product with their bytes swapped end for end. *)
Theorem product_words_are_byte_swapped (a b : bigbigint) :
  wf a -> wf b -> _length a = 2 -> _length b = 2 ->
  magnitude a < 2 ^ 32 -> magnitude b < 2 ^ 32 ->
  _length (operator_mul a b) = 4
  /\ _first_byte (operator_mul a b)
     = zeros 8
         ++ le_bytes 4 (magnitude a * magnitude b / 2 ^ 32)
         ++ le_bytes 4 ((magnitude a * magnitude b) mod 2 ^ 32)
  /\ magnitude (operator_mul a b)
     = REVERSE_BYTE_ORDER 4 (magnitude a * magnitude b / 2 ^ 32) * 2 ^ 32
       + REVERSE_BYTE_ORDER 4 ((magnitude a * magnitude b) mod 2 ^ 32).
Proof.
  intros Ha Hb Hla Hlb Hma Hmb.
  pose proof Ha as (_ & Hna & Hlena & Hra).
  pose proof Hb as (_ & Hnb & Hlenb & Hrb).
  unfold sizeof_BBI_BASE_TYPE in *. rewrite Hla in Hna. rewrite Hlb in Hnb.
  destruct (one_word_value_bytes (_first_byte a)) as (sa & Hsa & Hlsa & Hfsa & Hva);
    [lia | exact Hra | exact Hma |].
  destruct (one_word_value_bytes (_first_byte b)) as (sb & Hsb & Hlsb & Hfsb & Hvb);
    [lia | exact Hrb | exact Hmb |].
  assert (Hbytes : _first_byte (operator_mul a b)
                   = zeros 8
                       ++ le_bytes 4 (magnitude a * magnitude b / 2 ^ 32)
                       ++ le_bytes 4 ((magnitude a * magnitude b) mod 2 ^ 32)
                   /\ _length (operator_mul a b) = 4).
  { unfold operator_mul. rewrite Hla, Hlb.
    change (operator_assign_int (_constructor (2 + 2)) 0)
      with (mk_bigbigint (zeros 16) 16 4 0).
    change (2 >=? 2) with true. cbv iota beta zeta.
    cbn [_first_byte _length _num_bytes _flags].
    unfold set_bytes. cbn [_first_byte _length _num_bytes _flags].
    change (Z.to_nat 2) with 2%nat.
    rewrite Hsa, Hsb, (mul_outer_one_word sa sb Hlsa Hlsb Hfsa Hfsb).
    rewrite Hva, Hvb. fold (magnitude a) (magnitude b).
    rewrite (Z.mul_comm (magnitude b) (magnitude a)).
    destruct (_ || _); split; reflexivity. }
  destruct Hbytes as (Hbytes & Hlen).
  split; [exact Hlen |]. split; [exact Hbytes |].
  unfold magnitude at 1. rewrite Hbytes.
  rewrite !be_value_app, !length_le_bytes.
  rewrite (be_value_all_zero (zeros 8)) by apply all_zero_zeros.
  rewrite !be_value_le_combine.
  unfold REVERSE_BYTE_ORDER. change (Z.to_nat 4) with 4%nat.
  change (256 ^ Z.of_nat 4) with (2 ^ 32). ring.
Qed.

(** 3 times 5 is stored as the bytes 0F 00 00 00 of the last word. *)
Lemma product_words_are_byte_swapped_example :
  wf (of_int 3) /\ wf (of_int 5)
  /\ _length (of_int 3) = 2 /\ _length (of_int 5) = 2
  /\ magnitude (of_int 3) < 2 ^ 32 /\ magnitude (of_int 5) < 2 ^ 32
  /\ _length (operator_mul (of_int 3) (of_int 5)) = 4
  /\ _first_byte (operator_mul (of_int 3) (of_int 5))
     = zeros 8
         ++ le_bytes 4 (magnitude (of_int 3) * magnitude (of_int 5) / 2 ^ 32)
         ++ le_bytes 4 ((magnitude (of_int 3) * magnitude (of_int 5)) mod 2 ^ 32)
  /\ magnitude (operator_mul (of_int 3) (of_int 5))
     = REVERSE_BYTE_ORDER 4
         (magnitude (of_int 3) * magnitude (of_int 5) / 2 ^ 32) * 2 ^ 32
       + REVERSE_BYTE_ORDER 4
           ((magnitude (of_int 3) * magnitude (of_int 5)) mod 2 ^ 32).
Proof.
  assert (H3 : magnitude (of_int 3) < 2 ^ 32) by reflexivity.
  assert (H5 : magnitude (of_int 5) < 2 ^ 32) by reflexivity.
  refine (conj wf_of_int_3 (conj wf_of_int_5 (conj eq_refl (conj eq_refl
            (conj H3 (conj H5 _)))))).
  exact (product_words_are_byte_swapped _ _ wf_of_int_3 wf_of_int_5
           eq_refl eq_refl H3 H5).
Defined.
